(** * fastspecfit: continuum and emission-line fitting, shallow embedding

    The development follows [py/fastspecfit/continuum.py],
    [py/fastspecfit/emlines.py] and [py/fastspecfit/mpi.py].  A finite
    floating-point number is the rational ([Q]) it denotes, and a
    comparison of floats is the comparison of these rationals.  Where a
    result below depends on how an arithmetic operation rounds (the sums
    of [weighted_partition], the windows of [build_linemask], the columns
    of the output table), the operation is a parameter, so that the result
    holds for every rounding; [Float] gives the roundings of binary64 and
    binary32 for running the model.
    Exceptions, the logger and the interactive debugger are modelled by a
    small state-and-error monad ([Py.M]).  Library routines the code calls
    (numpy's [sqrt] and [lstsq], scipy's [curve_fit], astropy tables, the
    template machinery) are parameters of the sections that use them. *)

From Stdlib Require Import QArith Qabs List String Ascii ZArith Lia Lqa Bool.
From stdpp Require Import gmap strings.
Import ListNotations.

Local Open Scope Q_scope.

(** ** Comparisons on floats, as booleans *)

Module Num.

Definition Qltb (x y : Q) : bool := negb (Qle_bool y x).
Definition Qgtb (x y : Q) : bool := Qltb y x.
Definition Qleb (x y : Q) : bool := Qle_bool x y.
Definition Qgeb (x y : Q) : bool := Qle_bool y x.
Definition Qeqb (x y : Q) : bool := Qeq_bool x y.

(** [np.sum(v > 0)] for a one-dimensional array. *)
Definition count_positive (v : list Q) : Z :=
  Z.of_nat (length (List.filter (fun q => Qgtb q 0) v)).

Definition Qsum (v : list Q) : Q := fold_right Qplus 0 v.

(** numpy's true division of a float by a count: with a zero divisor the
    quotient is [inf] or [nan], which [None] stands for. *)
Definition np_divide (a : Q) (n : Z) : option Q :=
  if (n =? 0)%Z then None else Some (a / inject_Z n).

End Num.

(** ** Rounding to binary floating point *)

Module Float.

(** The number of [prec] significant bits nearest to [q], ties to the even
    significand; the exponent is not bounded (no overflow, no subnormal
    numbers). *)
Definition round (prec : Z) (q : Q) : Q :=
  let n := Qnum q in
  let d := Zpos (Qden q) in
  if (n =? 0)%Z then 0
  else
    let a := Z.abs n in
    let e0 := (Z.log2 a - Z.log2 d)%Z in
    let above := if (0 <=? e0)%Z then (d * 2 ^ e0 <=? a)%Z
                 else (d <=? a * 2 ^ (- e0))%Z in
    let e := if above then e0 else (e0 - 1)%Z in
    let s := (e - (prec - 1))%Z in
    let mn := if (0 <=? s)%Z then a else (a * 2 ^ (- s))%Z in
    let md := if (0 <=? s)%Z then (d * 2 ^ s)%Z else d in
    let fl := (mn / md)%Z in
    let rem := (mn mod md)%Z in
    let m := if (2 * rem <? md)%Z then fl
             else if (md <? 2 * rem)%Z then (fl + 1)%Z
             else if Z.even fl then fl else (fl + 1)%Z in
    let r := if (0 <=? s)%Z then inject_Z (m * 2 ^ s)
             else Qred (Qmake m (Z.to_pos (2 ^ (- s)))) in
    if (n <? 0)%Z then - r else r.

(** [float64] and [float32] *)
Definition double (q : Q) : Q := round 53 q.
Definition single (q : Q) : Q := round 24 q.

(** The arithmetic of [float64]. *)
Definition add (x y : Q) : Q := double (x + y).
Definition sub (x y : Q) : Q := double (x - y).
Definition mul (x y : Q) : Q := double (x * y).
Definition div (x y : Q) : Q := double (x / y).

End Float.

(** ** The Python run time: exceptions, logger, debugger *)

Module Py.

Inductive exn : Type :=
| NameError (name : string)
| AttributeError (name : string)
| KeyError (key : string)
| IndexError
| ValueError (msg : string)
| ZeroDivisionError
| RuntimeError
| AssertionError
| BdbQuit
| ExternalError (msg : string).

(** The outcome of a call: a value, an exception, or no return at all. *)
Inductive res (A : Type) : Type :=
| Ok (a : A)
| Raise (e : exn)
| Hang.

Arguments Ok {A} a.
Arguments Raise {A} e.
Arguments Hang {A}.

Inductive level : Type := DEBUG | INFO | WARNING | CRITICAL.

(** What the person at the debugger prompt answers: resume the program or
    leave the debugger (which raises [BdbQuit]). *)
Inductive dbg_cmd : Type := DbgContinue | DbgQuit.

(** The log holds the most recent record first. *)
Record world : Type := mkWorld {
  logs : list (level * string);
  stdin_dbg : list dbg_cmd
}.

Definition M (A : Type) : Type := world -> res A * world.

Definition ret {A} (a : A) : M A := fun w => (Ok a, w).

Definition raise {A} (e : exn) : M A := fun w => (Raise e, w).

Definition bind {A B} (m : M A) (k : A -> M B) : M B :=
  fun w => match m w with
           | (Ok a, w') => k a w'
           | (Raise e, w') => (Raise e, w')
           | (Hang, w') => (Hang, w')
           end.

Definition lift {A} (r : res A) : M A := fun w => (r, w).

(** [try: body / except: handler] with a bare [except]. *)
Definition try_except {A} (body : M A) (handler : M A) : M A :=
  fun w => match body w with
           | (Ok a, w') => (Ok a, w')
           | (Raise _, w') => handler w'
           | (Hang, w') => (Hang, w')
           end.

Definition log (lv : level) (msg : string) : M unit :=
  fun w => (Ok tt, mkWorld ((lv, msg) :: logs w) (stdin_dbg w)).

(** [pdb.set_trace()]: the program stops at the prompt.  On [c] it resumes;
    on [q], or when standard input is exhausted, the debugger raises
    [BdbQuit]. *)
Definition pdb_set_trace : M unit :=
  fun w => match stdin_dbg w with
           | DbgContinue :: rest => (Ok tt, mkWorld (logs w) rest)
           | DbgQuit :: rest => (Raise BdbQuit, mkWorld (logs w) rest)
           | [] => (Raise BdbQuit, w)
           end.

Definition res_bind {A B} (r : res A) (k : A -> res B) : res B :=
  match r with
  | Ok a => k a
  | Raise e => Raise e
  | Hang => Hang
  end.

(** A list comprehension whose element expression may raise. *)
Fixpoint mapM {A B} (f : A -> res B) (l : list A) : res (list B) :=
  match l with
  | [] => Ok []
  | a :: l' =>
      res_bind (f a) (fun b => res_bind (mapM f l') (fun bs => Ok (b :: bs)))
  end.

Definition of_option {A} (o : option A) : res A :=
  match o with
  | Some a => Ok a
  | None => Hang
  end.

(** Python slice bounds: a negative index counts from the end, and both
    ends are clipped to the length. *)
Definition slice_bound (n i : Z) : Z :=
  if (i <? 0)%Z then Z.max 0 (n + i) else Z.min i n.

(** [l[start:stop]] *)
Definition py_slice {A} (l : list A) (start stop : Z) : list A :=
  let n := Z.of_nat (length l) in
  let a := slice_bound n start in
  let b := slice_bound n stop in
  firstn (Z.to_nat (b - a)) (skipn (Z.to_nat a) l).

(** [l[i]] for a non-negative index. *)
Definition py_index {A} (l : list A) (i : nat) : res A :=
  match nth_error l i with
  | Some a => Ok a
  | None => Raise IndexError
  end.

End Py.

Declare Scope py_scope.
Delimit Scope py_scope with py.
Notation "'let*' x ':=' c 'in' k" := (Py.bind c (fun x => k))
  (at level 10, x pattern, c at level 100, k at level 200) : py_scope.
Notation "c ';;' k" := (Py.bind c (fun _ => k))
  (at level 100, k at level 200, right associativity) : py_scope.

(** ** continuum.py: ContinuumTools.estimate_linesigmas *)

Module ContinuumTools.

Import Num Py.

(** The pixels stacked in velocity space around the lines of one tying
    class (lines 728-763 of continuum.py): the number of stacked pixels and
    the robust scatter [diff(percentile(contflux, [25, 75])) / 1.349] of
    the neighbouring continuum pixels. *)
Record stack : Type := mkStack {
  stack_npix : nat;
  cont_robust_std : Q
}.

Definition linesigma_snr_min : Q := 3 # 2.
Definition init_linesigma_balmer : Q := 1000.
Definition init_linesigma_narrow : Q := 200.
Definition init_linesigma_uv : Q := 2000.

(** [OII] doublet, [OIII] 4959,5007; Hbeta, Halpha; CIV and MgII doublets. *)
Definition restwaves_narrow : list Q := [3728483 # 1000; 4960295 # 1000; 5008239 # 1000].
Definition restwaves_balmer : list Q := [4862683 # 1000; 6564613 # 1000].
Definition restwaves_uv : list Q := [15494795 # 10000; 2799942 # 1000].

Definition redshifted (restwaves : list Q) (redshift : Q) : list Q :=
  map (fun w => w * (1 + redshift)) restwaves.

(** [np.min] and [np.max] of a one-dimensional array: an empty array is
    refused. *)
Definition np_min (v : list Q) : res Q :=
  match v with
  | [] => Raise (ValueError "zero-size array to reduction operation minimum which has no identity")
  | q :: v' => Ok (fold_left (fun m x => if Qltb x m then x else m) v' q)
  end.

Definition np_max (v : list Q) : res Q :=
  match v with
  | [] => Raise (ValueError "zero-size array to reduction operation maximum which has no identity")
  | q :: v' => Ok (fold_left (fun m x => if Qltb m x then x else m) v' q)
  end.

Section EstimateLinesigmas.

(** The wavelengths of the spectrum. *)
Variable wave : list Q.

(** [build_stack zlinewaves init_linesigma], for the lines of a class
    that are in range (lines 730-763), is [None] when no line has enough
    significant pixels. *)
Variable build_stack : list Q -> Q -> option stack.

(** scipy's [curve_fit] of a Gaussian plus pedestal to the stack, started
    at [p0 = [1.0, init_linesigma, 0.0]]; it returns [(amp, sigma, const)]
    or raises. *)
Variable curve_fit : stack -> Q -> res (Q * Q * Q).

(** The nested function [get_linesigma]; the value is
    [(linesigma, linesigma_snr)].  The lines in range are those strictly
    between [np.min(wave)] and [np.max(wave)], which an empty spectrum
    does not have.  Only [RuntimeError] is caught. *)
Definition get_linesigma (zlinewaves : list Q) (init_linesigma : Q) : res (Q * Q) :=
  res_bind (np_min wave) (fun minwave =>
  res_bind (np_max wave) (fun maxwave =>
  let inrange :=
    List.filter (fun z => Qgtb z minwave && Qltb z maxwave) zlinewaves in
  if (0 <? length inrange)%nat then
    match build_stack inrange init_linesigma with
    | None => Ok (0, 0)
    | Some st =>
        if (10 <? stack_npix st)%nat then
          match curve_fit st init_linesigma with
          | Ok (amp, sigma, _) =>
              let sigma := Qabs sigma in
              if Qgtb amp 0 && Qgtb sigma 0 then
                Ok (sigma,
                    if Qgtb (cont_robust_std st) 0
                    then amp / cont_robust_std st else 0)
              else Ok (0, 0)
          | Raise RuntimeError => Ok (0, 0)
          | Raise e => Raise e
          | Hang => Hang
          end
        else Ok (0, 0)
    end
  else Ok (0, 0))).

(** The refit with the first estimate as the new starting width. *)
Definition refit_linesigma (refit : bool) (zlinewaves : list Q)
    (init_linesigma : Q) (first : Q * Q) : res (Q * Q) :=
  let '(linesigma, linesigma_snr) := first in
  if refit && Qgtb linesigma_snr 0 then
    if Qgtb linesigma init_linesigma
       && Qltb linesigma (5 * init_linesigma)
       && Qgtb linesigma_snr linesigma_snr_min
    then get_linesigma zlinewaves linesigma
    else Ok first
  else Ok first.

(** The final test of a class: below [floor], above [5 * init_linesigma]
    or below the minimum S/N, the default width is adopted with S/N 0. *)
Definition settle_linesigma (floor init_linesigma : Q) (est : Q * Q) : Q * Q :=
  let '(linesigma, linesigma_snr) := est in
  if Qltb linesigma floor
     || Qgtb linesigma (5 * init_linesigma)
     || Qltb linesigma_snr linesigma_snr_min
  then (init_linesigma, 0)
  else (linesigma, linesigma_snr).

(** The block the source writes once per tying class. *)
Definition class_linesigma (refit : bool) (zlinewaves : list Q)
    (init_linesigma floor : Q) : res (Q * Q) :=
  res_bind (get_linesigma zlinewaves init_linesigma) (fun first =>
  res_bind (refit_linesigma refit zlinewaves init_linesigma first) (fun est =>
  Ok (settle_linesigma floor init_linesigma est))).

(** The value is [(linesigma_narrow, linesigma_balmer, linesigma_uv,
    linesigma_narrow_snr, linesigma_balmer_snr, linesigma_uv_snr)]. *)
Definition estimate_linesigmas (redshift : Q) (refit : bool)
  : res (Q * Q * Q * Q * Q * Q) :=
  res_bind (class_linesigma refit (redshifted restwaves_narrow redshift)
              init_linesigma_narrow 50) (fun narrow =>
  res_bind (class_linesigma refit (redshifted restwaves_balmer redshift)
              init_linesigma_balmer 50) (fun balmer =>
  res_bind (class_linesigma refit (redshifted restwaves_uv redshift)
              init_linesigma_uv 300) (fun uv =>
  Ok (fst narrow, fst balmer, fst uv, snd narrow, snd balmer, snd uv)))).

End EstimateLinesigmas.

End ContinuumTools.

(** ** Dense linear algebra on lists (numpy arrays, row-major) *)

Module LinAlg.

Import Num.

Definition dot (u v : list Q) : Q := Qsum (zip_with Qmult u v).

(** [A.dot(x)] for a two-dimensional [A]. *)
Definition matvec (A : list (list Q)) (x : list Q) : list Q :=
  map (fun row => dot row x) A.

Definition ncols (A : list (list Q)) : nat :=
  match A with
  | [] => O
  | row :: _ => length row
  end.

Definition column (A : list (list Q)) (j : nat) : list Q :=
  map (fun row => nth j row 0) A.

(** [A.T] *)
Definition transpose (A : list (list Q)) : list (list Q) :=
  map (column A) (seq 0 (ncols A)).

(** [A.T.dot(B)] *)
Definition gram (A B : list (list Q)) : list (list Q) :=
  map (fun ai => map (fun bj => dot ai bj) (transpose B)) (transpose A).

(** [A * w[:, np.newaxis]]: every row scaled by its weight. *)
Definition scale_rows (A : list (list Q)) (w : list Q) : list (list Q) :=
  zip_with (fun row wi => map (fun a => a * wi) row) A w.

(** [np.sum(ivar * (flux - model)**2)] *)
Definition weighted_rss (ivar flux model : list Q) : Q :=
  Qsum (zip_with Qmult ivar
          (zip_with (fun f m => (f - m) * (f - m)) flux model)).

End LinAlg.

(** ** fastspecfit.fnnls: the non-negative least-squares solver *)

Module Fnnls.

Import Num Py LinAlg.

(** [np.finfo(np.float64).eps], the default tolerance. *)
Definition epsilon : Q := 1 # 4503599627370496.

(** [v[sets]]: the entries of [v] in the passive set. *)
Fixpoint select {A} (sets : list bool) (v : list A) : list A :=
  match sets, v with
  | b :: bs, a :: v' => if b then a :: select bs v' else select bs v'
  | _, _ => []
  end.

(** [s[P] = sol; s[R] = 0] *)
Fixpoint scatter (sets : list bool) (sol : list Q) : list Q :=
  match sets with
  | [] => []
  | true :: bs => hd 0 sol :: scatter bs (tl sol)
  | false :: bs => 0 :: scatter bs sol
  end.

(** [AtA[P][:, P]] *)
Definition submatrix (sets : list bool) (AtA : list (list Q)) : list (list Q) :=
  map (select sets) (select sets AtA).

(** The first index of the active set at which [w] is largest, with the
    value there: [R[np.argmax(w[R])]] and [np.max(w[R])]. *)
Fixpoint argmax_active (sets : list bool) (w : list Q) (i : nat)
    (best : option (nat * Q)) : option (nat * Q) :=
  match sets, w with
  | b :: bs, wi :: w' =>
      let best' :=
        if b then best
        else match best with
             | None => Some (i, wi)
             | Some (_, wb) => if Qgtb wi wb then Some (i, wi) else best
             end in
      argmax_active bs w' (S i) best'
  | _, _ => best
  end.

Definition Qmin_list (v : list Q) : Q :=
  match v with
  | [] => 0
  | a :: v' => fold_left (fun m b => if Qltb b m then b else m) v' a
  end.

(** [np.min(x[P][mask] / (x[P][mask] - s[P][mask]))] for
    [mask = (s[P] <= epsilon)]. *)
Definition step_length (sets : list bool) (x s : list Q) : Q :=
  Qmin_list
    (map (fun xs => fst xs / (fst xs - snd xs))
       (List.filter (fun xs => Qleb (snd xs) epsilon)
          (select sets (combine x s)))).

(** Indices of the passive set at which [x < epsilon] go back to the
    active set. *)
Definition release (sets : list bool) (x : list Q) : list bool :=
  zip_with (fun b xi => b && negb (Qltb xi epsilon)) sets x.

Section Solver.

(** [np.linalg.lstsq(A, b, rcond=None)[0]] *)
Variable lstsq : list (list Q) -> list Q -> list Q.

Variables (AtA : list (list Q)) (Aty : list Q).

(** Solve [(AtA)^P s^P = (Aty)^P] and put zeros on the active set. *)
Definition solve_passive (sets : list bool) : list Q :=
  scatter sets (lstsq (submatrix sets AtA) (select sets Aty)).

(** The inner loop: while some passive entry of [s] is not positive, move
    [x] towards [s] as far as feasibility allows and release the indices
    that reached zero.  [None]: the loop had not stopped after [fuel]
    rounds. *)
Fixpoint inner_loop (fuel : nat) (sets : list bool) (x s : list Q) (i : nat)
  : option (list bool * list Q * list Q * nat) :=
  if existsb (fun v => Qleb v epsilon) (select sets s) then
    match fuel with
    | O => None
    | S fuel' =>
        let alpha := step_length sets x s in
        let x' := zip_with (fun xi si => xi + alpha * (si - xi)) x s in
        let sets' := release sets x' in
        inner_loop fuel' sets' x' (solve_passive sets') (S i)
    end
  else Some (sets, x, s, i).

(** The main loop: while the active set is not empty, the largest gradient
    entry on it exceeds the tolerance and the iteration budget is left,
    move that index to the passive set and solve. *)
Fixpoint main_loop (fuel : nat) (iter_max : nat) (sets : list bool)
    (x w : list Q) (i : nat) : option (list Q) :=
  match argmax_active sets w 0 None with
  | Some (m, wm) =>
      if Qgtb wm epsilon && (i <? iter_max)%nat then
        match fuel with
        | O => None
        | S fuel' =>
            let sets1 := <[m := true]> sets in
            match inner_loop fuel' sets1 x (solve_passive sets1) i with
            | None => None
            | Some (sets2, _, s2, i2) =>
                let x2 := s2 in
                let w2 := zip_with Qminus Aty (matvec AtA x2) in
                main_loop fuel' iter_max sets2 x2 w2 i2
            end
        end
      else Some x
  | None => Some x
  end.

End Solver.

(** Modelled from the spec: [fastspecfit.fnnls.fnnls] is not under src/.
    The spec (4.3) describes the primitive as a fast active-set NNLS variant
    solving [min ||Zc - x||^2] subject to [c >= 0], called on the normal
    equations [(Z^T Z, Z^T x)]; the source names the fast-nnls algorithm
    (Bro and De Jong).  The active-set iteration is written out above; [fuel]
    bounds the number of rounds, and [None] stands for a call that has not
    returned. *)
Definition fnnls (lstsq : list (list Q) -> list Q -> list Q) (fuel : nat)
    (AtA : list (list Q)) (Aty : list Q) : option (list Q) :=
  let n := length AtA in
  main_loop lstsq AtA Aty fuel (30 * n) (repeat false n) (repeat 0 n) Aty 0.

(** A call of [fnnls] as the callers see it. *)
Definition fnnls_call (lstsq : list (list Q) -> list Q -> list Q) (fuel : nat)
    (AtA : list (list Q)) (Aty : list Q) : res (list Q) :=
  of_option (fnnls lstsq fuel AtA Aty).

(** An exact solver for square systems by Gauss-Jordan elimination, used to
    run the model on examples.  A column without pivot leaves its unknown
    at zero. *)
Module Exact.

Definition scale_row (c : Q) (row : list Q) : list Q := map (Qmult c) row.

Definition sub_row (c : Q) (piv row : list Q) : list Q :=
  zip_with (fun r p => Qred (r - c * p)) row piv.

(** Split the rows into the first one whose entry [j] is not zero and the
    others. *)
Fixpoint find_pivot (j : nat) (rows : list (list Q))
  : option (list Q * list (list Q)) :=
  match rows with
  | [] => None
  | row :: rest =>
      if Qeqb (nth j row 0) 0 then
        match find_pivot j rest with
        | Some (p, others) => Some (p, row :: others)
        | None => None
        end
      else Some (row, rest)
  end.

(** [eliminate n j done todo]: columns [j..n-1] remain; [done] holds the
    pivot rows found so far (with their column), already reduced. *)
Fixpoint eliminate (k : nat) (j : nat) (done : list (nat * list Q))
    (todo : list (list Q)) : list (nat * list Q) :=
  match k with
  | O => done
  | S k' =>
      match find_pivot j todo with
      | None => eliminate k' (S j) done todo
      | Some (p, others) =>
          let p' := scale_row (/ nth j p 0) p in
          let clear := fun row => sub_row (nth j row 0) p' row in
          eliminate k' (S j)
            ((j, p') :: map (fun d => (fst d, clear (snd d))) done)
            (map clear others)
      end
  end.

Definition lstsq (A : list (list Q)) (b : list Q) : list Q :=
  let n := length b in
  let aug := zip_with (fun row bi => row ++ [bi]) A b in
  let piv := eliminate n 0 [] aug in
  map (fun j =>
         match find (fun d => Nat.eqb (fst d) j) piv with
         | Some d => Qred (nth n (snd d) 0)
         | None => 0
         end) (seq 0 n).

End Exact.

End Fnnls.

(** ** continuum.py: the NNLS wrappers and the two continuum fits *)

Module ContinuumFit.

Import Num Py LinAlg.

Inductive camera : Type := cam_b | cam_r | cam_z.

(** The input dictionary [data] of one object: one entry per camera in
    [cameras], [wave], [flux], [ivar], [linemask] and [snr]; the broadband
    photometry in [phot_flam] and [phot_flam_ivar], one entry per band. *)
Record spectrum : Type := mkSpectrum {
  zredrock : Q;
  cameras : list camera;
  wave : list (list Q);
  flux : list (list Q);
  ivar : list (list Q);
  linemask : list (list bool);
  snr : list Q;
  phot_flam : list Q;
  phot_flam_ivar : list Q
}.

(** The columns of the spectroscopic output table that the fit sets. *)
Record spec_output : Type := mkSpecOutput {
  CONTINUUM_Z : Q;
  CONTINUUM_COEFF : list Q;
  CONTINUUM_RCHI2 : option Q;
  CONTINUUM_AV : Q;
  CONTINUUM_AV_IVAR : Q;
  CONTINUUM_VDISP : Q;
  CONTINUUM_VDISP_IVAR : Q;
  CONTINUUM_SNR : camera -> Q
}.

Record phot_output : Type := mkPhotOutput {
  PHOT_CONTINUUM_COEFF : list Q;
  PHOT_CONTINUUM_RCHI2 : option Q;
  PHOT_CONTINUUM_AV : Q;
  PHOT_CONTINUUM_AV_IVAR : Q;
  PHOT_DN4000_MODEL : Q
}.

Definition fluxnorm : Q := inject_Z (10 ^ 17).
Definition massnorm : Q := inject_Z (10 ^ 10).

Definition msg_minimize : string := "A problem was encountered minimizing chi2.".
Definition msg_fnnls_grid : string :=
  "fnnls did not converge after 10 iterations for parameter value(s)".
Definition msg_vdisp_took : string := "Fitting for the velocity dispersion took".
Definition msg_item : string :=
  "can only convert an array of size 1 to a Python scalar".
Definition msg_all_masked : string :=
  "All pixels are masked or some inverse variances are negative!".

Definition camera_eqb (c d : camera) : bool :=
  match c, d with
  | cam_b, cam_b | cam_r, cam_r | cam_z, cam_z => true
  | _, _ => false
  end.

(** [result['CONTINUUM_SNR_' + cam.upper()] = data['snr'][icam]] for every
    camera of the object; the columns start at zero. *)
Fixpoint set_snr (cams : list camera) (icam : nat) (snrs : list Q)
    (col : camera -> Q) : res (camera -> Q) :=
  match cams with
  | [] => Ok col
  | cam :: cams' =>
      res_bind (py_index snrs icam) (fun v =>
      set_snr cams' (S icam) snrs
        (fun c => if camera_eqb c cam then v else col c))
  end.

(** [column[0][0:n] = coeff] on a column of [n_total] zeros. *)
Definition store_coeff (n_total : nat) (coeff : list Q) : list Q :=
  coeff ++ repeat 0 (n_total - length coeff).

Section Fit.

(** [np.sqrt] *)
Variable np_sqrt : Q -> Q.

(** [fastspecfit.fnnls.fnnls] *)
Variable fnnls : list (list Q) -> list Q -> res (list Q).

(** [fastspecfit.util.find_minima] and [fastspecfit.util.minfit]; the
    latter returns [(x0, xerr, y0, zwarn)]. *)
Variable find_minima : list Q -> res (list Z).
Variable minfit : list Q -> list Q -> res (Q * Q * Q * Z).

(** scipy's [interp1d] of the coefficient rows at [xbest]. *)
Variable interp_coeff : Q -> list Q -> list (list Q) -> list Q.

(** [fnnls_continuum(ZZ, xx, flux, ivar, modelflux, get_chi2)]; the value
    is [(warn, coeff)] with the chi-square when [get_chi2] is set. *)
Definition fnnls_continuum (ZZ : list (list Q)) (xx flux ivar : list Q)
    (modelflux : list (list Q)) (get_chi2 : bool)
  : res (bool * list Q * option Q) :=
  let AtA := gram ZZ ZZ in
  let Aty := matvec (transpose ZZ) xx in
  res_bind (fnnls AtA Aty) (fun coeff =>
  let warn := false in
  if get_chi2 then
    let chi2 := weighted_rss ivar flux (matvec modelflux coeff) in
    Ok (warn, coeff, Some chi2)
  else Ok (warn, coeff, None)).

(** [_fnnls_parallel] without [xparam]: the coefficients and chi-square
    for one model matrix [npix, nage]. *)
Definition _fnnls_parallel_coeff (modelflux : list (list Q))
    (flux ivar : list Q) : M (list Q * Q) :=
  (let ww := map np_sqrt ivar in
   let xx := zip_with Qmult flux ww in
   let ZZ := scale_rows modelflux ww in
   let* rr := lift (fnnls_continuum ZZ xx flux ivar modelflux true) in
   let '(warn, coeff, chi2) := rr in
   match chi2 with
   | Some chi2 => ret (coeff, chi2)
   | None => raise (ValueError "not enough values to unpack")
   end)%py.

(** The minimum of the chi-square curve and the parabola through it and
    its two neighbours (the [try] block); any exception is answered by a
    warning and the failure tuple. *)
Definition locate_minimum (xparam chi2grid : list Q)
  : M (Z * Q * Q * Q * Z) :=
  (try_except
     (let* mins := lift (find_minima chi2grid) in
      let* imin := lift (py_index mins 0) in
      let* fit := lift (minfit (py_slice xparam (imin - 1) (imin + 2))
                               (py_slice chi2grid (imin - 1) (imin + 2))) in
      let '(xbest, xerr, chi2min, warn) := fit in
      ret (imin, xbest, xerr, chi2min, warn))
     (log WARNING msg_minimize ;;
      ret (0%Z, 0, 0, 0, 1%Z)))%py.

(** [_fnnls_parallel] with [xparam], lines 1624-1633: [modelflux] holds
    one model matrix per trial value ([modelflux[:, :, ii]] is entry
    [ii]); the value is the coefficients and the chi-square at every
    trial value. *)
Definition solve_grid (modelflux : list (list (list Q)))
    (flux ivar xparam : list Q) : M (list (list Q) * list Q) :=
  (let nn := length xparam in
   let ww := map np_sqrt ivar in
   let xx := zip_with Qmult flux ww in
   let* slices := lift (mapM (py_index modelflux) (seq 0 nn)) in
   let* rr := lift (mapM (fun mf =>
                 fnnls_continuum (scale_rows mf ww) xx flux ivar mf true)
                 slices) in
   let warn := map (fun t => fst (fst t)) rr in
   let coeff := map (fun t => snd (fst t)) rr in
   let chi2grid := map (fun t => default 0 (snd t)) rr in
   (if existsb id warn then log WARNING msg_fnnls_grid else ret tt) ;;
   ret (coeff, chi2grid))%py.

(** Lines 1635-1661: the best trial value, its inverse variance and the
    chi-square there, with the coefficients at the best value when
    [interpolate_coeff] is set.  The value is
    [(chi2min, xbest, xivar, bestcoeff)]. *)
Definition refine_minimum (xparam chi2grid : list Q)
    (coeff : list (list Q)) (interpolate_coeff : bool)
  : M (Q * Q * Q * option (list Q)) :=
  (let* located := locate_minimum xparam chi2grid in
   let '(imin, xbest, xerr, chi2min, warn) := located in
   let* refined :=
     (if (warn =? 0)%Z then
        if Qeqb xerr 0 then raise ZeroDivisionError
        else ret (chi2min, 1 / (xerr * xerr), xbest)
      else
        let* x0 := lift (py_index xparam 0) in
        ret (0, 0, x0)) in
   let '(chi2min, xivar, xbest) := refined in
   let* bestcoeff :=
     (if interpolate_coeff then
        let* x0 := lift (py_index xparam 0) in
        if Qeqb xbest x0 then
          let* c0 := lift (py_index coeff 0) in ret (Some c0)
        else ret (Some (interp_coeff xbest xparam coeff))
      else ret None) in
   ret (chi2min, xbest, xivar, bestcoeff))%py.

Definition _fnnls_parallel_grid (modelflux : list (list (list Q)))
    (flux ivar xparam : list Q) (interpolate_coeff : bool)
  : M (Q * Q * Q * option (list Q)) :=
  (let* solved := solve_grid modelflux flux ivar xparam in
   let '(coeff, chi2grid) := solved in
   refine_minimum xparam chi2grid coeff interpolate_coeff)%py.

(** *** The attributes of [ContinuumFit] and the template machinery *)

(** The trial grids [self.AV] and [self.vdisp], their nominal values, the
    [solve_vdisp] switch, and [self.nage = len(self.sspinfo)]. *)
Variables (AV vdisp : list Q) (AV_nominal vdisp_nominal : Q).
Variable solve_vdisp : bool.
Variable nssp_coeff : nat.

(** [self.bands_to_fit], a 0/1 weight per band. *)
Variable bands_to_fit : list Q.

(** [SSP2data] on the cached grid of reddened templates at the nominal
    velocity dispersion: one model matrix per trial A(V), for the spectra
    and for the photometry. *)
Variable SSP2data_dust_spec : spectrum -> res (list (list (list Q))).
Variable SSP2data_dust_phot : spectrum -> res (list (list (list Q))).

(** [SSP2data] at one [(AV, vdisp)], concatenated over the cameras; and its
    photometric counterpart at one [AV], which gives the model spectra and
    the model photometry. *)
Variable SSP2data_spec : spectrum -> Q -> Q -> res (list (list Q)).
Variable SSP2data_phot : spectrum -> Q -> res (list (list Q) * list (list Q)).

(** Mean age, DN(4000), smooth continuum, K-corrections: the quantities
    derived from the solved coefficients, which may raise. *)
Variable derived_spec : spectrum -> list Q -> list Q -> res unit.
Variable derived_phot : spectrum -> list Q -> list Q -> res Q.

(** [np.hstack(data['ivar']) * np.logical_not(np.hstack(data['linemask']))] *)
Definition line_masked_ivar (data : spectrum) : list Q :=
  zip_with (fun iv (masked : bool) => if masked then 0 else iv)
    (concat (ivar data)) (concat (linemask data)).

(** [compute_vdisp], line 1900. *)
Definition compute_vdisp (snr_col : camera -> Q) (redshift : Q) : bool :=
  (Qgtb (snr_col cam_b) 3 && Qgtb (snr_col cam_r) 3) && Qltb redshift 1.

(** Lines 1905-1993: the grid search over the velocity dispersion at the
    best A(V), or the nominal value.  The value is
    [(vdispbest, vdispivar)]. *)
Definition fit_vdisp (data : spectrum) (snr_col : camera -> Q)
    (specflux specivar : list Q) (AVbest : Q) : M (Q * Q) :=
  (let redshift := zredrock data in
   let compute := compute_vdisp snr_col redshift in
   (if compute then log INFO "Solving for velocity dispersion" else ret tt) ;;
   if solve_vdisp || compute then
     let* zsspflux_vdisp :=
       lift (mapM (fun v => SSP2data_spec data AVbest v) vdisp) in
     let* grid := _fnnls_parallel_grid zsspflux_vdisp specflux specivar
                    vdisp false in
     let '(vdispchi2min, vdispbest, vdispivar, _) := grid in
     log INFO msg_vdisp_took ;;
     if Qgtb vdispivar 0 then
       log INFO "Best-fitting vdisp" ;;
       ret (vdispbest, vdispivar)
     else
       log INFO "Finding vdisp failed; adopting vdisp" ;;
       ret (vdisp_nominal, vdispivar)
   else ret (vdisp_nominal, 0))%py.

(** [continuum_specfit(data)], up to the packing of the output table. *)
Definition continuum_specfit (data : spectrum) : M spec_output :=
  (let redshift := zredrock data in
   let* snr_col := lift (set_snr (cameras data) 0 (snr data) (fun _ => 0)) in
   let specflux := concat (flux data) in
   let specivar := line_masked_ivar data in
   if forallb (fun q => Qeqb q 0) specivar
      || existsb (fun q => Qltb q 0) specivar
   then
     log CRITICAL msg_all_masked ;;
     raise (ValueError msg_all_masked)
   else
     let* zsspflux_dustnomvdisp := lift (SSP2data_dust_spec data) in
     log INFO "Preparing the models took" ;;
     let* grid := _fnnls_parallel_grid zsspflux_dustnomvdisp specflux
                    specivar AV solve_vdisp in
     let '(AVchi2min, AVbest, AVivar, AVcoeff) := grid in
     log INFO "Fitting for the reddening took" ;;
     let* AVbest :=
       (if Qgtb AVivar 0 then
          log INFO "Best-fitting spectroscopic A(V)" ;; ret AVbest
        else
          log INFO "Finding spectroscopic A(V) failed; adopting A(V)" ;;
          ret AV_nominal) in
     let* vd := fit_vdisp data snr_col specflux specivar AVbest in
     let '(vdispbest, vdispivar) := vd in
     let* bestsspflux := lift (SSP2data_spec data AVbest vdispbest) in
     let* solved := _fnnls_parallel_coeff bestsspflux specflux specivar in
     let '(coeff, chi2min) := solved in
     let chi2min := np_divide chi2min (count_positive specivar) in
     let bestfit := matvec bestsspflux coeff in
     lift (derived_spec data coeff bestfit) ;;
     ret (mkSpecOutput redshift (store_coeff nssp_coeff coeff) chi2min
            AVbest AVivar vdispbest vdispivar snr_col))%py.

(** [continuum_fastphot(data)] *)
Definition continuum_fastphot (data : spectrum) : M phot_output :=
  (let* zsspphot_dustnomvdisp := lift (SSP2data_dust_phot data) in
   log INFO "Preparing the models took" ;;
   let objflam := map (fun f => f * fluxnorm) (phot_flam data) in
   let objflamivar :=
     zip_with Qmult
       (map (fun iv => iv / (fluxnorm * fluxnorm)) (phot_flam_ivar data))
       bands_to_fit in
   if negb (forallb (fun q => Qgeb q 0) objflamivar) then
     raise AssertionError
   else
     let* fitted :=
       (if forallb (fun q => Qeqb q 0) objflamivar then
          log INFO "All photometry is masked or not available!" ;;
          ret (AV_nominal, 0, Some 0, repeat 0 nssp_coeff, [])
        else
          let zsspflam_dustnomvdisp :=
            map (map (map (fun f => f * fluxnorm * massnorm)))
              zsspphot_dustnomvdisp in
          (if (length (List.filter (fun a => Qeqb a 0) AV) =? 1)%nat then ret tt
           else raise (ValueError msg_item)) ;;
          let* grid := _fnnls_parallel_grid zsspflam_dustnomvdisp objflam
                         objflamivar AV false in
          let '(AVchi2min, AVbest, AVivar, _) := grid in
          log INFO "Fitting the photometry took" ;;
          let* AVbest :=
            (if Qgtb AVivar 0 then
               log INFO "Best-fitting photometric A(V)" ;; ret AVbest
             else
               log INFO "Finding photometric A(V) failed; adopting A(V)" ;;
               ret AV_nominal) in
          let* best := lift (SSP2data_phot data AVbest) in
          let '(bestsspflux, bestphot) := best in
          let* solved :=
            _fnnls_parallel_coeff
              (map (map (fun f => f * massnorm * fluxnorm)) bestphot)
              objflam objflamivar in
          let '(coeff, chi2min) := solved in
          let dof := (count_positive objflamivar - 1)%Z in
          let chi2min := np_divide chi2min dof in
          ret (AVbest, AVivar, chi2min, coeff, matvec bestsspflux coeff)) in
     let '(AVbest, AVivar, chi2min, coeff, continuummodel) := fitted in
     let* tail :=
       (if (count_positive coeff =? 0)%Z then
          log WARNING "Continuum coefficients are all zero!" ;;
          ret (Some 0, - (1))
        else
          let* dn4000 := lift (derived_phot data coeff continuummodel) in
          ret (chi2min, dn4000)) in
     let '(chi2min, dn4000) := tail in
     ret (mkPhotOutput (store_coeff nssp_coeff coeff) chi2min AVbest AVivar
            dn4000))%py.

End Fit.

End ContinuumFit.

(** ** emlines.py *)

Module EMLines.

Import Num Py LinAlg.

(** *** Names *)

Definition upper_ascii (c : ascii) : ascii :=
  let n := nat_of_ascii c in
  if (97 <=? n)%nat && (n <=? 122)%nat then ascii_of_nat (n - 32) else c.



(** [str.upper] and [str.lower] on ASCII names. *)
Fixpoint upper (s : string) : string :=
  match s with
  | EmptyString => EmptyString
  | String c s' => String (upper_ascii c) (upper s')
  end.



(** *** build_linemodels, lines 43-57: the parameter list *)

Definition line_params : list string := ["amp"; "vshift"; "sigma"]%string.

(** Doublet-ratio parameters take the place of one amplitude of each close
    or physical doublet. *)
Definition doublet_param_name (param_name : string) : string :=
  let param_name :=
    if String.eqb param_name "mgii_2796_amp" then "mgii_doublet_ratio"%string
    else param_name in
  let param_name :=
    if String.eqb param_name "oii_3726_amp" then "oii_doublet_ratio"%string
    else param_name in
  if String.eqb param_name "sii_6731_amp" then "sii_doublet_ratio"%string
  else param_name.

Definition build_param_names (linenames : list string) : list string :=
  flat_map (fun linename =>
              map (fun param =>
                     doublet_param_name
                       (String.append linename (String.append "_" param)))
                line_params)
    linenames.

(** *** Name resolution in emlines.py *)

(** The names bound at module level: the imports, the logger and the
    functions and the class the module defines. *)
Definition module_globals : list string :=
  ["pdb"; "os"; "time"; "np"; "multiprocessing"; "u"; "Table"; "Column";
   "resample_flux"; "trapz_rebin"; "C_LIGHT"; "ContinuumTools";
   "get_logger"; "DEBUG"; "log"; "read_emlines"; "build_linemodels";
   "initial_guesses_and_bounds"; "emline_spectrum"; "EMLineFit"]%string.

(** Python's built-in functions, constants and the common exceptions. *)
Definition builtins : list string :=
  ["abs"; "all"; "any"; "ascii"; "bin"; "bool"; "breakpoint"; "bytearray";
   "bytes"; "callable"; "chr"; "classmethod"; "compile"; "complex";
   "delattr"; "dict"; "dir"; "divmod"; "enumerate"; "eval"; "exec";
   "filter"; "float"; "format"; "frozenset"; "getattr"; "globals";
   "hasattr"; "hash"; "help"; "hex"; "id"; "input"; "int"; "isinstance";
   "issubclass"; "iter"; "len"; "list"; "locals"; "map"; "max";
   "memoryview"; "min"; "next"; "object"; "oct"; "open"; "ord"; "pow";
   "print"; "property"; "range"; "repr"; "reversed"; "round"; "set";
   "setattr"; "slice"; "sorted"; "staticmethod"; "str"; "sum"; "super";
   "tuple"; "type"; "vars"; "zip"; "__import__"; "True"; "False"; "None";
   "NotImplemented"; "Ellipsis"; "__debug__"; "Exception"; "BaseException";
   "ValueError"; "TypeError"; "KeyError"; "IndexError"; "NameError";
   "AttributeError"; "RuntimeError"; "ZeroDivisionError"; "AssertionError";
   "StopIteration"; "OSError"; "IOError"; "ImportError";
   "NotImplementedError"; "KeyboardInterrupt"; "ArithmeticError";
   "OverflowError"; "LookupError"; "UnboundLocalError"; "Warning";
   "UserWarning"; "DeprecationWarning"; "RuntimeWarning"]%string.

Definition name_in (name : string) (names : list string) : bool :=
  existsb (String.eqb name) names.

(** A name is defined at a point of a function when it is bound in the
    function's frame there, at module level, or built in. *)
Definition name_defined (frame : list string) (name : string) : bool :=
  name_in name frame || name_in name module_globals || name_in name builtins.

(** The object a name is bound to. *)
Inductive pyobj : Type := Bound (name : string).

(** Reading a name. *)
Definition load_name (frame : list string) (name : string) : M pyobj :=
  if name_defined frame name then ret (Bound name)
  else raise (NameError name).

(** *** build_linemodels *)

(** The frame of [build_linemodels] when the breakpoint of line 186 is
    reached: the arguments and the names assigned in lines 41-169. *)
Definition frame_at_breakpoint : list string :=
  ["linetable"; "redshift"; "wavelims"; "verbose"; "linenames";
   "param_names"; "_linenames"; "linename"; "param"; "param_name";
   "nparam"; "linemodel"; "iline"]%string.

(** The frame when the [return] of line 222 is reached: lines 190-203
    assign [neverfix], [inrange], [outofrange], [fixed] and the loop
    variables. *)
Definition frame_at_return : list string :=
  app ["fixed"; "outofrange"; "inrange"; "neverfix"; "line"; "I"]%string
      frame_at_breakpoint.

(** [build_linemodels(linetable, redshift, wavelims, verbose)].
    [tie_tables] is the outcome of lines 41-169, which build the parameter
    list and fill the tying tables of the line model; [select_fixed] that
    of lines 196-220, which need the value of [inrange]. *)
Definition build_linemodels (linenames : list string)
    (tie_tables : res unit) (select_fixed : pyobj -> res unit)
  : M (pyobj * pyobj * pyobj) :=
  (let param_names := build_param_names linenames in
   lift tie_tables ;;
   pdb_set_trace ;;
   let frame := ("neverfix" :: frame_at_breakpoint)%string in
   let* zline := load_name frame "zline" in
   let* wavelims := load_name frame "wavelims" in
   lift (select_fixed zline) ;;
   let* tied := load_name frame_at_return "tied" in
   let* tiedtoline := load_name frame_at_return "tiedtoline" in
   let* fixed := load_name frame_at_return "fixed" in
   ret (tied, tiedtoline, fixed))%py.

(** *** The line model objects *)

(** A parameter of the line model: its value and its [fixed] flag. *)
Record parameter : Type := mkParameter {
  value : Q;
  fixed : bool
}.

(** A fitted line model: the ordered parameter names, the parameters as
    attributes, the number of free parameters and the model spectrum on a
    wavelength array. *)
Record linemodel : Type := mkLinemodel {
  param_names : list string;
  attrs : gmap string parameter;
  count_free_parameters : Z;
  evaluate : list Q -> list Q
}.

Definition getattr (model : linemodel) (name : string) : res parameter :=
  match attrs model !! name with
  | Some p => Ok p
  | None => Raise (AttributeError name)
  end.

(** *** EMLineFit.chi2 *)

(** [chi2(bestfit, emlinewave, emlineflux, emlineivar, continuum_model,
    return_dof)]; the value is the chi-square, with the degrees of freedom
    when [return_dof] is set. *)
Definition chi2 (chi2_default : Q) (bestfit : linemodel)
    (emlinewave emlineflux emlineivar : list Q)
    (continuum_model : option (list Q)) (return_dof : bool)
  : option Q * option Z :=
  let nfree := count_free_parameters bestfit in
  let dof := (count_positive emlineivar - nfree)%Z in
  let chi2 :=
    if (dof >? 0)%Z then
      let emlinemodel := evaluate bestfit emlinewave in
      let model :=
        match continuum_model with
        | None => emlinemodel
        | Some c => zip_with Qplus emlinemodel c
        end in
      np_divide (weighted_rss emlineivar emlineflux model) dof
    else Some chi2_default in
  if return_dof then (chi2, Some dof) else (chi2, None).

(** *** EMLineFit.fit, lines 954-975: narrow-only or broad model *)

(** [v[pix]] for an index array [pix]. *)
Definition take (v : list Q) (pix : list nat) : res (list Q) :=
  mapM (py_index v) pix.

(** The chi-square per pixel within the broad-line windows. *)
Definition linechi2 (emlineivar emlineflux model : list Q)
    (broadlinepix : list nat) : res (option Q) :=
  res_bind (take emlineivar broadlinepix) (fun iv =>
  res_bind (take emlineflux broadlinepix) (fun fl =>
  res_bind (take model broadlinepix) (fun md =>
  Ok (np_divide (weighted_rss iv fl md)
        (Z.of_nat (length broadlinepix)))))).

(** [a > b] on floats that may be [nan]. *)
Definition np_greater (a b : option Q) : bool :=
  match a, b with
  | Some x, Some y => Qgtb x y
  | _, _ => false
  end.

(** [broad_balmer] holds the names of the broad Balmer lines,
    [linetable['name'][IB]].  The value is [bestfit] with the two local
    chi-squares. *)
Definition select_bestfit (initfit broadfit : linemodel)
    (broad_balmer : list string)
    (emlinewave emlineflux emlineivar : list Q) (broadlinepix : list nat)
  : M (linemodel * option Q * option Q) :=
  (let initmodel := evaluate initfit emlinewave in
   let broadmodel := evaluate broadfit emlinewave in
   let* linechi2_init :=
     lift (linechi2 emlineivar emlineflux initmodel broadlinepix) in
   let* linechi2_broad :=
     lift (linechi2 emlineivar emlineflux broadmodel broadlinepix) in
   log INFO "Chi2 with broad lines and without broad lines" ;;
   let* amps :=
     lift (mapM (fun linename =>
                   getattr broadfit (String.append linename "_amp"))
             broad_balmer) in
   let alldropped := forallb (fun amp => Qeqb (value amp) 0) amps in
   (if alldropped then
      log INFO "All broad lines have been dropped, using narrow-line only model."
    else ret tt) ;;
   if alldropped || np_greater linechi2_broad linechi2_init then
     ret (initfit, linechi2_init, linechi2_broad)
   else
     ret (broadfit, linechi2_init, linechi2_broad))%py.

(** *** EMLineFit.fit, lines 1020-1044: filling the output table *)

(** [val = pinfo.value], set to zero when the parameter was not
    optimized. *)
Definition reported_value (pinfo : parameter) : Q :=
  if fixed pinfo then 0 else value pinfo.

(** The [if / elif] chain on the three doublet-ratio parameters: the
    column of the ratio, the column of the dependent amplitude, and the
    partner amplitude the ratio multiplies. *)
Definition doublet_of (pp : string) : option (string * string * string) :=
  if String.eqb pp "oii_doublet_ratio" then
    Some ("OII_DOUBLET_RATIO", "OII_3726_AMP", "oii_3729_amp")%string
  else if String.eqb pp "sii_doublet_ratio" then
    Some ("SII_DOUBLET_RATIO", "SII_6731_AMP", "sii_6716_amp")%string
  else if String.eqb pp "mgii_doublet_ratio" then
    Some ("MGII_DOUBLET_RATIO", "MGII_2796_AMP", "mgii_2803_amp")%string
  else None.

Section OutputTable.

(** The product of two [float64] numbers, and the rounding of a value
    stored in a column of [dtype='f4']. *)
Variable fmul : Q -> Q -> Q.
Variable f4 : Q -> Q.

(** One round of the loop over [finalfit.param_names]; a parameter's
    [name] is the attribute name it is stored under.  Every column of the
    table that the loop writes is made by [init_output] with
    [dtype='f4']. *)
Definition fill_param (finalfit : linemodel) (result : gmap string Q)
    (pp : string) : res (gmap string Q) :=
  res_bind (getattr finalfit pp) (fun pinfo =>
  let val := reported_value pinfo in
  match doublet_of pp with
  | Some (ratio_column, amp_column, partner_amp) =>
      res_bind (getattr finalfit partner_amp) (fun partner =>
      Ok (<[amp_column := f4 (fmul val (value partner))]>
            (<[ratio_column := f4 val]> result)))
  | None => Ok (<[upper pp := f4 val]> result)
  end).

Fixpoint fill_table (finalfit : linemodel) (names : list string)
    (result : gmap string Q) : res (gmap string Q) :=
  match names with
  | [] => Ok result
  | pp :: names' =>
      res_bind (fill_param finalfit result pp) (fill_table finalfit names')
  end.

End OutputTable.

(** *** EMLineFit.fit *)

(** [fit(data, continuummodel, smooth_continuum, ...)].  [prepare] is the
    outcome of lines 744-772 (stacking the cameras, repairing the inverse
    variance); [guesses] stands for the call of
    [initial_guesses_and_bounds] and [rest] for lines 787-1375, which end
    in [return result, modelspectra]. *)
Definition fit {output : Type} (prepare : res unit)
    (linenames : list string) (tie_tables : res unit)
    (select_fixed : pyobj -> res unit)
    (guesses : M unit) (rest : pyobj * pyobj * pyobj -> M output)
  : M output :=
  (lift prepare ;;
   pdb_set_trace ;;
   let* linemodel := build_linemodels linenames tie_tables select_fixed in
   pdb_set_trace ;;
   guesses ;;
   rest linemodel)%py.

End EMLines.

(** ** fastspecfit.util and numpy, for running the model *)

Module Util.

Import Num Py.

Fixpoint argmin_from (best : nat) (bestv : Q) (i : nat) (v : list Q) : nat :=
  match v with
  | [] => best
  | q :: v' =>
      if Qltb q bestv then argmin_from i q (S i) v'
      else argmin_from best bestv (S i) v'
  end.

(** Modelled from the spec: [fastspecfit.util.find_minima] is not under
    src/.  The spec (4.3) has the grid search locate the index of the
    minimum of the chi-square curve; the value lists that index first. *)
Definition find_minima (chi2grid : list Q) : res (list Z) :=
  match chi2grid with
  | [] => Ok []
  | q :: v => Ok [Z.of_nat (argmin_from 0 q 1 v)]
  end.

(** Modelled from the spec: [fastspecfit.util.minfit] is not under src/.
    The spec (4.3) fits a parabola [a x^2 + b x + c] through the minimum
    and its two neighbours, takes the vertex as the best value and the
    curvature as its inverse variance ([1 / xerr^2 = a]); with fewer than
    three points the refinement is skipped, which the nonzero flag
    reports; a degenerate curvature makes the fit throw. *)
Definition minfit (np_sqrt : Q -> Q) (x y : list Q) : res (Q * Q * Q * Z) :=
  match x, y with
  | [x0; x1; x2], [y0; y1; y2] =>
      let d := (x0 - x1) * (x0 - x2) * (x1 - x2) in
      if Qeqb d 0 then Raise (ExternalError "singular matrix")
      else
        let a := (y0 * (x1 - x2) + y1 * (x2 - x0) + y2 * (x0 - x1)) / d in
        let b := (y0 * (x2 * x2 - x1 * x1) + y1 * (x0 * x0 - x2 * x2)
                  + y2 * (x1 * x1 - x0 * x0)) / d in
        let c := y0 - a * x0 * x0 - b * x0 in
        if Qleb a 0 then Raise (ExternalError "degenerate curvature")
        else Ok (Qred (- b / (2 * a)), Qred (1 / np_sqrt a),
                 Qred (c - b * b / (4 * a)), 0%Z)
  | _, _ => Ok (- (1), - (1), - (1), 1%Z)
  end.

(** A square root that is exact on squares of rationals. *)
Definition sqrt_floor (q : Q) : Q :=
  let r := Qred q in
  Z.sqrt (Qnum r) # Pos.sqrt (Qden r).

End Util.

(** ** The statements of the specification, as definitions *)

Module Stated.

Import Num Py.

(** 4.2, step 3: a re-estimated width is accepted only if its S/N exceeds
    the minimum of 1.5 and the width lies within [anchor, 5 x anchor]. *)
Definition linesigma_accepted (anchor : Q) (est : Q * Q) : Prop :=
  3 # 2 < snd est /\ anchor <= fst est /\ fst est <= 5 * anchor.

(** C1: the return statement of [build_linemodels] references the
    undefined names [tied], [tiedtoline] and [fixed]. *)
Definition return_names_undefined : Prop :=
  Forall (fun name => EMLines.name_defined EMLines.frame_at_return name = false)
    ["tied"; "tiedtoline"; "fixed"]%string.

(** 4.5, Decision: the broad model is accepted unless every broad-line
    amplitude is zero or the broad-state local chi-square is not better
    than the narrow-state one; "better" is "smaller". *)
Definition broad_accepted (alldropped : bool) (linechi2_init linechi2_broad : Q)
  : Prop :=
  ~ (alldropped = true \/ ~ linechi2_broad < linechi2_init).


(** The wavelength at which a camera of the object starts. *)
Definition first_wave (data : ContinuumFit.spectrum)
    (cam : ContinuumFit.camera) : Q :=
  match find (fun cw => ContinuumFit.camera_eqb (fst cw) cam)
          (combine (ContinuumFit.cameras data) (ContinuumFit.wave data)) with
  | Some (_, wave) => hd 0 wave
  | None => 0
  end.

(** A camera is one of the two reddest of the object when fewer than two
    of the object's cameras start at a longer wavelength. *)
Definition among_two_reddest (data : ContinuumFit.spectrum)
    (cam : ContinuumFit.camera) : bool :=
  (length (List.filter
             (fun other => Qltb (first_wave data cam) (first_wave data other))
             (ContinuumFit.cameras data)) <? 2)%nat.

(** 4.3, step (2): the velocity-dispersion search runs when the
    signal-to-noise in the two reddest cameras exceeds 3 and the redshift
    is below 1. *)
Definition compute_vdisp (data : ContinuumFit.spectrum)
    (snr_col : ContinuumFit.camera -> Q) : Prop :=
  (forall cam, In cam (ContinuumFit.cameras data) ->
               among_two_reddest data cam = true -> 3 < snr_col cam)
  /\ ContinuumFit.zredrock data < 1.

(** C8: when the minimum of the chi-square curve lies at either end of
    the grid, the call of [_fnnls_parallel] reports inverse variance 0 and
    logs a warning; [find_minima] and [minfit] are those of the spec. *)
Definition fallback_logs_warning : Prop :=
  forall np_sqrt interp_coeff xparam chi2grid coeffs interpolate_coeff
         w r w',
    ContinuumFit.refine_minimum Util.find_minima (Util.minfit np_sqrt)
      interp_coeff xparam chi2grid coeffs interpolate_coeff w = (r, w') ->
    match Util.find_minima chi2grid with
    | Ok (imin :: _) =>
        (imin = 0 \/ imin = Z.of_nat (length xparam) - 1)%Z
    | _ => False
    end ->
    (exists chi2min xbest bestcoeff, r = Ok (chi2min, xbest, 0, bestcoeff))
    /\ exists msg, logs w' = (WARNING, msg) :: logs w.

End Stated.

(** ** What the code tests, as propositions *)

Module Tested.

Import Num Py ContinuumTools.

(** The test [settle_linesigma] applies to an estimate. *)
Definition linesigma_accepted (floor init_linesigma : Q) (est : Q * Q) : Prop :=
  floor <= fst est /\ fst est <= 5 * init_linesigma
  /\ linesigma_snr_min <= snd est.

(** The estimate of a class before the final test: the first fit and the
    optional refit. *)
Definition class_estimate (wave : list Q)
    (build_stack : list Q -> Q -> option stack)
    (curve_fit : stack -> Q -> res (Q * Q * Q)) (refit : bool)
    (zlinewaves : list Q) (init_linesigma : Q) : res (Q * Q) :=
  res_bind (get_linesigma wave build_stack curve_fit zlinewaves init_linesigma)
    (refit_linesigma wave build_stack curve_fit refit zlinewaves
       init_linesigma).

(** [out] is what a class reports: its estimate when the test accepts it,
    the default width with S/N 0 otherwise. *)
Definition linesigma_settled (wave : list Q)
    (build_stack : list Q -> Q -> option stack)
    (curve_fit : stack -> Q -> res (Q * Q * Q)) (refit : bool)
    (zlinewaves : list Q) (init_linesigma floor : Q) (out : Q * Q) : Prop :=
  exists est,
    class_estimate wave build_stack curve_fit refit zlinewaves init_linesigma
      = Ok est
    /\ ((linesigma_accepted floor init_linesigma est /\ out = est)
        \/ (~ linesigma_accepted floor init_linesigma est
            /\ out = (init_linesigma, 0))).

(** The narrow-only model is kept when all broad Balmer amplitudes are
    zero or the local chi-square of the broad model is greater. *)
Definition narrow_kept (amps : list EMLines.parameter)
    (linechi2_init linechi2_broad : option Q) : Prop :=
  Forall (fun amp => EMLines.value amp == 0) amps
  \/ (exists ci cb, linechi2_init = Some ci /\ linechi2_broad = Some cb
                    /\ ci < cb).

(** What the [try] block of [_fnnls_parallel] evaluates. *)
Definition try_block (find_minima : list Q -> res (list Z))
    (minfit : list Q -> list Q -> res (Q * Q * Q * Z))
    (xparam chi2grid : list Q) : res (Z * Q * Q * Q * Z) :=
  res_bind (find_minima chi2grid) (fun mins =>
  res_bind (py_index mins 0) (fun imin =>
  res_bind (minfit (py_slice xparam (imin - 1) (imin + 2))
                   (py_slice chi2grid (imin - 1) (imin + 2))) (fun fit =>
  let '(xbest, xerr, chi2min, warn) := fit in
  Ok (imin, xbest, xerr, chi2min, warn)))).

(** A minimisation that raised, or returned with a nonzero flag. *)
Definition fit_failed {A} (r : res (A * Z)) : Prop :=
  match r with
  | Ok (_, warn) => warn <> 0%Z
  | Raise _ => True
  | Hang => False
  end.

(** The log after the [try] block: the warning of the [except] branch is
    added exactly when the block raised. *)
Definition world_after {A} (r : res A) (w : world) : world :=
  match r with
  | Raise _ =>
      mkWorld ((WARNING, ContinuumFit.msg_minimize) :: logs w) (stdin_dbg w)
  | _ => w
  end.

(** The test of line 1900 on the two bluest cameras. *)
Definition compute_vdisp (snr_col : ContinuumFit.camera -> Q) (redshift : Q)
  : Prop :=
  3 < snr_col ContinuumFit.cam_b /\ 3 < snr_col ContinuumFit.cam_r
  /\ redshift < 1.


End Tested.

(** ** Concrete objects, for running the model *)

Module Examples.

Import Num Py.

(** A stack of twenty pixels whose continuum scatters by 0.5, and a fit
    of amplitude 1 and width 100 km/s to it. *)
Definition wide_stack (zlinewaves : list Q) (init_linesigma : Q)
  : option ContinuumTools.stack :=
  Some (ContinuumTools.mkStack 20 (1 # 2)).

Definition fit_100 (st : ContinuumTools.stack) (init_linesigma : Q)
  : res (Q * Q * Q) :=
  Ok (1, 100, 0).

(** The two ends of a spectrum that covers the forbidden and the Balmer
    lines at redshift 0. *)
Definition optical_wave : list Q := [3600; 9800].

(** Two line models that differ on the spectrum but fit three pixels of
    unit flux equally well. *)
Definition flat_model (level : Q) (nfree : Z) : EMLines.linemodel :=
  EMLines.mkLinemodel ["halpha_broad_amp"%string]
    (<["halpha_broad_amp"%string := EMLines.mkParameter level false]> ∅)
    nfree (fun wave => map (fun _ => level) wave).

Definition ivar101 : list Q := [1; 0; 1].

Definition initfit0 : EMLines.linemodel := flat_model 0 2.
Definition broadfit2 : EMLines.linemodel := flat_model 2 5.

(** A fitted model of the three doublets, every parameter at the
    [float64] nearest to 0.7. *)
Definition doublet_lines : list string :=
  ["oii_3726"; "oii_3729"; "sii_6716"; "sii_6731"; "mgii_2796";
   "mgii_2803"]%string.

Definition doublet_fit : EMLines.linemodel :=
  EMLines.mkLinemodel (EMLines.build_param_names doublet_lines)
    (list_to_map
       (map (fun name => (name, EMLines.mkParameter (Float.double (7 # 10))
                                  false))
          (EMLines.build_param_names doublet_lines)))
    18 (fun wave => map (fun _ => 0) wave).


(** Six pixels in three cameras and two templates. *)
Definition templates : list (list Q) :=
  [[1; 0]; [0; 1]; [1; 1]; [1; 2]; [2; 1]; [1; 0]].

Definition pixel_flux : list Q := [2; 2; 3; 5; 4; 0].

Definition unit_ivar : list Q := [1; 1; 1; 1; 1; 1].

Definition solver : list (list Q) -> list Q -> res (list Q) :=
  Fnnls.fnnls_call Fnnls.Exact.lstsq 20.

(** An object with three cameras of two pixels each, unit inverse
    variance, no masked pixel, and a low S/N in the blue camera only. *)
Definition object1 : ContinuumFit.spectrum :=
  ContinuumFit.mkSpectrum (1 # 2)
    [ContinuumFit.cam_b; ContinuumFit.cam_r; ContinuumFit.cam_z]
    [[3600; 3601]; [6000; 6001]; [8000; 8001]]
    [[2; 2]; [3; 5]; [4; 0]]
    [[1; 1]; [1; 1]; [1; 1]]
    [[false; false]; [false; false]; [false; false]]
    [1; 5; 5]
    [1; 2; 3] [0; 0; 0].

Definition av_grid : list Q := [0; 1 # 2; 1].
Definition vdisp_grid : list Q := [75; 150; 225].

(** Templates dimmed by the attenuation. *)
Definition dimmed (a : Q) : list (list Q) :=
  map (map (fun t => Qred (t * (1 - a / 2)))) templates.

Definition specfit_run : res ContinuumFit.spec_output * world :=
  ContinuumFit.continuum_specfit Util.sqrt_floor solver Util.find_minima
    (Util.minfit Util.sqrt_floor) (fun _ _ coeffs => hd [] coeffs)
    av_grid vdisp_grid 0 150 false 2
    (fun _ => Ok (map dimmed av_grid)) (fun _ a _ => Ok (dimmed a))
    (fun _ _ _ => Ok tt) object1 (mkWorld [] []).

Definition specfit_output : ContinuumFit.spec_output :=
  match fst specfit_run with
  | Ok out => out
  | _ => ContinuumFit.mkSpecOutput 0 [] None 0 0 0 0 (fun _ => 0)
  end.

Definition specfit_world : world := snd specfit_run.

(** The same object with a high S/N in the blue and in the red camera
    and a low one in the reddest. *)
Definition object2 : ContinuumFit.spectrum :=
  ContinuumFit.mkSpectrum (1 # 2)
    [ContinuumFit.cam_b; ContinuumFit.cam_r; ContinuumFit.cam_z]
    [[3600; 3601]; [6000; 6001]; [8000; 8001]]
    [[2; 2]; [3; 5]; [4; 0]]
    [[1; 1]; [1; 1]; [1; 1]]
    [[false; false]; [false; false]; [false; false]]
    [5; 5; 1]
    [1; 2; 3] [0; 0; 0].

Definition specfit_run2 : res ContinuumFit.spec_output * world :=
  ContinuumFit.continuum_specfit Util.sqrt_floor solver Util.find_minima
    (Util.minfit Util.sqrt_floor) (fun _ _ coeffs => hd [] coeffs)
    av_grid vdisp_grid 0 150 false 2
    (fun _ => Ok (map dimmed av_grid)) (fun _ a _ => Ok (dimmed a))
    (fun _ _ _ => Ok tt) object2 (mkWorld [] []).

Definition specfit_output2 : ContinuumFit.spec_output :=
  match fst specfit_run2 with
  | Ok out => out
  | _ => ContinuumFit.mkSpecOutput 0 [] None 0 0 0 0 (fun _ => 0)
  end.

Definition specfit_world2 : world := snd specfit_run2.

(** A chi-square curve that rises from its first point. *)
Definition rising_chi2 : list Q := [1; 2; 3].

End Examples.


(** ** mpi.py: sharing the work among the nodes *)

From Stdlib Require Import Qround.
From stdpp Require Import sorting.

Local Open Scope Q_scope.

Module Mpi.

Import Num Py.

(** [np.argmin] of a one-dimensional array: the first index of the
    smallest entry; an empty array is refused. *)
Definition argmin (v : list Q) : res nat :=
  match v with
  | [] => Raise (ValueError "attempt to get argmin of an empty sequence")
  | q :: v' => Ok (Util.argmin_from 0 q 1 v')
  end.

Section WeightedPartition.

(** The sum of two [float64] numbers, rounded. *)
Variable fadd : Q -> Q -> Q.

(** [np.argsort]: the indices that sort an array.  The default sort is not
    stable, so the order among equal entries is left open. *)
Variable argsort : list Q -> list nat.

(** One round of the loop of [weighted_partition]: index [i] joins the
    group whose weights sum to the least so far, and
    [sumweights[j] += weights[i]] adds its weight to that sum. *)
Definition place (weights : list Q) (st : list (list nat) * list Q)
    (i : nat) : res (list (list nat) * list Q) :=
  let '(groups, sumweights) := st in
  res_bind (argmin sumweights) (fun j =>
  res_bind (py_index weights i) (fun wi =>
  Ok (alter (fun g => g ++ [i]) j groups,
      alter (fun s => fadd s wi) j sumweights))).

Fixpoint place_all (weights : list Q) (st : list (list nat) * list Q)
    (order : list nat) : res (list (list nat) * list Q) :=
  match order with
  | [] => Ok st
  | i :: order' =>
      res_bind (place weights st i) (fun st' => place_all weights st' order')
  end.

(** [weighted_partition(weights, n)]; the value is
    [(groups, groupweights)]. *)
Definition weighted_partition (weights : list Q) (n : Z)
  : res (list (list nat) * list Q) :=
  if (n <? 0)%Z then Raise (ValueError "negative dimensions are not allowed")
  else
    let sumweights := repeat 0 (Z.to_nat n) in
    let groups := repeat ([] : list nat) (Z.to_nat n) in
    res_bind (place_all weights (groups, sumweights)
                (argsort (map Qopp weights))) (fun st =>
    Ok (fst st, snd st)).

(** [ntargets[ii]] for a list [ii] of indices. *)
Definition take_counts (ntargets : list nat) (ii : list nat) : res (list nat) :=
  mapM (py_index ntargets) ii.

(** [runtimes = 30 + 0.4*ntargets] *)
Definition runtimes (ntargets : list nat) : list Q :=
  map (fun nt => 30 + (2 # 5) * inject_Z (Z.of_nat nt)) ntargets.

(** [group_redrockfiles] without an MPI communicator, from the number of
    targets of every file (lines 92-103): the expected run time of a file
    is 30 s plus 0.4 s per target, and the nodes are as many as 25 minutes
    each take, but no more than [maxnodes].  The value is
    [(groups, ntargets, grouptimes)]. *)
Definition group_redrockfiles (ntargets : list nat) (maxnodes : Z)
  : res (list (list nat) * list nat * list Q) :=
  let runtimes := runtimes ntargets in
  let ntime := 25 in
  let numnodes := Z.min maxnodes (Qceiling (Qsum runtimes / (ntime * 60))) in
  res_bind (weighted_partition runtimes numnodes) (fun gw =>
  let '(groups, grouptimes) := gw in
  res_bind (mapM (fun ii => res_bind (take_counts ntargets ii)
                              (fun c => Ok (list_sum c))) groups)
    (fun pergroup => Ok (groups, pergroup, grouptimes))).

End WeightedPartition.

(** A sort for running the model: insertion by increasing value, which
    keeps equal entries in the order of the array. *)
Fixpoint insert_by_value (x : Q * nat) (l : list (Q * nat)) : list (Q * nat) :=
  match l with
  | [] => [x]
  | y :: l' => if Qleb (fst x) (fst y) then x :: l else y :: insert_by_value x l'
  end.

Definition insertion_argsort (v : list Q) : list nat :=
  map snd (fold_right insert_by_value [] (combine v (seq 0 (length v)))).

End Mpi.

(** ** Stacking the cameras and unpacking them again *)

Module Cameras.

Import Num Py.

(** [np.hstack(arrays)]: an empty sequence of arrays is refused. *)
Definition np_hstack {A} (arrays : list (list A)) : res (list A) :=
  match arrays with
  | [] => Raise (ValueError "need at least one array to concatenate")
  | _ => Ok (concat arrays)
  end.

(** [npixpercam = np.hstack([0, npixpercamera])] *)
Definition npixpercam (npixpercamera : list nat) : list nat :=
  0%nat :: npixpercamera.

(** continuum.py, lines 2066-2073, and emlines.py, lines 529-534: the
    stacked array [v] cut into one piece per camera,
    [v[np.sum(npixpercam[:icam+1]):np.sum(npixpercam[:icam+2])]]. *)
Definition unpack_cameras {A} (npixpercamera : list nat) (ncam : nat)
    (v : list A) : list (list A) :=
  map (fun icam =>
         let ipix := list_sum (firstn (icam + 1) (npixpercam npixpercamera)) in
         let jpix := list_sum (firstn (icam + 2) (npixpercam npixpercamera)) in
         py_slice v (Z.of_nat ipix) (Z.of_nat jpix))
    (seq 0 ncam).

(** *** emlines.py, lines 913-923: the pixels of the broad Balmer lines *)

Definition is_broad_test_line (linename : string) : bool :=
  String.eqb linename "halpha_broad"
  || String.eqb linename "hbeta_broad"
  || String.eqb linename "hgamma_broad".

(** The inner loop over [zip(data['linename'][icam], data['linepix'][icam])]:
    the pixels of a line are shifted by the camera's offset in the stacked
    arrays. *)
Fixpoint camera_broadlinepix (pixoffset : nat) (linename : list string)
    (linepix : list (list nat)) : list (list nat) :=
  match linename, linepix with
  | name :: linename', pix :: linepix' =>
      if is_broad_test_line name
      then map (fun p => (p + pixoffset)%nat) pix
             :: camera_broadlinepix pixoffset linename' linepix'
      else camera_broadlinepix pixoffset linename' linepix'
  | _, _ => []
  end.

(** The loop over the cameras; [pixoffset] is
    [int(np.sum(data['npixpercamera'][:icam]))]. *)
Definition collect_broadlinepix (ncam : nat) (npixpercamera : list nat)
    (linename : list (list string)) (linepix : list (list (list nat)))
  : res (list (list nat)) :=
  res_bind
    (mapM (fun icam =>
             let pixoffset := list_sum (firstn icam npixpercamera) in
             res_bind (py_index linename icam) (fun names =>
             res_bind (py_index linepix icam) (fun pix =>
             Ok (camera_broadlinepix pixoffset names pix))))
       (seq 0 ncam))
    (fun percam => Ok (concat percam)).

(** The test of line 922 and the stacking of line 923.  The value is the
    stacked pixels when the broad-line fit is to be tried, and [None] when
    it is skipped. *)
Definition stack_broadlinepix (broadlinefit : bool)
    (broadlinepix : list (list nat)) : res (option (list nat)) :=
  res_bind
    (if broadlinefit then Ok true
     else if (0 <? length broadlinepix)%nat then
       res_bind (np_hstack broadlinepix) (fun stacked =>
       Ok (10 <? length stacked)%nat)
     else Ok false)
    (fun try_broad =>
       if try_broad then
         res_bind (np_hstack broadlinepix) (fun stacked => Ok (Some stacked))
       else Ok None).

Definition broad_stage (broadlinefit : bool) (ncam : nat)
    (npixpercamera : list nat) (linename : list (list string))
    (linepix : list (list (list nat))) : res (option (list nat)) :=
  res_bind (collect_broadlinepix ncam npixpercamera linename linepix)
    (stack_broadlinepix broadlinefit).

End Cameras.

(** ** emlines.py: the output table and the initial guesses *)

Module EMLinesTable.

Import Num Py EMLines.

(** *** EMLineFit.init_output *)

(** An astropy table of one row, as the ordered list of its columns with
    the value each holds. *)
Definition table : Type := list (string * Q).

(** [out.add_column(Column(name=..., ...))]: a name the table has already
    is refused. *)
Definition add_column (out : table) (col : string * Q) : res table :=
  if existsb (String.eqb (fst col)) (map fst out)
  then Raise (ValueError "Duplicate column names")
  else Ok (out ++ [col]).

Fixpoint add_columns (out : table) (cols : list (string * Q)) : res table :=
  match cols with
  | [] => Ok out
  | col :: cols' => res_bind (add_column out col) (fun out' =>
                    add_columns out' cols')
  end.

(** The columns [init_output] adds for a line, behind the upper-cased name
    of the line; [_CHI2] starts at [chi2_default]. *)
Definition line_columns (chi2_default : Q) : list (string * Q) :=
  [("_AMP", 0); ("_AMP_IVAR", 0); ("_FLUX", 0); ("_FLUX_IVAR", 0);
   ("_BOXFLUX", 0); ("_BOXFLUX_IVAR", 0); ("_VSHIFT", 0); ("_SIGMA", 0);
   ("_CONT", 0); ("_CONT_IVAR", 0); ("_EW", 0); ("_EW_IVAR", 0);
   ("_FLUX_LIMIT", 0); ("_EW_LIMIT", 0); ("_CHI2", chi2_default);
   ("_NPIX", 0)]%string.

(** The columns that do not depend on the line list. *)
Definition fit_columns : list (string * Q) :=
  [("RCHI2", 0); ("LINERCHI2_BROAD", 0); ("DELTA_LINERCHI2", 0);
   ("NARROW_Z", 0); ("BROAD_Z", 0); ("UV_Z", 0);
   ("NARROW_SIGMA", 0); ("BROAD_SIGMA", 0); ("UV_SIGMA", 0);
   ("MGII_DOUBLET_RATIO", 0); ("OII_DOUBLET_RATIO", 0);
   ("SII_DOUBLET_RATIO", 0)]%string.

Definition column_specs (chi2_default : Q) (synth_bands : list string)
    (linenames : list string) : list (string * Q) :=
  map (fun band => (String.append "FLUX_SYNTH_" (upper band), 0)) synth_bands
  ++ map (fun band => (String.append "FLUX_SYNTH_MODEL_" (upper band), 0))
       synth_bands
  ++ fit_columns
  ++ flat_map (fun line =>
                 map (fun col => (String.append (upper line) (fst col), snd col))
                   (line_columns chi2_default))
       linenames.

(** [init_output(linetable, nobj=1)] *)
Definition init_output (chi2_default : Q) (synth_bands : list string)
    (linenames : list string) : res table :=
  add_columns [] (column_specs chi2_default synth_bands linenames).

(** The table as the mapping [result[name]] reads and writes. *)
Definition columns (out : table) : gmap string Q := list_to_map out.

(** *** initial_guesses_and_bounds *)

(** The names bound in the frame of [initial_guesses_and_bounds]: the
    arguments and the names assigned in lines 230-234. *)
Definition frame_of_guesses : list string :=
  ["data"; "emlinewave"; "emlineflux"; "init_amplitudes"; "init_sigmas";
   "coadd_emlineflux"; "linename"; "linepix"]%string.

(** A [for] loop whose body may raise. *)
Fixpoint for_each {A} (body : A -> M unit) (l : list A) : M unit :=
  match l with
  | [] => ret tt
  | a :: l' => (body a ;; for_each body l')%py
  end.

(** The module-level function [initial_guesses_and_bounds(data,
    emlinewave, emlineflux)].  [np_interp] is the outcome of line 232 and
    [coadd_lines] that of the [zip] of line 234; [amplitude_guess] stands
    for lines 236-270 and [sigma_guesses] for lines 276-304, which read
    the object that the name [self] is bound to. *)
Definition initial_guesses_and_bounds (np_interp : res unit)
    (coadd_lines : res (list (string * list nat)))
    (amplitude_guess : pyobj -> string -> list nat -> M unit)
    (sigma_guesses : pyobj -> M unit) : M unit :=
  (lift np_interp ;;
   let* lines := lift coadd_lines in
   for_each (fun line =>
               let* self := load_name frame_of_guesses "self" in
               amplitude_guess self (fst line) (snd line))
     lines ;;
   let* self := load_name frame_of_guesses "self" in
   sigma_guesses self)%py.

End EMLinesTable.

(** ** More concrete objects, for running the model *)

Module Cases.

Import Num Py.

(** The output table for the three doublets and the bands g, r and z, and
    the table after the fitted model of the doublets is written to it. *)
Definition output_table : EMLinesTable.table :=
  match EMLinesTable.init_output 0 ["g"; "r"; "z"]%string
          Examples.doublet_lines with
  | Ok out => out
  | _ => []
  end.

Definition filled_table : gmap string Q :=
  match EMLines.fill_table Float.mul Float.single Examples.doublet_fit
          (EMLines.build_param_names Examples.doublet_lines)
          (EMLinesTable.columns output_table) with
  | Ok result => result
  | _ => ∅
  end.

End Cases.

(** ** continuum.py: ContinuumTools.build_linemask *)

(** The table of emission lines, [self.linetable]: one row per line. *)
Module LineTable.

Record line : Type := mkLine {
  name : string;
  restwave : Q;
  amp : Q;
  isbroad : bool;
  isbalmer : bool
}.

(** [sub in s] *)
Fixpoint contains (sub s : string) : bool :=
  String.prefix sub s
  || match s with
     | EmptyString => false
     | String _ s' => contains sub s'
     end.

End LineTable.

Module LineMask.

Import Num Py ContinuumTools LineTable.

(** [np.sum(mask)] for a boolean array. *)
Definition count_true (mask : list bool) : nat :=
  length (List.filter id mask).

(** [mask[I] = True] *)
Definition set_true (mask I : list bool) : list bool := zip_with orb mask I.

(** A line as the loops of [build_linemask] see it:
    [(_linename, zlinewave, lineamp, isbroad, isbalmer)]. *)
Record maskline : Type := mkMaskline {
  ml_name : string;
  ml_zwave : Q;
  ml_amp : Q;
  ml_isbroad : bool;
  ml_isbalmer : bool
}.

(** The dictionary [build_linemask] returns.  The six keys
    [linesigma_narrow] ... [linesigma_uv_snr] are there when [linesigmas]
    is; the value is [(linesigma_narrow, linesigma_balmer, linesigma_uv,
    linesigma_narrow_snr, linesigma_balmer_snr, linesigma_uv_snr)]. *)
Record linemask_dict : Type := mkLinemaskDict {
  linemask_all : list bool;
  linemask : list bool;
  linename : list string;
  linepix : list (list bool);
  contpix : list (list bool);
  linesigmas : option (Q * Q * Q * Q * Q * Q)
}.

(** [linemask_dict[key]] for one of the six keys of the line widths. *)
Definition get_linesigmas (d : linemask_dict) (key : string)
  : res (Q * Q * Q * Q * Q * Q) :=
  match linesigmas d with
  | Some s => Ok s
  | None => Raise (KeyError key)
  end.

Section BuildLinemask.

(** [fastspecfit.util.C_LIGHT], the speed of light in km/s. *)
Variable C_LIGHT : Q.

Variable linetable : list line.

(** The arithmetic of [float64]: the rounded sum, difference, product and
    quotient. *)
Variables fadd fsub fmul fdiv : Q -> Q -> Q.

(** [self.smooth_continuum(wave, flux, ivar, redshift, maskkms_uv,
    maskkms_balmer, maskkms_narrow)]; the value is
    [(smooth, smoothsigma)]. *)
Variable smooth_continuum :
  list Q -> list Q -> list Q -> Q -> Q -> Q -> Q -> res (list Q * list Q).

(** The stack of pixels around the lines of a class that are in range,
    built from [wave], the flux and [ivar] (lines 730-763), and scipy's
    [curve_fit]. *)
Variable build_stack :
  list Q -> list Q -> list Q -> list Q -> Q -> option ContinuumTools.stack.
Variable curve_fit : ContinuumTools.stack -> Q -> res (Q * Q * Q).

(** [np.percentile(a, q)] *)
Variable percentile : list Q -> Q -> Q.

(** Lines 952-956: Lyman-alpha in front of the lines of the table, at
    [restwave * (1 + redshift)]; a line counts as broad when it is broad
    and not a Balmer line, and as Balmer when it is a Balmer line and not
    broad. *)
Definition masklines (redshift : Q) : list maskline :=
  mkMaskline "Lya" (fmul 1215 (fadd 1 redshift)) 1 true false
  :: map (fun l => mkMaskline (name l) (fmul (restwave l) (fadd 1 redshift))
                     (amp l)
                     (isbroad l && negb (isbalmer l))
                     (isbalmer l && negb (isbroad l)))
       linetable.

(** The width in km/s that masks a line. *)
Definition linesigma_of (sig : Q * Q * Q) (l : maskline) : Q :=
  let '(linesigma_narrow, linesigma_balmer, linesigma_uv) := sig in
  if ml_isbroad l then linesigma_uv
  else if ml_isbalmer l || contains "broad" (ml_name l) then linesigma_balmer
  else linesigma_narrow.

(** [(wave >= lo) * (wave <= hi)] *)
Definition within (wave : list Q) (lo hi : Q) : list bool :=
  map (fun w => Qgeb w lo && Qleb w hi) wave.

(** [(wave > lo) * (wave < hi)] *)
Definition strictly_within (wave : list Q) (lo hi : Q) : list bool :=
  map (fun w => Qgtb w lo && Qltb w hi) wave.

(** [(wave >= (zlinewave - nsig*sigma)) * (wave <= (zlinewave + nsig*sigma))] *)
Definition window (wave : list Q) (nsig sigma zlinewave : Q) : list bool :=
  within wave (fsub zlinewave (fmul nsig sigma))
    (fadd zlinewave (fmul nsig sigma)).

(** The width of a line in Angstrom as the first loop has it, line 980:
    [sigma = linesigma * zlinewave / C_LIGHT]. *)
Definition sigma_mask (linesigma zlinewave : Q) : Q :=
  fdiv (fmul linesigma zlinewave) C_LIGHT.

(** The width as the second loop has it, line 1037:
    [sigma *= zlinewave / C_LIGHT]. *)
Definition sigma_list (linesigma zlinewave : Q) : Q :=
  fmul linesigma (fdiv zlinewave C_LIGHT).

(** The pixels of a line in the first loop: within [nsig] widths of its
    centre. *)
Definition line_window (wave : list Q) (nsig : Q) (sig : Q * Q * Q)
    (l : maskline) : list bool :=
  window wave nsig (sigma_mask (linesigma_of sig l) (ml_zwave l)) (ml_zwave l).

(** The pixels of a line in the second loop. *)
Definition line_pixels (wave : list Q) (nsig : Q) (sig : Q * Q * Q)
    (l : maskline) : list bool :=
  window wave nsig (sigma_list (linesigma_of sig l) (ml_zwave l)) (ml_zwave l).

Definition snr_strong : Q := 3.

(** Lines 994-1014: is the line strong?  The test is on the S/N of the
    unmasked pixels within one width of the centre, the width taken
    between 100 and 500 km/s. *)
Definition is_strong (wave flux ivar smooth smoothsigma : list Q)
    (sig : Q * Q * Q) (l : maskline) : bool :=
  let linesigma := linesigma_of sig l in
  let linesigma_strong :=
    if Qgtb linesigma 500 then 500
    else if Qltb linesigma 100 then 100
    else linesigma in
  let sigma_strong := fdiv (fmul linesigma_strong (ml_zwave l)) C_LIGHT in
  let J := zip_with andb
             (zip_with andb (map (fun iv => Qgtb iv 0) ivar)
                (map (fun s => Qgtb s 0) smoothsigma))
             (within wave (fsub (ml_zwave l) sigma_strong)
                (fadd (ml_zwave l) sigma_strong)) in
  if (0 <? count_true J)%nat then
    let resid := zip_with fdiv (zip_with fsub flux smooth) smoothsigma in
    let snr := map fst (List.filter snd (combine resid J)) in
    if (5 <? length snr)%nat then
      Qgtb (percentile snr 98) snr_strong
      && (5 <? length (List.filter (fun s => Qgtb s snr_strong) snr))%nat
    else forallb (fun s => Qgtb s snr_strong) snr
  else false.

(** One round of the first loop (lines 970-1014) on
    [(linemask, linemask_strong)]. *)
Definition mark_line (wave flux ivar smooth smoothsigma : list Q) (nsig : Q)
    (sig : Q * Q * Q) (masks : list bool * list bool) (l : maskline)
  : list bool * list bool :=
  let '(linemask, linemask_strong) := masks in
  let I := line_window wave nsig sig l in
  if (0 <? count_true I)%nat then
    (set_true linemask I,
     if is_strong wave flux ivar smooth smoothsigma sig l
     then set_true linemask_strong I else linemask_strong)
  else masks.

(** The pixels of the local continuum of a line, between [nsig] and
    [k * nsig] widths on either side ([k*nsig*sigma] is
    [(k*nsig)*sigma]); [avoid] holds the pixels that are not to be
    used. *)
Definition continuum_window (wave : list Q) (nsig k : Q) (sig : Q * Q * Q)
    (avoid : list bool) (l : maskline) : list bool :=
  let sigma := sigma_list (linesigma_of sig l) (ml_zwave l) in
  let zw := ml_zwave l in
  let Jblu := zip_with andb
                (strictly_within wave (fsub zw (fmul (fmul k nsig) sigma))
                   (fsub zw (fmul nsig sigma)))
                (map negb avoid) in
  let Jred := zip_with andb
                (map (fun w => Qltb w (fadd zw (fmul (fmul k nsig) sigma))
                               && Qgtb w (fadd zw (fmul nsig sigma))) wave)
                (map negb avoid) in
  zip_with orb Jblu Jred.

(** Lines 1030-1053: the continuum pixels, looked for further out and
    then among the pixels of strong lines when fewer than ten are
    found. *)
Definition continuum_pixels (wave : list Q) (nsig : Q) (sig : Q * Q * Q)
    (linemask_strong : list bool) (l : maskline) : list bool :=
  let J := continuum_window wave nsig 2 sig linemask_strong l in
  let J := if (count_true J <? 10)%nat
           then continuum_window wave nsig 3 sig linemask_strong l else J in
  if (count_true J <? 10)%nat
  then continuum_window wave nsig 2 sig (map (fun _ => false) wave) l
  else J.

(** One round of the second loop (lines 1026-1059) on
    [(linename, linepix, contpix)]. *)
Definition list_line (wave : list Q) (nsig : Q) (sig : Q * Q * Q)
    (linemask_strong : list bool)
    (acc : list string * list (list bool) * list (list bool)) (l : maskline)
  : list string * list (list bool) * list (list bool) :=
  let '(linename, linepix, contpix) := acc in
  let I := line_pixels wave nsig sig l in
  let J := continuum_pixels wave nsig sig linemask_strong l in
  if (0 <? count_true I)%nat && (0 <? count_true J)%nat
  then (linename ++ [ml_name l], linepix ++ [I], contpix ++ [J])
  else acc.

(** [build_linemask(wave, flux, ivar, redshift, nsig)] *)
Definition build_linemask (wave flux ivar : list Q) (redshift nsig : Q)
  : res linemask_dict :=
  res_bind (smooth_continuum wave flux ivar redshift 5000 5000 500)
    (fun sm =>
  let '(smooth, smoothsigma) := sm in
  res_bind (ContinuumTools.estimate_linesigmas wave
              (build_stack wave (zip_with fsub flux smooth) ivar)
              curve_fit redshift true) (fun ls =>
  let '(linesigma_narrow, linesigma_balmer, linesigma_uv,
        linesigma_narrow_snr, linesigma_balmer_snr, linesigma_uv_snr) := ls in
  let sig := (linesigma_narrow, linesigma_balmer, linesigma_uv) in
  let linemask := map (fun _ => false) wave in
  let linemask_strong := map (fun _ => false) linemask in
  res_bind (np_min wave) (fun minwave =>
  res_bind (np_max wave) (fun maxwave =>
  let inrange :=
    List.filter (fun l => Qgtb (ml_zwave l) minwave && Qltb (ml_zwave l) maxwave)
      (masklines redshift) in
  if (0 <? length inrange)%nat then
    let '(linemask, linemask_strong) :=
      fold_left (mark_line wave flux ivar smooth smoothsigma nsig sig)
        inrange (linemask, linemask_strong) in
    let '(linename, linepix, contpix) :=
      fold_left (list_line wave nsig sig linemask_strong) inrange ([], [], []) in
    Ok (mkLinemaskDict linemask linemask_strong linename linepix contpix
          (Some ls))
  else
    Ok (mkLinemaskDict [] [] [] [] [] None))))).

End BuildLinemask.

End LineMask.

(** ** A spectrum around [OIII] 5007, for running [build_linemask] *)

Module MaskCases.

Import Num Py ContinuumTools LineTable LineMask.

Definition C_LIGHT : Q := Float.double (299792458 # 1000).

Definition linetable : list line :=
  [mkLine "oiii_5007" (Float.double (5008239 # 1000)) 1 false false].

(** A continuum of zero with unit scatter. *)
Definition flat_continuum (wave flux ivar : list Q)
    (redshift maskkms_uv maskkms_balmer maskkms_narrow : Q)
  : res (list Q * list Q) :=
  Ok (map (fun _ => 0) wave, map (fun _ => 1) wave).

(** No line has enough significant pixels to be stacked. *)
Definition no_stack (wave flux ivar zlinewaves : list Q) (init_linesigma : Q)
  : option ContinuumTools.stack := None.

Definition no_fit (st : ContinuumTools.stack) (init_linesigma : Q)
  : res (Q * Q * Q) := Raise RuntimeError.

(** The largest entry, in place of a high percentile of a short array. *)
Definition largest (a : list Q) (q : Q) : Q :=
  fold_right (fun x m => if Qltb m x then x else m) 0 a.

(** Seven pixels with a line of three pixels at 5008 A. *)
Definition wave : list Q := [4980; 4990; 5000; 5008; 5016; 5030; 5040].
Definition flux : list Q := [1; 1; 5; 9; 5; 1; 1].
Definition ivar : list Q := [1; 1; 1; 1; 1; 1; 1].

Definition oiii_dict : linemask_dict :=
  match build_linemask C_LIGHT linetable Float.add Float.sub Float.mul
          Float.div flat_continuum no_stack no_fit
          largest wave flux ivar 0 5 with
  | Ok d => d
  | _ => mkLinemaskDict [] [] [] [] [] None
  end.

(** Two pixels blueward of every line of the table, and redward of
    Lyman-alpha. *)
Definition blue_wave : list Q := [3600; 3601].

Definition blue_dict : linemask_dict :=
  match build_linemask C_LIGHT linetable Float.add Float.sub Float.mul
          Float.div flat_continuum no_stack no_fit
          largest blue_wave [1; 1] [1; 1] 0 5 with
  | Ok d => d
  | _ => mkLinemaskDict [] [] [] [] [] (Some (0, 0, 0, 0, 0, 0))
  end.

End MaskCases.

(** ** An object with one band of photometry, for running
    [continuum_fastphot] *)

Module PhotCases.

Import Num Py ContinuumFit.

(** Three bands and two templates. *)
Definition band_templates : list (list Q) := [[1; 0]; [0; 1]; [1; 1]].

(** The templates in the units of the photometry, dimmed by the
    attenuation. *)
Definition dimmed_bands (a : Q) : list (list Q) :=
  map (map (fun t => Qred (t * (1 - a / 2) / (fluxnorm * massnorm))))
    band_templates.

(** The object of [Examples.object1] with a flux in every band and an
    inverse variance in the first band only. *)
Definition one_band : spectrum :=
  mkSpectrum (1 # 2) [cam_b; cam_r; cam_z]
    [[3600; 3601]; [6000; 6001]; [8000; 8001]]
    [[2; 2]; [3; 5]; [4; 0]]
    [[1; 1]; [1; 1]; [1; 1]]
    [[false; false]; [false; false]; [false; false]]
    [1; 5; 5]
    [3 / fluxnorm; 2 / fluxnorm; 3 / fluxnorm]
    [fluxnorm * fluxnorm; 0; 0].

Definition one_band_run : res phot_output * world :=
  continuum_fastphot Util.sqrt_floor Examples.solver Util.find_minima
    (Util.minfit Util.sqrt_floor) (fun _ _ coeffs => hd [] coeffs)
    Examples.av_grid 0 2 [1; 1; 1]
    (fun _ => Ok (map dimmed_bands Examples.av_grid))
    (fun _ a => Ok (Examples.dimmed a, dimmed_bands a))
    (fun _ _ _ => Ok 1) one_band (mkWorld [] []).

Definition one_band_output : phot_output :=
  match fst one_band_run with
  | Ok out => out
  | _ => mkPhotOutput [] (Some 0) 0 0 0
  end.

Definition one_band_world : world := snd one_band_run.

End PhotCases.
(** * Properties *)

Module NumFacts.

Import Num.

Lemma Qltb_lt (x y : Q) : Qltb x y = true <-> x < y.
Proof.
  unfold Qltb. rewrite negb_true_iff. split.
  - intros H. apply Qnot_le_lt. intros Hle.
    apply Qle_bool_iff in Hle. congruence.
  - intros H. destruct (Qle_bool y x) eqn:E; [|reflexivity].
    apply Qle_bool_iff in E. exfalso. apply (Qlt_not_le _ _ H E).
Qed.

Lemma Qltb_ge (x y : Q) : Qltb x y = false <-> y <= x.
Proof.
  unfold Qltb. rewrite negb_false_iff. apply Qle_bool_iff.
Qed.

Lemma Qgtb_gt (x y : Q) : Qgtb x y = true <-> y < x.
Proof. apply Qltb_lt. Qed.

Lemma Qgtb_le (x y : Q) : Qgtb x y = false <-> x <= y.
Proof. apply Qltb_ge. Qed.

Lemma count_positive_nonneg (v : list Q) : (0 <= count_positive v)%Z.
Proof. unfold count_positive. lia. Qed.


End NumFacts.

(** ** The monad *)

Module PyFacts.

Import Py.

Lemma bind_inv {A B} (m : M A) (k : A -> M B) (w w' : world) (b : B) :
  bind m k w = (Ok b, w') ->
  exists a w1, m w = (Ok a, w1) /\ k a w1 = (Ok b, w').
Proof.
  unfold bind. destruct (m w) as [[a| |] w1]; try discriminate.
  intros H. exists a, w1. split; [reflexivity|exact H].
Qed.

Lemma lift_inv {A} (r : res A) (w w' : world) (a : A) :
  lift r w = (Ok a, w') -> r = Ok a /\ w' = w.
Proof. unfold lift. intros H. inversion H. split; reflexivity. Qed.

Lemma ret_inv {A} (a b : A) (w w' : world) :
  ret a w = (Ok b, w') -> b = a /\ w' = w.
Proof. unfold ret. intros H. inversion H. split; reflexivity. Qed.

Lemma log_inv (lv : level) (msg : string) (w w' : world) (u : unit) :
  log lv msg w = (Ok u, w') ->
  w' = mkWorld ((lv, msg) :: logs w) (stdin_dbg w).
Proof. unfold log. intros H. inversion H. reflexivity. Qed.

Lemma raise_inv {A} (e : exn) (w w' : world) (a : A) :
  raise e w = (Ok a, w') -> False.
Proof. unfold raise. discriminate. Qed.

Lemma res_bind_inv {A B} (r : res A) (k : A -> res B) (b : B) :
  res_bind r k = Ok b -> exists a, r = Ok a /\ k a = Ok b.
Proof.
  destruct r as [a| |]; cbn [res_bind]; try discriminate.
  intros H. exists a. split; [reflexivity|exact H].
Qed.

End PyFacts.


(** ** estimate_linesigmas *)

Module ContinuumToolsFacts.

Import Num NumFacts Py ContinuumTools.

Lemma settle_linesigma_cases (floor init_linesigma : Q) (est : Q * Q) :
  (Tested.linesigma_accepted floor init_linesigma est
   /\ settle_linesigma floor init_linesigma est = est)
  \/ (~ Tested.linesigma_accepted floor init_linesigma est
      /\ settle_linesigma floor init_linesigma est = (init_linesigma, 0)).
Proof.
  destruct est as [linesigma snr].
  unfold settle_linesigma, Tested.linesigma_accepted. simpl.
  destruct (Qltb linesigma floor) eqn:E1.
  { right. split; [|reflexivity]. apply Qltb_lt in E1.
    intros [H _]. apply (Qlt_not_le _ _ E1 H). }
  destruct (Qgtb linesigma (5 * init_linesigma)) eqn:E2.
  { right. split; [|reflexivity]. apply Qgtb_gt in E2.
    intros [_ [H _]]. apply (Qlt_not_le _ _ E2 H). }
  destruct (Qltb snr linesigma_snr_min) eqn:E3.
  { right. split; [|reflexivity]. apply Qltb_lt in E3.
    intros [_ [_ H]]. apply (Qlt_not_le _ _ E3 H). }
  left. apply Qltb_ge in E1, E3. apply Qgtb_le in E2. simpl. auto.
Qed.

Lemma class_linesigma_settled wave build_stack curve_fit refit zlinewaves
    (init_linesigma floor : Q) (out : Q * Q) :
  class_linesigma wave build_stack curve_fit refit zlinewaves init_linesigma
    floor = Ok out ->
  Tested.linesigma_settled wave build_stack curve_fit refit zlinewaves
    init_linesigma floor out.
Proof.
  unfold class_linesigma, Tested.linesigma_settled, Tested.class_estimate.
  destruct (get_linesigma wave build_stack curve_fit zlinewaves
              init_linesigma) as [first| |]; simpl; try discriminate.
  destruct (refit_linesigma wave build_stack curve_fit refit zlinewaves
              init_linesigma first) as [est| |]; simpl; try discriminate.
  intros [= <-]. exists est. split; [reflexivity|].
  apply settle_linesigma_cases.
Qed.

(** C10 (as the code has it).  Each tying class reports either its
    re-estimated width and S/N, and then the S/N is at least 1.5 and the
    width lies between the floor of the class (50 km/s for the forbidden
    and the Balmer lines, 300 km/s for the UV lines) and five times the
    initial width (200, 1000 and 2000 km/s), or the initial width with
    S/N 0, and then the estimate failed that test. *)
Theorem estimate_linesigmas_settled :
  forall wave build_stack curve_fit redshift refit
         narrow balmer uv narrow_snr balmer_snr uv_snr,
    estimate_linesigmas wave build_stack curve_fit redshift refit
      = Ok (narrow, balmer, uv, narrow_snr, balmer_snr, uv_snr) ->
    Tested.linesigma_settled wave build_stack curve_fit refit
      (redshifted restwaves_narrow redshift) 200 50 (narrow, narrow_snr)
    /\ Tested.linesigma_settled wave build_stack curve_fit refit
         (redshifted restwaves_balmer redshift) 1000 50 (balmer, balmer_snr)
    /\ Tested.linesigma_settled wave build_stack curve_fit refit
         (redshifted restwaves_uv redshift) 2000 300 (uv, uv_snr).
Proof.
  intros wave build_stack curve_fit redshift refit
         narrow balmer uv narrow_snr balmer_snr uv_snr.
  unfold estimate_linesigmas.
  destruct (class_linesigma wave build_stack curve_fit refit
              (redshifted restwaves_narrow redshift) init_linesigma_narrow 50)
    as [[n ns]| |] eqn:En; cbn [res_bind fst snd]; try discriminate.
  destruct (class_linesigma wave build_stack curve_fit refit
              (redshifted restwaves_balmer redshift) init_linesigma_balmer 50)
    as [[b bs]| |] eqn:Eb; cbn [res_bind fst snd]; try discriminate.
  destruct (class_linesigma wave build_stack curve_fit refit
              (redshifted restwaves_uv redshift) init_linesigma_uv 300)
    as [[u us]| |] eqn:Eu; cbn [res_bind fst snd]; try discriminate.
  intros H. inversion H; subst; clear H.
  split; [|split]; apply class_linesigma_settled; assumption.
Qed.

Lemma estimate_linesigmas_settled_witness :
  estimate_linesigmas Examples.optical_wave Examples.wide_stack
      Examples.fit_100 0 true
    = Ok (100, 100, 2000, 2, 2, 0)
  /\ Tested.linesigma_settled Examples.optical_wave Examples.wide_stack
         Examples.fit_100 true
       (redshifted restwaves_narrow 0) 200 50 (100, 2).
Proof.
  split; [reflexivity|].
  apply (estimate_linesigmas_settled Examples.optical_wave
           Examples.wide_stack Examples.fit_100
           0 true 100 100 2000 2 2 0).
  reflexivity.
Defined.

(** C10 as stated fails: a width of 100 km/s with S/N 2 is below the
    anchor of 200 km/s of the forbidden lines and is reported all the
    same. *)
Lemma estimate_linesigmas_below_anchor :
  ~ (forall wave build_stack curve_fit redshift refit
            narrow balmer uv narrow_snr balmer_snr uv_snr,
        estimate_linesigmas wave build_stack curve_fit redshift refit
          = Ok (narrow, balmer, uv, narrow_snr, balmer_snr, uv_snr) ->
        Stated.linesigma_accepted init_linesigma_narrow (narrow, narrow_snr)
        \/ (narrow == init_linesigma_narrow /\ narrow_snr == 0)).
Proof.
  intros H.
  specialize (H Examples.optical_wave Examples.wide_stack Examples.fit_100
                0 true
                100 100 2000 2 2 0 eq_refl).
  destruct H as [[_ [H _]] | [H _]].
  - revert H. unfold init_linesigma_narrow, Qle. simpl. lia.
  - revert H. unfold init_linesigma_narrow, Qeq. simpl. lia.
Qed.

End ContinuumToolsFacts.

(** ** The NNLS solver and its wrappers *)

Module FnnlsFacts.

Import Num NumFacts Py PyFacts LinAlg Fnnls.

Lemma epsilon_pos : 0 < epsilon.
Proof. reflexivity. Qed.

(** When no passive entry of [s] is at or below the tolerance, [s] has no
    negative entry: the passive ones are positive and the others zero. *)
Lemma scatter_nonneg (sets : list bool) :
  forall sol,
    existsb (fun v => Qleb v epsilon) (select sets (scatter sets sol)) = false ->
    Forall (fun c => 0 <= c) (scatter sets sol).
Proof.
  induction sets as [|b sets IH]; intros sol H; cbn [scatter].
  - constructor.
  - destruct b; cbn [scatter select existsb] in *.
    + apply orb_false_iff in H. destruct H as [Hh Ht].
      constructor; [|exact (IH _ Ht)].
      unfold Qleb in Hh. apply Qlt_le_weak.
      apply Qlt_trans with epsilon; [exact epsilon_pos|].
      apply Qnot_le_lt. intros Hle. apply Qle_bool_iff in Hle. congruence.
    + constructor; [apply Qle_refl|exact (IH _ H)].
Qed.

Lemma inner_loop_nonneg lstsq AtA Aty (fuel : nat) :
  forall sets x s i sets2 x2 s2 i2,
    (exists sol, s = scatter sets sol) ->
    inner_loop lstsq AtA Aty fuel sets x s i = Some (sets2, x2, s2, i2) ->
    Forall (fun c => 0 <= c) s2.
Proof.
  induction fuel as [|fuel IH]; intros sets x s i sets2 x2 s2 i2 [sol ->] H;
    cbn [inner_loop] in H;
    destruct (existsb (fun v => Qleb v epsilon)
                (select sets (scatter sets sol))) eqn:E;
    try discriminate.
  - inversion H; subst. apply scatter_nonneg. exact E.
  - eapply IH; [|exact H]. unfold solve_passive. eauto.
  - inversion H; subst. apply scatter_nonneg. exact E.
Qed.

Lemma main_loop_nonneg lstsq AtA Aty (fuel : nat) :
  forall iter_max sets x w i x',
    Forall (fun c => 0 <= c) x ->
    main_loop lstsq AtA Aty fuel iter_max sets x w i = Some x' ->
    Forall (fun c => 0 <= c) x'.
Proof.
  induction fuel as [|fuel IH]; intros iter_max sets x w i x' Hx H;
    cbn [main_loop] in H;
    destruct (argmax_active sets w 0 None) as [[m wm]|];
    try (inversion H; subst; exact Hx);
    destruct (Qgtb wm epsilon && (i <? iter_max)%nat);
    try (inversion H; subst; exact Hx); try discriminate.
  destruct (inner_loop lstsq AtA Aty fuel (<[m:=true]> sets) x
              (solve_passive lstsq AtA Aty (<[m:=true]> sets)) i)
    as [[[[sets2 x2] s2] i2]|] eqn:Ei; [|discriminate].
  eapply IH; [|exact H].
  eapply inner_loop_nonneg; [|exact Ei]. unfold solve_passive. eauto.
Qed.

Lemma repeat_zero_nonneg (n : nat) : Forall (fun c => 0 <= c) (repeat 0 n).
Proof. induction n; cbn [repeat]; constructor; [apply Qle_refl|assumption]. Qed.

(** Whatever the linear solver does, a call of [fnnls] that returns gives
    coefficients without a negative entry. *)
Lemma fnnls_nonneg lstsq fuel AtA Aty x :
  fnnls lstsq fuel AtA Aty = Some x -> Forall (fun c => 0 <= c) x.
Proof.
  unfold fnnls. apply main_loop_nonneg. apply repeat_zero_nonneg.
Qed.

Lemma fnnls_call_nonneg lstsq fuel AtA Aty x :
  fnnls_call lstsq fuel AtA Aty = Ok x -> Forall (fun c => 0 <= c) x.
Proof.
  unfold fnnls_call, of_option.
  destruct (fnnls lstsq fuel AtA Aty) as [y|] eqn:E; [|discriminate].
  intros H. inversion H; subst. exact (fnnls_nonneg _ _ _ _ _ E).
Qed.

End FnnlsFacts.

(** ** emlines.py *)

Module EMLinesFacts.

Import Num NumFacts Py PyFacts LinAlg EMLines.

(** *** chi2 *)

Lemma np_divide_finite (a : Q) (n : Z) : (n <> 0)%Z -> np_divide a n = Some (a / inject_Z n).
Proof.
  intros H. unfold np_divide. destruct (Z.eqb_spec n 0); [contradiction|reflexivity].
Qed.

(** C4.  The degrees of freedom are the number of pixels of positive
    inverse variance minus the number of free parameters; when they are
    not positive the chi-square is the default value; and the chi-square
    is never the quotient by zero. *)
Theorem chi2_dof_guard :
  forall chi2_default bestfit emlinewave emlineflux emlineivar
         continuum_model return_dof,
    let dof := (count_positive emlineivar
                - count_free_parameters bestfit)%Z in
    snd (chi2 chi2_default bestfit emlinewave emlineflux emlineivar
           continuum_model true) = Some dof
    /\ ((dof <= 0)%Z ->
        fst (chi2 chi2_default bestfit emlinewave emlineflux emlineivar
               continuum_model return_dof) = Some chi2_default)
    /\ fst (chi2 chi2_default bestfit emlinewave emlineflux emlineivar
              continuum_model return_dof) <> None.
Proof.
  intros chi2_default bestfit emlinewave emlineflux emlineivar
         continuum_model return_dof dof.
  unfold chi2. fold dof.
  split; [reflexivity|]. split.
  - intros Hdof. destruct (Z.gtb_spec dof 0) as [Hpos|_]; [lia|].
    destruct return_dof; reflexivity.
  - destruct (Z.gtb_spec dof 0) as [Hpos|_].
    + rewrite np_divide_finite by lia. destruct return_dof; discriminate.
    + destruct return_dof; discriminate.
Qed.

Lemma chi2_dof_guard_witness :
  (count_positive Examples.ivar101
   - count_free_parameters Examples.broadfit2 <= 0)%Z
  /\ fst (chi2 0 Examples.broadfit2 [1; 2; 3] [1; 1; 1] Examples.ivar101 None
            false)
     = Some 0.
Proof.
  split; [vm_compute; discriminate|].
  apply (chi2_dof_guard 0 Examples.broadfit2 [1; 2; 3] [1; 1; 1]
           Examples.ivar101 None false).
  vm_compute. discriminate.
Defined.

(** *** The choice between the narrow-only and the broad model *)

Lemma forallb_amps_zero (amps : list parameter) :
  forallb (fun amp => Qeqb (value amp) 0) amps = true
  <-> Forall (fun amp => value amp == 0) amps.
Proof.
  induction amps as [|amp amps IH]; cbn [forallb].
  - split; [constructor|reflexivity].
  - rewrite andb_true_iff, IH. unfold Qeqb. rewrite Qeq_bool_iff.
    split.
    + intros [H1 H2]. constructor; assumption.
    + intros H. inversion H; subst. split; assumption.
Qed.

Lemma np_greater_true (a b : option Q) :
  np_greater a b = true
  <-> exists x y, b = Some x /\ a = Some y /\ x < y.
Proof.
  unfold np_greater. split.
  - destruct a as [y|], b as [x|]; try discriminate.
    intros H. apply Qgtb_gt in H. eauto.
  - intros (x & y & -> & -> & H). apply Qgtb_gt. exact H.
Qed.

(** C3 (as the code has it).  After the broad-line stage the narrow-only
    fit is kept exactly when all broad Balmer amplitudes are zero or the
    chi-square within the broad-line windows of the broad fit is greater
    than that of the narrow-only fit; otherwise, and so also when the two
    are equal, the broad fit is taken. *)
Theorem select_bestfit_decision :
  forall initfit broadfit broad_balmer emlinewave emlineflux emlineivar
         broadlinepix w bestfit linechi2_init linechi2_broad w',
    select_bestfit initfit broadfit broad_balmer emlinewave emlineflux
      emlineivar broadlinepix w
      = (Ok (bestfit, linechi2_init, linechi2_broad), w') ->
    exists amps,
      mapM (fun linename => getattr broadfit (String.append linename "_amp"))
        broad_balmer = Ok amps
      /\ linechi2 emlineivar emlineflux (evaluate initfit emlinewave)
           broadlinepix = Ok linechi2_init
      /\ linechi2 emlineivar emlineflux (evaluate broadfit emlinewave)
           broadlinepix = Ok linechi2_broad
      /\ ((Tested.narrow_kept amps linechi2_init linechi2_broad
           /\ bestfit = initfit)
          \/ (~ Tested.narrow_kept amps linechi2_init linechi2_broad
              /\ bestfit = broadfit)).
Proof.
  intros initfit broadfit broad_balmer emlinewave emlineflux emlineivar
         broadlinepix w bestfit linechi2_init linechi2_broad w' H.
  unfold select_bestfit in H.
  apply bind_inv in H. destruct H as (ci & w1 & Hci & H).
  apply lift_inv in Hci. destruct Hci as [Hci ->].
  apply bind_inv in H. destruct H as (cb & w2 & Hcb & H).
  apply lift_inv in Hcb. destruct Hcb as [Hcb ->].
  apply bind_inv in H. destruct H as (u1 & w3 & _ & H).
  apply bind_inv in H. destruct H as (amps & w4 & Hamps & H).
  apply lift_inv in Hamps. destruct Hamps as [Hamps ->].
  apply bind_inv in H. destruct H as (u2 & w5 & _ & H).
  exists amps.
  destruct (forallb (fun amp => Qeqb (value amp) 0) amps
            || np_greater cb ci) eqn:E;
    apply ret_inv in H; destruct H as [H _]; inversion H; subst; clear H;
    (split; [exact Hamps|split; [exact Hci|split; [exact Hcb|]]]).
  - left. split; [|reflexivity]. unfold Tested.narrow_kept.
    apply orb_true_iff in E. destruct E as [E|E].
    + left. apply forallb_amps_zero. exact E.
    + right. apply np_greater_true in E. exact E.
  - right. split; [|reflexivity]. unfold Tested.narrow_kept.
    apply orb_false_iff in E. destruct E as [E1 E2]. intros [Hz|Hg].
    + apply forallb_amps_zero in Hz. congruence.
    + apply np_greater_true in Hg. congruence.
Qed.

Lemma select_bestfit_decision_witness :
  exists amps,
    mapM (fun linename =>
            getattr Examples.broadfit2 (String.append linename "_amp"))
      ["halpha_broad"%string] = Ok amps
    /\ linechi2 [1; 1; 1] [1; 1; 1]
         (evaluate Examples.initfit0 [1; 2; 3]) [0; 1; 2]%nat = Ok (Some (3 # 3))
    /\ linechi2 [1; 1; 1] [1; 1; 1]
         (evaluate Examples.broadfit2 [1; 2; 3]) [0; 1; 2]%nat = Ok (Some (3 # 3))
    /\ ((Tested.narrow_kept amps (Some (3 # 3)) (Some (3 # 3))
         /\ Examples.broadfit2 = Examples.initfit0)
        \/ (~ Tested.narrow_kept amps (Some (3 # 3)) (Some (3 # 3))
            /\ Examples.broadfit2 = Examples.broadfit2)).
Proof.
  apply (select_bestfit_decision Examples.initfit0 Examples.broadfit2
           ["halpha_broad"%string] [1; 2; 3] [1; 1; 1] [1; 1; 1]
           [0; 1; 2]%nat (mkWorld [] [])
           Examples.broadfit2 (Some (3 # 3)) (Some (3 # 3))
           (mkWorld [(INFO, "Chi2 with broad lines and without broad lines"%string)] [])).
  vm_compute. reflexivity.
Defined.

(** C3 as stated fails when the two local chi-squares are equal: the
    broad fit is not better, and it is taken all the same. *)
Lemma select_bestfit_tie_takes_broad :
  ~ (forall initfit broadfit broad_balmer emlinewave emlineflux emlineivar
            broadlinepix w bestfit ci cb w' amps,
        select_bestfit initfit broadfit broad_balmer emlinewave emlineflux
          emlineivar broadlinepix w = (Ok (bestfit, Some ci, Some cb), w') ->
        mapM (fun linename =>
                getattr broadfit (String.append linename "_amp"))
          broad_balmer = Ok amps ->
        (Stated.broad_accepted
           (forallb (fun amp => Qeqb (value amp) 0) amps) ci cb
         <-> bestfit = broadfit)
        /\ (~ Stated.broad_accepted
                (forallb (fun amp => Qeqb (value amp) 0) amps) ci cb
            <-> bestfit = initfit)).
Proof.
  intros H.
  specialize (H Examples.initfit0 Examples.broadfit2 ["halpha_broad"%string]
                [1; 2; 3] [1; 1; 1] [1; 1; 1] [0; 1; 2]%nat (mkWorld [] [])
                Examples.broadfit2 (3 # 3) (3 # 3)
                (mkWorld [(INFO, "Chi2 with broad lines and without broad lines"%string)] [])
                [mkParameter 2 false]).
  destruct H as [[_ H] _]; [vm_compute; reflexivity|vm_compute; reflexivity|].
  specialize (H eq_refl). apply H. right.
  unfold Qlt. simpl. lia.
Qed.

(** *** The parameter names *)




Lemma doublet_param_name_cases (x : string) :
  (doublet_param_name x = x
   /\ x <> "mgii_2796_amp"%string /\ x <> "oii_3726_amp"%string
   /\ x <> "sii_6731_amp"%string)
  \/ (x = "mgii_2796_amp"%string
      /\ doublet_param_name x = "mgii_doublet_ratio"%string)
  \/ (x = "oii_3726_amp"%string
      /\ doublet_param_name x = "oii_doublet_ratio"%string)
  \/ (x = "sii_6731_amp"%string
      /\ doublet_param_name x = "sii_doublet_ratio"%string).
Proof.
  unfold doublet_param_name.
  destruct (String.eqb_spec x "mgii_2796_amp") as [->|H1];
    [right; left; split; reflexivity|].
  destruct (String.eqb_spec x "oii_3726_amp") as [->|H2];
    [right; right; left; split; reflexivity|].
  destruct (String.eqb_spec x "sii_6731_amp") as [->|H3];
    [right; right; right; split; reflexivity|].
  left. auto.
Qed.

Lemma in_build_param_names (pp : string) (linenames : list string) :
  In pp (build_param_names linenames) <->
  exists linename param,
    In linename linenames /\ In param line_params
    /\ pp = doublet_param_name
              (String.append linename (String.append "_" param)).
Proof.
  unfold build_param_names. rewrite in_flat_map. split.
  - intros (linename & Hl & Hp). apply in_map_iff in Hp.
    destruct Hp as (param & <- & Hp). eauto.
  - intros (linename & param & Hl & Hp & ->). exists linename.
    split; [exact Hl|]. apply in_map_iff. eauto.
Qed.



(** *** Filling the output table *)

Section OutputTable.

Variable fmul : Q -> Q -> Q.
Variable f4 : Q -> Q.

Lemma fill_param_inv (ff : linemodel) (r r' : gmap string Q) (pp : string) :
  fill_param fmul f4 ff r pp = Ok r' ->
  exists pinfo,
    getattr ff pp = Ok pinfo
    /\ match doublet_of pp with
       | Some (rc, dc, pa) =>
           exists partner,
             getattr ff pa = Ok partner
             /\ r' = <[dc := f4 (fmul (reported_value pinfo) (value partner))]>
                       (<[rc := f4 (reported_value pinfo)]> r)
       | None => r' = <[upper pp := f4 (reported_value pinfo)]> r
       end.
Proof.
  unfold fill_param. intros H.
  apply res_bind_inv in H. destruct H as (pinfo & Hp & H).
  exists pinfo. split; [exact Hp|].
  destruct (doublet_of pp) as [[[rc dc] pa]|].
  - apply res_bind_inv in H. destruct H as (partner & Hpa & H).
    exists partner. split; [exact Hpa|]. congruence.
  - congruence.
Qed.

Lemma doublet_of_cases (pp : string) :
  (pp = "oii_doublet_ratio"%string
   /\ doublet_of pp
      = Some ("OII_DOUBLET_RATIO", "OII_3726_AMP", "oii_3729_amp")%string)
  \/ (pp = "sii_doublet_ratio"%string
      /\ doublet_of pp
         = Some ("SII_DOUBLET_RATIO", "SII_6731_AMP", "sii_6716_amp")%string)
  \/ (pp = "mgii_doublet_ratio"%string
      /\ doublet_of pp
         = Some ("MGII_DOUBLET_RATIO", "MGII_2796_AMP", "mgii_2803_amp")%string)
  \/ (doublet_of pp = None
      /\ pp <> "oii_doublet_ratio"%string
      /\ pp <> "sii_doublet_ratio"%string
      /\ pp <> "mgii_doublet_ratio"%string).
Proof.
  unfold doublet_of.
  destruct (String.eqb_spec pp "oii_doublet_ratio") as [->|H1];
    [left; split; reflexivity|].
  destruct (String.eqb_spec pp "sii_doublet_ratio") as [->|H2];
    [right; left; split; reflexivity|].
  destruct (String.eqb_spec pp "mgii_doublet_ratio") as [->|H3];
    [right; right; left; split; reflexivity|].
  right. right. right. auto.
Qed.







End OutputTable.



(** *** build_linemodels and fit *)

Lemma load_name_undefined (frame : list string) (name : string) (w : world) :
  name_defined frame name = false ->
  load_name frame name w = (Raise (NameError name), w).
Proof. intros H. unfold load_name. rewrite H. reflexivity. Qed.

Lemma zline_undefined :
  name_defined ("neverfix"%string :: frame_at_breakpoint) "zline" = false.
Proof. vm_compute. reflexivity. Qed.

(** [build_linemodels] never returns: it raises or hangs before line 195,
    or raises [NameError] there. *)
Lemma build_linemodels_never_returns linenames tie_tables select_fixed w out :
  fst (build_linemodels linenames tie_tables select_fixed w) <> Ok out.
Proof.
  unfold build_linemodels, bind, lift.
  destruct tie_tables as [[]| |]; cbn [fst]; try discriminate.
  unfold pdb_set_trace.
  destruct (stdin_dbg w) as [|[] cmds]; cbn [fst]; discriminate.
Qed.

(** C1 (as the code has it).  [fit] never returns normally, whatever the
    input and whatever is answered at the debugger prompts.  When the code
    before the breakpoints succeeds and both prompts are answered with
    "continue", the call ends in [NameError] for [zline], which is read at
    line 195 and bound nowhere.  Of the names in the return statement of
    [build_linemodels], [tied] and [tiedtoline] are bound nowhere either,
    while [fixed] is assigned at line 198. *)
Theorem fit_never_returns :
  forall (output : Type) prepare linenames tie_tables select_fixed guesses
         (rest : pyobj * pyobj * pyobj -> M output) w,
    (forall out,
        fst (fit prepare linenames tie_tables select_fixed guesses rest w)
        <> Ok out)
    /\ (forall lg cmds,
          fit (Ok tt) linenames (Ok tt) select_fixed guesses rest
            (mkWorld lg (DbgContinue :: DbgContinue :: cmds))
          = (Raise (NameError "zline"), mkWorld lg cmds))
    /\ name_defined ("neverfix"%string :: frame_at_breakpoint) "zline" = false
    /\ name_defined frame_at_return "tied" = false
    /\ name_defined frame_at_return "tiedtoline" = false
    /\ name_defined frame_at_return "fixed" = true.
Proof.
  intros output prepare linenames tie_tables select_fixed guesses rest w.
  split; [|split; [|repeat split; vm_compute; reflexivity]].
  - intros out. unfold fit.
    unfold bind at 1. unfold lift at 1.
    destruct prepare as [[]| |]; cbn [fst]; try discriminate.
    unfold bind at 1. unfold pdb_set_trace at 1.
    destruct (stdin_dbg w) as [|[] cmds]; cbn [fst]; try discriminate.
    unfold bind at 1.
    pose proof (build_linemodels_never_returns linenames tie_tables
                  select_fixed (mkWorld (logs w) cmds)) as Hb.
    destruct (build_linemodels linenames tie_tables select_fixed
                (mkWorld (logs w) cmds)) as [[lm| |] w1];
      cbn [fst] in *; try discriminate.
    exfalso. exact (Hb lm eq_refl).
  - intros lg cmds. unfold fit, build_linemodels, bind, lift, pdb_set_trace.
    cbn [stdin_dbg logs].
    rewrite load_name_undefined by exact zline_undefined.
    reflexivity.
Qed.

(** C1 as stated fails in one detail: [fixed] is bound when the return
    statement is reached. *)
Lemma return_reads_bound_fixed : ~ Stated.return_names_undefined.
Proof.
  unfold Stated.return_names_undefined. intros H.
  inversion H as [|? ? _ H1]; subst.
  inversion H1 as [|? ? _ H2]; subst.
  inversion H2 as [|? ? H3 _]; subst.
  vm_compute in H3. discriminate.
Qed.

End EMLinesFacts.

(** ** continuum.py: the fits *)

Module ContinuumFitFacts.

Import Num NumFacts Py PyFacts LinAlg ContinuumFit.

(** *** fnnls_continuum and the wrappers *)

Lemma mapM_inv {A B} (f : A -> res B) (l : list A) :
  forall bs,
    mapM f l = Ok bs ->
    length bs = length l
    /\ Forall (fun b => exists a, In a l /\ f a = Ok b) bs.
Proof.
  induction l as [|a l IH]; intros bs H; cbn [mapM] in H.
  - inversion H; subst. split; [reflexivity|constructor].
  - apply res_bind_inv in H. destruct H as (b & Hb & H).
    apply res_bind_inv in H. destruct H as (bs' & Hbs & H).
    inversion H; subst. destruct (IH bs' Hbs) as [Hlen Hall].
    split; [cbn [length]; congruence|].
    constructor.
    + exists a. split; [left; reflexivity|exact Hb].
    + eapply Forall_impl; [exact Hall|].
      intros b' (a' & Hin & Hf). exists a'. split; [right; exact Hin|exact Hf].
Qed.

Lemma fnnls_continuum_inv fnnls ZZ xx flux ivar modelflux warn coeff chi2 :
  fnnls_continuum fnnls ZZ xx flux ivar modelflux true = Ok (warn, coeff, chi2) ->
  fnnls (gram ZZ ZZ) (matvec (transpose ZZ) xx) = Ok coeff
  /\ warn = false
  /\ chi2 = Some (weighted_rss ivar flux (matvec modelflux coeff)).
Proof.
  unfold fnnls_continuum. intros H.
  apply res_bind_inv in H. destruct H as (c & Hc & H).
  inversion H; subst. auto.
Qed.

Lemma fnnls_parallel_coeff_inv np_sqrt fnnls modelflux flux ivar w coeff chi2 w' :
  _fnnls_parallel_coeff np_sqrt fnnls modelflux flux ivar w
    = (Ok (coeff, chi2), w') ->
  w' = w
  /\ fnnls (gram (scale_rows modelflux (map np_sqrt ivar))
                 (scale_rows modelflux (map np_sqrt ivar)))
           (matvec (transpose (scale_rows modelflux (map np_sqrt ivar)))
                   (zip_with Qmult flux (map np_sqrt ivar))) = Ok coeff
  /\ chi2 = weighted_rss ivar flux (matvec modelflux coeff).
Proof.
  unfold _fnnls_parallel_coeff. intros H.
  apply bind_inv in H. destruct H as ([[warn c] o] & w1 & Hrr & H).
  apply lift_inv in Hrr. destruct Hrr as [Hrr ->].
  apply fnnls_continuum_inv in Hrr. destruct Hrr as (Hc & -> & ->).
  apply ret_inv in H. destruct H as [H ->]. inversion H; subst. auto.
Qed.

Lemma solve_grid_inv np_sqrt fnnls modelflux flux ivar xparam w coeffs chi2grid w' :
  solve_grid np_sqrt fnnls modelflux flux ivar xparam w
    = (Ok (coeffs, chi2grid), w') ->
  w' = w
  /\ length coeffs = length xparam
  /\ length chi2grid = length xparam
  /\ Forall (fun coeff => exists AtA Aty, fnnls AtA Aty = Ok coeff) coeffs.
Proof.
  unfold solve_grid. intros H.
  apply bind_inv in H. destruct H as (slices & w1 & Hs & H).
  apply lift_inv in Hs. destruct Hs as [Hs ->].
  apply bind_inv in H. destruct H as (rr & w2 & Hrr & H).
  apply lift_inv in Hrr. destruct Hrr as [Hrr ->].
  apply mapM_inv in Hs. destruct Hs as [Hlen_s _].
  apply mapM_inv in Hrr. destruct Hrr as [Hlen_rr Hall].
  rewrite length_seq in Hlen_s.
  assert (Hwarn : existsb id (map (fun t => fst (fst t)) rr) = false).
  { clear -Hall. induction Hall as [|t rr (mf & _ & Ht) _ IH]; [reflexivity|].
    destruct t as [[wn c] o]. apply fnnls_continuum_inv in Ht.
    destruct Ht as (_ & -> & _). cbn. exact IH. }
  rewrite Hwarn in H.
  apply bind_inv in H. destruct H as (u & w3 & Hu & H).
  apply ret_inv in Hu. destruct Hu as [_ ->].
  apply ret_inv in H. destruct H as [H ->]. inversion H; subst.
  split; [reflexivity|]. rewrite !length_map.
  split; [congruence|]. split; [congruence|].
  clear -Hall. induction Hall as [|t rr (mf & _ & Ht) _ IH];
    cbn [map]; constructor; [|exact IH].
  destruct t as [[wn c] o]. apply fnnls_continuum_inv in Ht.
  destruct Ht as (Hc & _ & _). cbn. eauto.
Qed.

(** C2.  With the active-set solver, the coefficients [fnnls_continuum]
    returns have no negative entry; so have those of the final solve and
    those at every trial value of a grid. *)
Theorem fnnls_continuum_nonneg :
  forall np_sqrt lstsq fuel,
    (forall ZZ xx flux ivar modelflux get_chi2 warn coeff chi2,
        fnnls_continuum (Fnnls.fnnls_call lstsq fuel) ZZ xx flux ivar
          modelflux get_chi2 = Ok (warn, coeff, chi2) ->
        Forall (fun c => 0 <= c) coeff)
    /\ (forall modelflux flux ivar w coeff chi2 w',
          _fnnls_parallel_coeff np_sqrt (Fnnls.fnnls_call lstsq fuel)
            modelflux flux ivar w = (Ok (coeff, chi2), w') ->
          Forall (fun c => 0 <= c) coeff)
    /\ (forall modelflux flux ivar xparam w coeffs chi2grid w',
          solve_grid np_sqrt (Fnnls.fnnls_call lstsq fuel) modelflux flux
            ivar xparam w = (Ok (coeffs, chi2grid), w') ->
          Forall (Forall (fun c => 0 <= c)) coeffs).
Proof.
  intros np_sqrt lstsq fuel. split; [|split].
  - intros ZZ xx flux ivar modelflux get_chi2 warn coeff chi2 H.
    unfold fnnls_continuum in H.
    apply res_bind_inv in H. destruct H as (c & Hc & H).
    apply FnnlsFacts.fnnls_call_nonneg in Hc.
    destruct get_chi2; inversion H; subst; exact Hc.
  - intros modelflux flux ivar w coeff chi2 w' H.
    apply fnnls_parallel_coeff_inv in H. destruct H as (_ & H & _).
    exact (FnnlsFacts.fnnls_call_nonneg _ _ _ _ _ H).
  - intros modelflux flux ivar xparam w coeffs chi2grid w' H.
    apply solve_grid_inv in H. destruct H as (_ & _ & _ & H).
    eapply Forall_impl; [exact H|].
    intros coeff (AtA & Aty & Hc).
    exact (FnnlsFacts.fnnls_call_nonneg _ _ _ _ _ Hc).
Qed.

Lemma fnnls_continuum_nonneg_witness :
  fnnls_continuum Examples.solver Examples.templates Examples.pixel_flux
    Examples.pixel_flux Examples.unit_ivar Examples.templates true
  = Ok (false, [1; 2], Some 2)
  /\ Forall (fun c => 0 <= c) [1; 2].
Proof.
  assert (H : fnnls_continuum Examples.solver Examples.templates
                Examples.pixel_flux Examples.pixel_flux Examples.unit_ivar
                Examples.templates true = Ok (false, [1; 2], Some 2))
    by (vm_compute; reflexivity).
  split; [exact H|].
  destruct (fnnls_continuum_nonneg Util.sqrt_floor Fnnls.Exact.lstsq 20)
    as (Hc & _ & _).
  exact (Hc _ _ _ _ _ _ _ _ _ H).
Defined.

(** *** The minimum of the chi-square curve *)

Lemma locate_minimum_eq find_minima minfit xparam chi2grid w :
  locate_minimum find_minima minfit xparam chi2grid w
  = match Tested.try_block find_minima minfit xparam chi2grid with
    | Ok v => (Ok v, w)
    | Raise e =>
        (Ok (0%Z, 0, 0, 0, 1%Z),
         Tested.world_after
           (Tested.try_block find_minima minfit xparam chi2grid) w)
    | Hang => (Hang, w)
    end.
Proof.
  unfold locate_minimum, Tested.try_block, try_except, bind, lift, ret.
  destruct (find_minima chi2grid) as [mins|e|]; cbn [res_bind];
    try reflexivity.
  destruct (py_index mins 0) as [imin|e|]; cbn [res_bind]; try reflexivity.
  destruct (minfit _ _) as [[[[xb xe] c2] wn]|e|]; cbn [res_bind];
    reflexivity.
Qed.

(** A slice of three around an index at either end of a list holds fewer
    than three elements. *)
Lemma py_slice_edge {A} (l : list A) (imin : Z) :
  l <> [] ->
  (imin = 0 \/ imin = Z.of_nat (length l) - 1)%Z ->
  (length (py_slice l (imin - 1) (imin + 2)) < 3)%nat.
Proof.
  intros Hne Hedge. unfold py_slice, slice_bound.
  assert (Hlen : (1 <= Z.of_nat (length l))%Z).
  { destruct l; [contradiction|]. cbn [length]. lia. }
  rewrite length_firstn, length_skipn.
  destruct Hedge as [->| ->].
  - change (0 - 1 <? 0)%Z with true. change (0 + 2 <? 0)%Z with false.
    cbv iota. lia.
  - destruct (Z.ltb_spec (Z.of_nat (length l) - 1 - 1) 0);
      destruct (Z.ltb_spec (Z.of_nat (length l) - 1 + 2) 0); lia.
Qed.

Lemma refine_minimum_failed find_minima minfit interp_coeff
    x0 xs chi2grid c0 cs interpolate_coeff w :
  Tested.fit_failed
    (Tested.try_block find_minima minfit (x0 :: xs) chi2grid) ->
  refine_minimum find_minima minfit interp_coeff (x0 :: xs) chi2grid
    (c0 :: cs) interpolate_coeff w
  = (Ok (0, x0, 0, if interpolate_coeff then Some c0 else None),
     Tested.world_after
       (Tested.try_block find_minima minfit (x0 :: xs) chi2grid) w).
Proof.
  intros Hfail. unfold refine_minimum, bind at 1.
  rewrite locate_minimum_eq.
  destruct (Tested.try_block find_minima minfit (x0 :: xs) chi2grid)
    as [[[[[imin xb] xe] c2] wn]|e|]; cbn [Tested.fit_failed] in Hfail;
    [|cbn|contradiction].
  - destruct (Z.eqb_spec wn 0) as [->|_]; [contradiction|].
    cbn. assert (E : Qeqb x0 x0 = true) by (apply Qeq_bool_iff; reflexivity).
    unfold bind, lift, ret. cbn. rewrite E.
    destruct interpolate_coeff; reflexivity.
  - assert (E : Qeqb x0 x0 = true) by (apply Qeq_bool_iff; reflexivity).
    unfold bind, lift, ret. cbn. rewrite E.
    destruct interpolate_coeff; reflexivity.
Qed.

Lemma edge_minimum_failed find_minima minfit xparam chi2grid imin rest :
  (forall x y, (length x < 3)%nat -> Tested.fit_failed (minfit x y)) ->
  xparam <> [] ->
  find_minima chi2grid = Ok (imin :: rest) ->
  (imin = 0 \/ imin = Z.of_nat (length xparam) - 1)%Z ->
  Tested.fit_failed (Tested.try_block find_minima minfit xparam chi2grid).
Proof.
  intros Hshort Hne Hmin Hedge. unfold Tested.try_block.
  rewrite Hmin. cbn [res_bind py_index nth_error].
  pose proof (Hshort (py_slice xparam (imin - 1) (imin + 2))
                (py_slice chi2grid (imin - 1) (imin + 2))
                (py_slice_edge xparam imin Hne Hedge)) as Hf.
  destruct (minfit _ _) as [[[[xb xe] c2] wn]|e|]; cbn in *; exact Hf.
Qed.

Lemma refine_minimum_inv find_minima minfit interp_coeff xparam chi2grid
    coeff interpolate_coeff w chi2min xbest xivar bestcoeff w' :
  refine_minimum find_minima minfit interp_coeff xparam chi2grid coeff
    interpolate_coeff w = (Ok (chi2min, xbest, xivar, bestcoeff), w') ->
  w' = Tested.world_after
         (Tested.try_block find_minima minfit xparam chi2grid) w
  /\ ((Tested.fit_failed
         (Tested.try_block find_minima minfit xparam chi2grid)
       /\ chi2min = 0 /\ xivar = 0 /\ py_index xparam 0 = Ok xbest)
      \/ (exists imin xerr,
            Tested.try_block find_minima minfit xparam chi2grid
            = Ok (imin, xbest, xerr, chi2min, 0%Z)
            /\ xivar = 1 / (xerr * xerr))).
Proof.
  unfold refine_minimum. intros H.
  apply bind_inv in H. destruct H as (located & w1 & Hloc & H).
  rewrite locate_minimum_eq in Hloc.
  destruct located as [[[[imin xb] xe] c2] wn].
  apply bind_inv in H. destruct H as ([[c2' xi] xb'] & w2 & Href & H).
  apply bind_inv in H. destruct H as (bc & w3 & Hbc & H).
  apply ret_inv in H. destruct H as [H ->]. inversion H; subst; clear H.
  assert (Hw3 : w3 = w2).
  { destruct interpolate_coeff.
    - apply bind_inv in Hbc. destruct Hbc as (x0 & w4 & Hx0 & Hbc).
      apply lift_inv in Hx0. destruct Hx0 as [_ ->].
      destruct (Qeqb _ x0).
      + apply bind_inv in Hbc. destruct Hbc as (c0 & w5 & Hc0 & Hbc).
        apply lift_inv in Hc0. destruct Hc0 as [_ ->].
        apply ret_inv in Hbc. destruct Hbc as [_ ->]. reflexivity.
      + apply ret_inv in Hbc. destruct Hbc as [_ ->]. reflexivity.
    - apply ret_inv in Hbc. destruct Hbc as [_ ->]. reflexivity. }
  subst w3.
  destruct (Tested.try_block find_minima minfit xparam chi2grid)
    as [[[[[imin0 xb0] xe0] c20] wn0]|e|] eqn:Etry;
    inversion Hloc; subst; clear Hloc.
  - destruct (Z.eqb_spec wn 0) as [->|Hwn].
    + destruct (Qeqb xe 0); [exfalso; exact (raise_inv _ _ _ _ Href)|].
      apply ret_inv in Href. destruct Href as [Href ->].
      inversion Href; subst. split; [reflexivity|]. right. eauto.
    + apply bind_inv in Href. destruct Href as (x0 & w4 & Hx0 & Href).
      apply lift_inv in Hx0. destruct Hx0 as [Hx0 ->].
      apply ret_inv in Href. destruct Href as [Href ->].
      inversion Href; subst. split; [reflexivity|]. left.
      cbn [Tested.fit_failed]. auto.
  - cbn [Z.eqb] in Href.
    apply bind_inv in Href. destruct Href as (x0 & w4 & Hx0 & Href).
    apply lift_inv in Hx0. destruct Hx0 as [Hx0 ->].
    apply ret_inv in Href. destruct Href as [Href ->].
    inversion Href; subst. split; [reflexivity|]. left.
    cbn [Tested.fit_failed]. auto.
Qed.

(** The log after a call of [_fnnls_parallel] with a grid holds the
    records of before, and nothing else but the warning of the [except]
    branch. *)
Lemma fnnls_parallel_grid_inv np_sqrt fnnls find_minima minfit interp_coeff
    modelflux flux ivar xparam interpolate_coeff w chi2min xbest xivar
    bestcoeff w' :
  _fnnls_parallel_grid np_sqrt fnnls find_minima minfit interp_coeff
    modelflux flux ivar xparam interpolate_coeff w
  = (Ok (chi2min, xbest, xivar, bestcoeff), w') ->
  (logs w' = logs w \/ logs w' = (WARNING, msg_minimize) :: logs w)
  /\ exists coeffs chi2grid,
      solve_grid np_sqrt fnnls modelflux flux ivar xparam w
      = (Ok (coeffs, chi2grid), w)
      /\ refine_minimum find_minima minfit interp_coeff xparam chi2grid
           coeffs interpolate_coeff w
         = (Ok (chi2min, xbest, xivar, bestcoeff), w').
Proof.
  unfold _fnnls_parallel_grid. intros H.
  apply bind_inv in H. destruct H as ([coeffs chi2grid] & w1 & Hs & H).
  pose proof (solve_grid_inv _ _ _ _ _ _ _ _ _ _ Hs) as (-> & _).
  split; [|eauto].
  apply refine_minimum_inv in H. destruct H as [-> _].
  destruct (Tested.try_block find_minima minfit xparam chi2grid);
    cbn [Tested.world_after logs]; auto.
Qed.

(** *** continuum_specfit *)

Lemma guard_count_positive (specivar : list Q) :
  forallb (fun q => Qeqb q 0) specivar
  || existsb (fun q => Qltb q 0) specivar = false ->
  (0 < count_positive specivar)%Z.
Proof.
  intros H. apply orb_false_iff in H. destruct H as [Hall Hneg].
  unfold count_positive.
  induction specivar as [|q v IH]; [discriminate|].
  cbn [forallb existsb List.filter] in *.
  apply orb_false_iff in Hneg. destruct Hneg as [Hq Hneg].
  destruct (Qgtb q 0) eqn:Eq; [cbn [length]; lia|].
  apply Qltb_ge in Hq. apply Qgtb_le in Eq.
  assert (Hz : Qeqb q 0 = true).
  { apply Qeq_bool_iff. apply Qle_antisym; assumption. }
  rewrite Hz in Hall. cbn [andb] in Hall. exact (IH Hall Hneg).
Qed.

Section Specfit.

Variable np_sqrt : Q -> Q.
Variable fnnls : list (list Q) -> list Q -> res (list Q).
Variable find_minima : list Q -> res (list Z).
Variable minfit : list Q -> list Q -> res (Q * Q * Q * Z).
Variable interp_coeff : Q -> list Q -> list (list Q) -> list Q.
Variables (AV vdisp : list Q) (AV_nominal vdisp_nominal : Q).
Variable solve_vdisp : bool.
Variable nssp_coeff : nat.
Variable SSP2data_dust_spec : spectrum -> res (list (list (list Q))).
Variable SSP2data_spec : spectrum -> Q -> Q -> res (list (list Q)).
Variable derived_spec : spectrum -> list Q -> list Q -> res unit.

Local Abbreviation fit_vdisp' :=
  (fit_vdisp np_sqrt fnnls find_minima minfit interp_coeff vdisp
     vdisp_nominal solve_vdisp SSP2data_spec).

Local Abbreviation continuum_specfit' :=
  (continuum_specfit np_sqrt fnnls find_minima minfit interp_coeff AV vdisp
     AV_nominal vdisp_nominal solve_vdisp nssp_coeff SSP2data_dust_spec
     SSP2data_spec derived_spec).

Lemma fit_vdisp_inv data snr_col specflux specivar AVbest w vb vi w' :
  fit_vdisp' data snr_col specflux specivar AVbest w = (Ok (vb, vi), w') ->
  (solve_vdisp || compute_vdisp snr_col (zredrock data) = false
   /\ vb = vdisp_nominal /\ vi = 0 /\ w' = w)
  \/ (solve_vdisp || compute_vdisp snr_col (zredrock data) = true
      /\ In (INFO, msg_vdisp_took) (logs w')
      /\ (Qgtb vi 0 = false -> vb = vdisp_nominal)).
Proof.
  unfold fit_vdisp. intros H.
  apply bind_inv in H. destruct H as (u & w1 & Hu & H).
  destruct (solve_vdisp || compute_vdisp snr_col (zredrock data)) eqn:Ec.
  - right. split; [reflexivity|].
    apply bind_inv in H. destruct H as (grids & w2 & _ & H).
    apply bind_inv in H.
    destruct H as ([[[c2 xb] xi] bc] & w3 & _ & H).
    apply bind_inv in H. destruct H as (u2 & w4 & Hlog & H).
    apply log_inv in Hlog. subst w4.
    destruct (Qgtb xi 0) eqn:Exi;
      apply bind_inv in H; destruct H as (u3 & w5 & Hlog2 & H);
      apply log_inv in Hlog2; subst w5;
      apply ret_inv in H; destruct H as [H ->]; inversion H; subst;
      cbn [logs].
    + split; [right; left; reflexivity|]. congruence.
    + split; [right; left; reflexivity|]. reflexivity.
  - left. split; [reflexivity|].
    apply orb_false_iff in Ec. destruct Ec as [_ Ec]. rewrite Ec in Hu.
    apply ret_inv in Hu. destruct Hu as [_ ->].
    apply ret_inv in H. destruct H as [H ->]. inversion H; subst. auto.
Qed.

Lemma continuum_specfit_inv data w out w' :
  continuum_specfit' data w = (Ok out, w') ->
  exists snr_col grid AVchi2min AVbest0 AVcoeff w0 w1 bestsspflux coeff,
    set_snr (cameras data) 0 (snr data) (fun _ => 0) = Ok snr_col
    /\ forallb (fun q => Qeqb q 0) (line_masked_ivar data)
       || existsb (fun q => Qltb q 0) (line_masked_ivar data) = false
    /\ logs w0 = (INFO, "Preparing the models took"%string) :: logs w
    /\ _fnnls_parallel_grid np_sqrt fnnls find_minima minfit interp_coeff
         grid (concat (flux data)) (line_masked_ivar data) AV solve_vdisp w0
       = (Ok (AVchi2min, AVbest0, CONTINUUM_AV_IVAR out, AVcoeff), w1)
    /\ CONTINUUM_AV out
       = (if Qgtb (CONTINUUM_AV_IVAR out) 0 then AVbest0 else AV_nominal)
    /\ (exists msg,
          fit_vdisp' data snr_col (concat (flux data))
            (line_masked_ivar data) (CONTINUUM_AV out)
            (mkWorld ((INFO, msg)
                      :: (INFO, "Fitting for the reddening took"%string)
                      :: logs w1) (stdin_dbg w1))
          = (Ok (CONTINUUM_VDISP out, CONTINUUM_VDISP_IVAR out), w')
          /\ msg <> msg_vdisp_took)
    /\ SSP2data_spec data (CONTINUUM_AV out) (CONTINUUM_VDISP out)
       = Ok bestsspflux
    /\ _fnnls_parallel_coeff np_sqrt fnnls bestsspflux (concat (flux data))
         (line_masked_ivar data) w'
       = (Ok (coeff,
              weighted_rss (line_masked_ivar data) (concat (flux data))
                (matvec bestsspflux coeff)), w')
    /\ CONTINUUM_RCHI2 out
       = np_divide
           (weighted_rss (line_masked_ivar data) (concat (flux data))
              (matvec bestsspflux coeff))
           (count_positive (line_masked_ivar data))
    /\ CONTINUUM_COEFF out = store_coeff nssp_coeff coeff
    /\ CONTINUUM_SNR out = snr_col
    /\ CONTINUUM_Z out = zredrock data.
Proof.
  unfold continuum_specfit. intros H.
  apply bind_inv in H. destruct H as (snr_col & w00 & Hsnr & H).
  apply lift_inv in Hsnr. destruct Hsnr as [Hsnr ->].
  destruct (forallb (fun q => Qeqb q 0) (line_masked_ivar data)
            || existsb (fun q => Qltb q 0) (line_masked_ivar data)) eqn:Eg.
  { apply bind_inv in H. destruct H as (u & w1 & _ & H).
    exfalso. exact (raise_inv _ _ _ _ H). }
  apply bind_inv in H. destruct H as (grid & w1 & Hgrid & H).
  apply lift_inv in Hgrid. destruct Hgrid as [Hgrid ->].
  apply bind_inv in H. destruct H as (u1 & w0 & Hlog0 & H).
  apply log_inv in Hlog0.
  apply bind_inv in H.
  destruct H as ([[[AVchi2min AVbest0] AVivar] AVcoeff] & w1 & HAV & H).
  apply bind_inv in H. destruct H as (u2 & w2 & Hlog2 & H).
  apply log_inv in Hlog2.
  apply bind_inv in H. destruct H as (AVbest & w3 & Hadopt & H).
  apply bind_inv in H. destruct H as ([vb vi] & w4 & Hvd & H).
  apply bind_inv in H. destruct H as (bestsspflux & w5 & Hbest & H).
  apply lift_inv in Hbest. destruct Hbest as [Hbest ->].
  apply bind_inv in H. destruct H as ([coeff chi2min] & w6 & Hsolve & H).
  pose proof (fnnls_parallel_coeff_inv _ _ _ _ _ _ _ _ _ Hsolve)
    as (-> & _ & ->).
  apply bind_inv in H. destruct H as (u3 & w7 & Hder & H).
  apply lift_inv in Hder. destruct Hder as [_ ->].
  apply ret_inv in H. destruct H as [-> ->]. cbn.
  assert (Hadopt' :
            AVbest = (if Qgtb AVivar 0 then AVbest0 else AV_nominal)
            /\ exists msg, w3 = mkWorld ((INFO, msg) :: logs w2) (stdin_dbg w2)
                           /\ msg <> msg_vdisp_took).
  { destruct (Qgtb AVivar 0);
      apply bind_inv in Hadopt; destruct Hadopt as (u4 & w8 & Hl & Hadopt);
      apply log_inv in Hl; subst w8;
      apply ret_inv in Hadopt; destruct Hadopt as [-> ->];
      (split; [reflexivity|]); eexists; (split; [reflexivity|discriminate]). }
  destruct Hadopt' as (-> & msg & -> & Hmsg). subst w2. cbn [logs stdin_dbg] in *.
  exists snr_col, grid, AVchi2min, AVbest0, AVcoeff, w0, w1, bestsspflux, coeff.
  split; [exact Hsnr|]. split; [reflexivity|].
  split; [subst w0; reflexivity|]. split; [exact HAV|].
  split; [reflexivity|]. split; [exists msg; split; assumption|].
  split; [exact Hbest|]. split; [exact Hsolve|].
  repeat split.
Qed.

(** The reported reduced chi-square is the weighted residual sum of
    squares of the final coefficient solve at the adopted (A(V), sigma),
    divided by the number of pixels of positive line-masked inverse
    variance; one is not subtracted from that number. *)
Theorem continuum_specfit_rchi2 :
  forall data w out w',
    continuum_specfit' data w = (Ok out, w') ->
    exists bestsspflux coeff,
      SSP2data_spec data (CONTINUUM_AV out) (CONTINUUM_VDISP out)
      = Ok bestsspflux
      /\ _fnnls_parallel_coeff np_sqrt fnnls bestsspflux
           (concat (flux data)) (line_masked_ivar data) w'
         = (Ok (coeff,
                weighted_rss (line_masked_ivar data) (concat (flux data))
                  (matvec bestsspflux coeff)), w')
      /\ (0 < count_positive (line_masked_ivar data))%Z
      /\ CONTINUUM_RCHI2 out
         = Some (weighted_rss (line_masked_ivar data) (concat (flux data))
                   (matvec bestsspflux coeff)
                 / inject_Z (count_positive (line_masked_ivar data))).
Proof.
  intros data w out w' H.
  destruct (continuum_specfit_inv data w out w' H)
    as (snr_col & grid & c2 & av0 & avc & w0 & w1 & best & coeff
        & _ & Hg & _ & _ & _ & _ & Hbest & Hsolve & Hr & _).
  exists best, coeff.
  pose proof (guard_count_positive _ Hg) as Hpos.
  split; [exact Hbest|]. split; [exact Hsolve|]. split; [exact Hpos|].
  rewrite Hr. unfold np_divide.
  destruct (Z.eqb_spec (count_positive (line_masked_ivar data)) 0); [lia|].
  reflexivity.
Qed.

(** C7 (as the code has it).  In a run that returns and whose log did not
    hold the record before, the grid search over the velocity dispersion
    has run when [solve_vdisp] is set or the S/N in the b and in the r
    camera both exceed 3 and the redshift is below 1.  It has not run, and
    the nominal velocity dispersion is reported with inverse variance 0,
    when [solve_vdisp] is not set and the redshift is not below 1 or
    neither of the two S/N exceeds 3. *)
Theorem vdisp_search_condition :
  forall data w out w',
    continuum_specfit' data w = (Ok out, w') ->
    ~ In (INFO, msg_vdisp_took) (logs w) ->
    (solve_vdisp = true
     \/ Tested.compute_vdisp (CONTINUUM_SNR out) (zredrock data) ->
     In (INFO, msg_vdisp_took) (logs w'))
    /\ (solve_vdisp = false ->
        1 <= zredrock data
        \/ (CONTINUUM_SNR out cam_b <= 3 /\ CONTINUUM_SNR out cam_r <= 3) ->
        ~ In (INFO, msg_vdisp_took) (logs w')
        /\ CONTINUUM_VDISP out = vdisp_nominal
        /\ CONTINUUM_VDISP_IVAR out = 0).
Proof.
  intros data w out w' H Hfresh.
  assert (Hold : (In (INFO, msg_vdisp_took) (logs w')
                  <-> solve_vdisp = true
                      \/ Tested.compute_vdisp (CONTINUUM_SNR out)
                           (zredrock data))
                 /\ (~ In (INFO, msg_vdisp_took) (logs w') ->
                     CONTINUUM_VDISP out = vdisp_nominal
                     /\ CONTINUUM_VDISP_IVAR out = 0)).
  { destruct (continuum_specfit_inv data w out w' H)
    as (snr_col & grid & c2 & av0 & avc & w0 & w1 & best & coeff
        & _ & _ & Hw0 & HAV & _ & (msg & Hvd & Hmsg) & _ & _ & _ & _
        & Hsnr & _).
  rewrite Hsnr.
  assert (Hcond : solve_vdisp || compute_vdisp snr_col (zredrock data) = true
                  <-> solve_vdisp = true
                      \/ Tested.compute_vdisp snr_col (zredrock data)).
  { rewrite orb_true_iff. unfold compute_vdisp, Tested.compute_vdisp.
    rewrite !andb_true_iff, !Qgtb_gt, Qltb_lt. tauto. }
  apply fnnls_parallel_grid_inv in HAV. destruct HAV as [Hw1 _].
  apply fit_vdisp_inv in Hvd.
  destruct Hvd as [(Ec & Hvb & Hvi & ->)|(Ec & Hin & _)].
  - assert (Hnot : ~ In (INFO, msg_vdisp_took)
                      (logs (mkWorld
                               ((INFO, msg)
                                :: (INFO, "Fitting for the reddening took"%string)
                                :: logs w1) (stdin_dbg w1)))).
    { cbn [logs]. intros [E|[E|Hin]].
      - inversion E. congruence.
      - discriminate E.
      - destruct Hw1 as [Hw1|Hw1]; rewrite Hw1, Hw0 in Hin.
        + destruct Hin as [E|Hin]; [discriminate E|exact (Hfresh Hin)].
        + destruct Hin as [E|[E|Hin]];
            [discriminate E|discriminate E|exact (Hfresh Hin)]. }
    split.
    + split; [intros Hin; exfalso; exact (Hnot Hin)|].
      intros Hc. apply Hcond in Hc. congruence.
    + intros _. auto.
  - split.
    + split; [intros _; apply Hcond; exact Ec|intros _; exact Hin].
    + intros Hnot. exfalso. exact (Hnot Hin). }
  destruct Hold as [Hiff Hnom].
  split; [apply Hiff|].
  intros Hoff Hskip.
  assert (Hnot : ~ In (INFO, msg_vdisp_took) (logs w')).
  { intros Hin. apply Hiff in Hin. destruct Hin as [E|(Hb & Hr & Hz)].
    - congruence.
    - destruct Hskip as [Hz'|[Hb' _]].
      + exact (Qlt_not_le _ _ Hz Hz').
      + exact (Qlt_not_le _ _ Hb Hb'). }
  split; [exact Hnot|exact (Hnom Hnot)].
Qed.

(** C8 (as the code has it).  When locating or refining the minimum of
    the chi-square curve raises or returns a nonzero flag, the call of
    [_fnnls_parallel] raises nothing and reports chi-square 0, the first
    trial value and inverse variance 0; it logs its warning exactly when
    an exception was caught.  With a [minfit] that does not refine fewer
    than three points, a minimum at either end of the grid is such a
    case.  In [continuum_specfit] a reported inverse variance that is not
    positive goes with the nominal A(V), and with the nominal velocity
    dispersion. *)
Theorem grid_minimum_fallback :
  (forall x0 xs chi2grid c0 cs interpolate_coeff w,
      Tested.fit_failed
        (Tested.try_block find_minima minfit (x0 :: xs) chi2grid) ->
      refine_minimum find_minima minfit interp_coeff (x0 :: xs) chi2grid
        (c0 :: cs) interpolate_coeff w
      = (Ok (0, x0, 0, if interpolate_coeff then Some c0 else None),
         Tested.world_after
           (Tested.try_block find_minima minfit (x0 :: xs) chi2grid) w))
  /\ ((forall x y, (length x < 3)%nat -> Tested.fit_failed (minfit x y)) ->
      forall xparam chi2grid imin rest,
        xparam <> [] ->
        find_minima chi2grid = Ok (imin :: rest) ->
        (imin = 0 \/ imin = Z.of_nat (length xparam) - 1)%Z ->
        Tested.fit_failed
          (Tested.try_block find_minima minfit xparam chi2grid))
  /\ (forall data w out w',
        continuum_specfit' data w = (Ok out, w') ->
        (Qgtb (CONTINUUM_AV_IVAR out) 0 = false ->
         CONTINUUM_AV out = AV_nominal)
        /\ (Qgtb (CONTINUUM_VDISP_IVAR out) 0 = false ->
            CONTINUUM_VDISP out = vdisp_nominal)).
Proof.
  split; [|split].
  - intros x0 xs chi2grid c0 cs interpolate_coeff w Hfail.
    apply refine_minimum_failed. exact Hfail.
  - intros Hshort xparam chi2grid imin rest Hne Hmin Hedge.
    eapply edge_minimum_failed; eassumption.
  - intros data w out w' H.
    destruct (continuum_specfit_inv data w out w' H)
      as (snr_col & grid & c2 & av0 & avc & w0 & w1 & best & coeff
          & _ & _ & _ & _ & HAV & (msg & Hvd & _) & _).
    split.
    + intros Hiv. rewrite HAV, Hiv. reflexivity.
    + intros Hiv. apply fit_vdisp_inv in Hvd.
      destruct Hvd as [(_ & Hvb & _)|(_ & _ & Hvb)]; auto.
Qed.

End Specfit.

Lemma specfit_run_returns :
  Examples.specfit_run = (Ok Examples.specfit_output, Examples.specfit_world).
Proof. vm_compute. reflexivity. Qed.

Lemma continuum_specfit_rchi2_witness :
  Examples.specfit_run = (Ok Examples.specfit_output, Examples.specfit_world)
  /\ (0 < count_positive (line_masked_ivar Examples.object1))%Z.
Proof.
  split; [exact specfit_run_returns|].
  destruct (continuum_specfit_rchi2 _ _ _ _ _ _ _ _ _ _ _ _ _ _
              Examples.object1 (mkWorld [] []) Examples.specfit_output
              Examples.specfit_world specfit_run_returns)
    as (best & coeff & _ & _ & Hpos & _).
  exact Hpos.
Defined.


Lemma specfit_run2_returns :
  Examples.specfit_run2
  = (Ok Examples.specfit_output2, Examples.specfit_world2).
Proof. vm_compute. reflexivity. Qed.

Lemma vdisp_search_condition_witness :
  Examples.specfit_run2
  = (Ok Examples.specfit_output2, Examples.specfit_world2)
  /\ ~ In (INFO, msg_vdisp_took) (logs (mkWorld [] []))
  /\ Tested.compute_vdisp (CONTINUUM_SNR Examples.specfit_output2)
       (zredrock Examples.object2)
  /\ In (INFO, msg_vdisp_took) (logs Examples.specfit_world2).
Proof.
  assert (Hfresh : ~ In (INFO, msg_vdisp_took) (logs (mkWorld [] [])))
    by (intros []).
  assert (Hc : Tested.compute_vdisp (CONTINUUM_SNR Examples.specfit_output2)
                 (zredrock Examples.object2))
    by (repeat split; vm_compute; reflexivity).
  split; [exact specfit_run2_returns|]. split; [exact Hfresh|].
  split; [exact Hc|].
  pose proof specfit_run2_returns as Hrun.
  unfold Examples.specfit_run2 in Hrun.
  destruct (vdisp_search_condition Util.sqrt_floor Examples.solver
              Util.find_minima (Util.minfit Util.sqrt_floor)
              (fun _ _ coeffs => hd [] coeffs) Examples.av_grid
              Examples.vdisp_grid 0 150 false 2%nat
              (fun _ => Ok (map Examples.dimmed Examples.av_grid))
              (fun _ a _ => Ok (Examples.dimmed a)) (fun _ _ _ => Ok tt)
              Examples.object2 (mkWorld [] []) Examples.specfit_output2
              Examples.specfit_world2 Hrun Hfresh)
    as [Hruns _].
  apply Hruns. right. exact Hc.
Defined.

(** C7 as stated fails on the cameras: with S/N 5 in the b and r cameras,
    S/N 1 in the z camera and redshift 0.5, one of the two reddest cameras
    fails the test, and the search over the velocity dispersion runs. *)
Lemma vdisp_search_b_and_r_cameras :
  ~ (forall np_sqrt fnnls find_minima minfit interp_coeff AV vdisp
            AV_nominal vdisp_nominal solve_vdisp nssp_coeff
            SSP2data_dust_spec SSP2data_spec derived_spec data w out w',
        continuum_specfit np_sqrt fnnls find_minima minfit interp_coeff AV
          vdisp AV_nominal vdisp_nominal solve_vdisp nssp_coeff
          SSP2data_dust_spec SSP2data_spec derived_spec data w
        = (Ok out, w') ->
        ~ In (INFO, msg_vdisp_took) (logs w) ->
        (In (INFO, msg_vdisp_took) (logs w')
         <-> solve_vdisp = true
             \/ Stated.compute_vdisp data (CONTINUUM_SNR out))).
Proof.
  intros H.
  pose proof specfit_run2_returns as Hrun.
  unfold Examples.specfit_run2 in Hrun.
  specialize (H Util.sqrt_floor Examples.solver
                Util.find_minima (Util.minfit Util.sqrt_floor)
                (fun _ _ coeffs => hd [] coeffs) Examples.av_grid
                Examples.vdisp_grid 0 150 false 2%nat
                (fun _ => Ok (map Examples.dimmed Examples.av_grid))
                (fun _ a _ => Ok (Examples.dimmed a)) (fun _ _ _ => Ok tt)
                Examples.object2 (mkWorld [] []) Examples.specfit_output2
                Examples.specfit_world2 Hrun).
  destruct H as [H _]; [intros []|].
  assert (Hin : In (INFO, msg_vdisp_took) (logs Examples.specfit_world2)).
  { vm_compute. right. left. reflexivity. }
  destruct (H Hin) as [E|[Hsnr _]]; [discriminate E|].
  specialize (Hsnr cam_z).
  assert (Hz : 3 < CONTINUUM_SNR Examples.specfit_output2 cam_z).
  { apply Hsnr; [right; right; left; reflexivity|vm_compute; reflexivity]. }
  vm_compute in Hz. discriminate Hz.
Qed.

Lemma grid_minimum_fallback_witness :
  Tested.fit_failed
    (Tested.try_block Util.find_minima (Util.minfit Util.sqrt_floor)
       Examples.av_grid Examples.rising_chi2)
  /\ refine_minimum Util.find_minima (Util.minfit Util.sqrt_floor)
       (fun _ _ coeffs => hd [] coeffs) Examples.av_grid
       Examples.rising_chi2 [[1]; [2]; [3]] false (mkWorld [] [])
     = (Ok (0, 0, 0, None), mkWorld [] []).
Proof.
  assert (Hfail : Tested.fit_failed
                    (Tested.try_block Util.find_minima
                       (Util.minfit Util.sqrt_floor)
                       Examples.av_grid Examples.rising_chi2))
    by (vm_compute; discriminate).
  split; [exact Hfail|].
  destruct (grid_minimum_fallback Util.sqrt_floor Examples.solver
              Util.find_minima (Util.minfit Util.sqrt_floor)
              (fun _ _ coeffs => hd [] coeffs) Examples.av_grid
              Examples.vdisp_grid 0 150 false 2%nat
              (fun _ => Ok (map Examples.dimmed Examples.av_grid))
              (fun _ a _ => Ok (Examples.dimmed a)) (fun _ _ _ => Ok tt))
    as [Hrefine _].
  exact (Hrefine 0 [1 # 2; 1] Examples.rising_chi2 [1] [[2]; [3]] false
           (mkWorld [] []) Hfail).
Defined.

(** C8 as stated fails in one detail: with a chi-square curve that rises
    from the first grid point and a [minfit] that reports the short slice
    by its flag, inverse variance 0 is reported and no warning is
    logged. *)
Lemma edge_minimum_logs_no_warning : ~ Stated.fallback_logs_warning.
Proof.
  intros H.
  specialize (H Util.sqrt_floor
                (fun _ _ coeffs => hd [] coeffs) Examples.av_grid
                Examples.rising_chi2 [[1]; [2]; [3]] false (mkWorld [] [])
                (Ok (0, 0, 0, None)) (mkWorld [] [])).
  destruct H as [_ (msg & Hlog)].
  - vm_compute. reflexivity.
  - vm_compute. left. reflexivity.
  - discriminate Hlog.
Qed.

(** *** continuum_fastphot *)

Lemma masked_photometry (ivars bands : list Q) (c : Q) :
  Forall (fun iv => iv == 0) ivars ->
  forallb (fun q => Qgeb q 0)
    (zip_with Qmult (map (fun iv => iv / c) ivars) bands) = true
  /\ forallb (fun q => Qeqb q 0)
       (zip_with Qmult (map (fun iv => iv / c) ivars) bands) = true.
Proof.
  intros H. revert bands.
  induction H as [|iv ivars Hiv _ IH]; intros bands; [split; reflexivity|].
  destruct bands as [|b bands]; [split; reflexivity|].
  cbn [map zip_with forallb]. destruct (IH bands) as [IH1 IH2].
  rewrite IH1, IH2.
  assert (Hz : iv / c * b == 0) by (rewrite Hiv; unfold Qdiv; ring).
  split; apply andb_true_iff; (split; [|reflexivity]).
  - apply Qle_bool_iff. rewrite Hz. apply Qle_refl.
  - apply Qeq_bool_iff. exact Hz.
Qed.

Lemma count_positive_zeros (n : nat) : count_positive (repeat 0 n) = 0%Z.
Proof.
  unfold count_positive. induction n as [|n IH]; [reflexivity|].
  cbn [repeat List.filter]. exact IH.
Qed.

Lemma repeat_zeros (m : nat) : Forall (fun c : Q => c = 0) (repeat 0 m).
Proof.
  induction m; cbn [repeat]; constructor; [reflexivity|assumption].
Qed.

Lemma store_zeros (n : nat) :
  Forall (fun c => c = 0) (store_coeff n (repeat 0 n)).
Proof.
  unfold store_coeff. apply Forall_app. split; apply repeat_zeros.
Qed.

Section Fastphot.

Variable np_sqrt : Q -> Q.
Variable fnnls : list (list Q) -> list Q -> res (list Q).
Variable find_minima : list Q -> res (list Z).
Variable minfit : list Q -> list Q -> res (Q * Q * Q * Z).
Variable interp_coeff : Q -> list Q -> list (list Q) -> list Q.
Variable AV : list Q.
Variable AV_nominal : Q.
Variable nssp_coeff : nat.
Variable bands_to_fit : list Q.
Variable SSP2data_dust_phot : spectrum -> res (list (list (list Q))).
Variable SSP2data_phot : spectrum -> Q -> res (list (list Q) * list (list Q)).
Variable derived_phot : spectrum -> list Q -> list Q -> res Q.

(** C9.  When the templates could be prepared and the inverse variance
    of every band is zero, [continuum_fastphot] returns: with the nominal
    A(V), inverse variance 0, coefficients that are all zero and
    chi-square 0. *)
Theorem continuum_fastphot_all_masked :
  forall data w grid,
    SSP2data_dust_phot data = Ok grid ->
    Forall (fun iv => iv == 0) (phot_flam_ivar data) ->
    exists out w',
      continuum_fastphot np_sqrt fnnls find_minima minfit interp_coeff AV
        AV_nominal nssp_coeff bands_to_fit SSP2data_dust_phot SSP2data_phot
        derived_phot data w = (Ok out, w')
      /\ PHOT_CONTINUUM_AV out = AV_nominal
      /\ PHOT_CONTINUUM_AV_IVAR out = 0
      /\ Forall (fun c => c = 0) (PHOT_CONTINUUM_COEFF out)
      /\ PHOT_CONTINUUM_RCHI2 out = Some 0.
Proof.
  intros data w grid Hgrid Hzero.
  destruct (masked_photometry (phot_flam_ivar data) bands_to_fit
              (fluxnorm * fluxnorm) Hzero) as [Hge Heq].
  unfold continuum_fastphot, bind, lift, log, ret.
  rewrite Hgrid, Hge, Heq. cbn [negb].
  rewrite count_positive_zeros. cbn [Z.eqb].
  eexists. eexists. split; [reflexivity|].
  cbn [PHOT_CONTINUUM_AV PHOT_CONTINUUM_AV_IVAR PHOT_CONTINUUM_COEFF
       PHOT_CONTINUUM_RCHI2].
  repeat split. apply store_zeros.
Qed.

End Fastphot.

Lemma continuum_fastphot_all_masked_witness :
  Forall (fun iv => iv == 0) (phot_flam_ivar Examples.object1)
  /\ exists out w',
      continuum_fastphot Util.sqrt_floor Examples.solver Util.find_minima
        (Util.minfit Util.sqrt_floor) (fun _ _ coeffs => hd [] coeffs)
        Examples.av_grid 0 2 [1; 1; 1]
        (fun _ => Ok (map Examples.dimmed Examples.av_grid))
        (fun _ a => Ok (Examples.dimmed a, Examples.dimmed a))
        (fun _ _ _ => Ok 1) Examples.object1 (mkWorld [] [])
      = (Ok out, w')
      /\ PHOT_CONTINUUM_AV out = 0
      /\ PHOT_CONTINUUM_AV_IVAR out = 0
      /\ Forall (fun c => c = 0) (PHOT_CONTINUUM_COEFF out)
      /\ PHOT_CONTINUUM_RCHI2 out = Some 0.
Proof.
  assert (Hzero : Forall (fun iv => iv == 0) (phot_flam_ivar Examples.object1))
    by (repeat constructor).
  split; [exact Hzero|].
  exact (continuum_fastphot_all_masked Util.sqrt_floor Examples.solver
           Util.find_minima (Util.minfit Util.sqrt_floor)
           (fun _ _ coeffs => hd [] coeffs) Examples.av_grid 0 2 [1; 1; 1]
           (fun _ => Ok (map Examples.dimmed Examples.av_grid))
           (fun _ a => Ok (Examples.dimmed a, Examples.dimmed a))
           (fun _ _ _ => Ok 1) Examples.object1 (mkWorld [] [])
           (map Examples.dimmed Examples.av_grid) eq_refl Hzero).
Defined.

End ContinuumFitFacts.

(** ** Lists *)

Module ListFacts.

Lemma nth_error_lookup_eq {A} (l : list A) (i : nat) :
  nth_error l i = l !! i.
Proof.
  revert i. induction l as [|a l IH]; intros [|i]; cbn; auto.
Qed.

End ListFacts.

(** ** mpi.py *)

Module MpiFacts.
Import Num NumFacts Py PyFacts ListFacts Mpi.

(** [Util.argmin_from] returns an index of a smallest entry. *)
Lemma argmin_from_spec (v : list Q) :
  forall (pre : list Q) (best : nat) (bestv : Q),
    pre !! best = Some bestv ->
    Forall (fun q => bestv <= q) pre ->
    exists m,
      (pre ++ v) !! Util.argmin_from best bestv (length pre) v = Some m
      /\ Forall (fun q => m <= q) (pre ++ v).
Proof.
  induction v as [|q v IH]; intros pre best bestv Hbest Hmin; cbn [Util.argmin_from].
  - exists bestv. rewrite app_nil_r. auto.
  - destruct (Qltb q bestv) eqn:E.
    + apply Qltb_lt in E.
      destruct (IH (pre ++ [q]) (length pre) q) as (m & Hm & Hall).
      * rewrite lookup_app_r by lia. rewrite Nat.sub_diag. reflexivity.
      * apply Forall_app. split.
        -- eapply Forall_impl; [exact Hmin|]. intros x Hx. cbn in Hx.
           apply Qle_trans with bestv; [apply Qlt_le_weak; exact E|exact Hx].
        -- constructor; [apply Qle_refl|constructor].
      * rewrite length_app in Hm. cbn [length] in Hm.
        rewrite Nat.add_1_r in Hm. rewrite <- app_assoc in Hm, Hall.
        exists m. auto.
    + apply Qltb_ge in E.
      destruct (IH (pre ++ [q]) best bestv) as (m & Hm & Hall).
      * rewrite lookup_app_l; [exact Hbest|]. apply lookup_lt_Some in Hbest. exact Hbest.
      * apply Forall_app. split; [exact Hmin|]. constructor; [exact E|constructor].
      * rewrite length_app in Hm. cbn [length] in Hm.
        rewrite Nat.add_1_r in Hm. rewrite <- app_assoc in Hm, Hall.
        exists m. auto.
Qed.

Lemma argmin_spec (v : list Q) :
  v <> [] ->
  exists j m, argmin v = Ok j /\ v !! j = Some m /\ Forall (fun q => m <= q) v.
Proof.
  destruct v as [|q v]; [congruence|]. intros _.
  destruct (argmin_from_spec v [q] 0%nat q) as (m & Hm & Hall).
  - reflexivity.
  - constructor; [apply Qle_refl|constructor].
  - exists (Util.argmin_from 0 q 1 v), m. cbn [argmin]. auto.
Qed.


(** The loop of [weighted_partition], as a rule for invariants: an
    invariant of the rounds holds of the final state, and the loop raises
    nothing when there is a group and every index is one of [weights]. *)
Lemma place_all_rule (fadd : Q -> Q -> Q) (weights : list Q)
    (full : list nat) (P : list nat -> list (list nat) * list Q -> Prop) :
  (forall done i rest groups sums j m wi,
      full = done ++ i :: rest ->
      P done (groups, sums) ->
      length groups = length sums ->
      sums !! j = Some m ->
      Forall (fun q => m <= q) sums ->
      weights !! i = Some wi ->
      P (done ++ [i])
        (alter (fun g => g ++ [i]) j groups,
         alter (fun s => fadd s wi) j sums)) ->
  forall order done groups sums,
    full = done ++ order ->
    length groups = length sums ->
    (order <> [] -> sums <> []) ->
    Forall (fun i => (i < length weights)%nat) order ->
    P done (groups, sums) ->
    exists groups' sums',
      place_all fadd weights (groups, sums) order = Ok (groups', sums')
      /\ length groups' = length groups
      /\ length sums' = length sums
      /\ P full (groups', sums').
Proof.
  intros Hstep. induction order as [|i order IH];
    intros done groups sums Hfull Hlen Hne Hidx HP; cbn [place_all].
  - exists groups, sums. rewrite app_nil_r in Hfull. subst full. auto.
  - assert (Hs : sums <> []) by (apply Hne; discriminate).
    destruct (argmin_spec sums Hs) as (j & m & Hj & Hm & Hmin).
    inversion Hidx as [|? ? Hi Hidx']; subst.
    destruct (lookup_lt_is_Some_2 weights i Hi) as (wi & Hwi).
    unfold place. rewrite Hj. cbn [res_bind]. unfold py_index.
    rewrite nth_error_lookup_eq, Hwi. cbn [res_bind].
    destruct (IH (done ++ [i])
                (alter (fun g => g ++ [i]) j groups)
                (alter (fun s => fadd s wi) j sums))
      as (groups' & sums' & Hrun & Hl1 & Hl2 & HP').
    + rewrite <- app_assoc. reflexivity.
    + rewrite !length_alter. exact Hlen.
    + intros _ E. apply (f_equal length) in E.
      rewrite length_alter in E. destruct sums; [congruence|discriminate].
    + exact Hidx'.
    + eapply Hstep; try eassumption. reflexivity.
    + exists groups', sums'. rewrite !length_alter in *. auto.
Qed.

Lemma argsort_indices (order : list nat) (n : nat) :
  Permutation order (seq 0 n) -> Forall (fun i => (i < n)%nat) order.
Proof.
  intros H. apply Forall_forall. intros i Hi.
  rewrite H in Hi. apply elem_of_seq in Hi. lia.
Qed.

Lemma concat_alter_snoc (groups : list (list nat)) (j i : nat) :
  (j < length groups)%nat ->
  Permutation (concat (alter (fun g => g ++ [i]) j groups))
              (concat groups ++ [i]).
Proof.
  revert j. induction groups as [|g groups IH]; intros j Hj; [cbn in Hj; lia|].
  destruct j as [|j]; cbn [alter list_alter concat].
  - rewrite <- !app_assoc. apply Permutation_app_head.
    apply Permutation_app_comm.
  - cbn [length] in Hj. rewrite <- app_assoc.
    apply Permutation_app_head. apply IH. lia.
Qed.

Lemma fold_left_snoc {A B} (f : A -> B -> A) (l : list B) (b : B) (a : A) :
  fold_left f (l ++ [b]) a = f (fold_left f l a) b.
Proof. rewrite fold_left_app. reflexivity. Qed.

Lemma nth_lookup_Some_eq (weights : list Q) (i : nat) (wi : Q) :
  weights !! i = Some wi -> nth i weights 0 = wi.
Proof.
  revert i. induction weights as [|a l IH]; intros [|i] H; cbn in *;
    try discriminate; [congruence|auto].
Qed.

Lemma weighted_partition_returns :
  forall fadd argsort weights n,
    (0 < n)%Z ->
    Permutation (argsort (map Qopp weights)) (seq 0 (length weights)) ->
    exists groups groupweights,
      weighted_partition fadd argsort weights n = Ok (groups, groupweights)
      /\ length groups = Z.to_nat n
      /\ length groupweights = Z.to_nat n
      /\ Permutation (concat groups) (seq 0 (length weights))
      /\ Forall2 (fun g s =>
                    s = fold_left fadd (map (fun i => nth i weights 0) g) 0)
           groups groupweights.
Proof.
  intros fadd argsort weights n Hn Hperm. unfold weighted_partition.
  destruct (Z.ltb_spec n 0) as [Hneg|_]; [lia|].
  set (order := argsort (map Qopp weights)) in *.
  destruct (place_all_rule fadd weights order
              (fun done st =>
                 Permutation (concat (fst st)) done
                 /\ Forall2 (fun g s =>
                               s = fold_left fadd
                                     (map (fun i => nth i weights 0) g) 0)
                      (fst st) (snd st)))
    with (order := order) (done := @nil nat)
         (groups := repeat (@nil nat) (Z.to_nat n))
         (sums := repeat 0 (Z.to_nat n))
    as (groups & sums & Hrun & Hl1 & Hl2 & Hcov & Hsum).
  - intros done i rest groups sums j m wi _ [Hc Hs] Hlen Hj _ Hwi.
    cbn [fst snd] in *. split.
    + rewrite concat_alter_snoc.
      * rewrite Hc. reflexivity.
      * rewrite Hlen. eapply lookup_lt_Some. exact Hj.
    + apply Forall2_alter; [exact Hs|].
      intros g s _ _ Hgs. rewrite map_app. cbn [map].
      rewrite fold_left_snoc, <- Hgs, (nth_lookup_Some_eq _ _ _ Hwi).
      reflexivity.
  - reflexivity.
  - rewrite !repeat_length. reflexivity.
  - intros _ E. apply (f_equal length) in E. rewrite repeat_length in E.
    cbn in E. lia.
  - apply argsort_indices. exact Hperm.
  - cbn [fst snd]. split.
    + induction (Z.to_nat n) as [|k IH]; [reflexivity|exact IH].
    + induction (Z.to_nat n) as [|k IH]; cbn [repeat]; constructor;
        [reflexivity|exact IH].
  - rewrite Hrun. cbn [res_bind fst snd] in *.
    exists groups, sums. rewrite repeat_length in Hl1, Hl2.
    repeat split; try assumption. rewrite Hcov. exact Hperm.
Qed.

(** X1.  With at least one group, [weighted_partition] raises nothing: it
    returns [n] groups and [n] sums, every index of [weights] is in
    exactly one group, and the sum reported for a group is the sum of the
    weights of its members, added one by one in the order they joined,
    however the addition rounds. *)
Theorem weighted_partition_covers :
  forall fadd argsort weights n,
    (0 < n)%Z ->
    Permutation (argsort (map Qopp weights)) (seq 0 (length weights)) ->
    exists groups groupweights,
      weighted_partition fadd argsort weights n = Ok (groups, groupweights)
      /\ length groups = Z.to_nat n
      /\ length groupweights = Z.to_nat n
      /\ Permutation (concat groups) (seq 0 (length weights))
      /\ Forall2 (fun g s =>
                    s = fold_left fadd (map (fun i => nth i weights 0) g) 0)
           groups groupweights.
Proof. exact weighted_partition_returns. Qed.

Lemma weighted_partition_covers_witness :
  (0 < 2)%Z
  /\ exists groups groupweights,
      weighted_partition Float.add insertion_argsort [3; 5; 4; 5; 1] 2
      = Ok (groups, groupweights)
      /\ Permutation (concat groups) (seq 0 5).
Proof.
  split; [lia|].
  destruct (weighted_partition_covers Float.add insertion_argsort
              [3; 5; 4; 5; 1] 2)
    as (groups & gw & Hrun & _ & _ & Hcov & _).
  - lia.
  - apply (bool_decide_unpack _). vm_compute. exact I.
  - exists groups, gw. split; [exact Hrun|exact Hcov].
Defined.


(** X3.  Without a group there is nothing to share the work among: for
    [n <= 0] and at least one weight, [weighted_partition] raises
    [ValueError]. *)
Theorem weighted_partition_no_group :
  forall fadd argsort weights n,
    (n <= 0)%Z ->
    weights <> [] ->
    Permutation (argsort (map Qopp weights)) (seq 0 (length weights)) ->
    exists msg,
      weighted_partition fadd argsort weights n = Raise (ValueError msg).
Proof.
  intros fadd argsort weights n Hn Hne Hperm. unfold weighted_partition.
  destruct (Z.ltb_spec n 0) as [Hneg|Hge]; [eauto|].
  assert (n = 0%Z) by lia. subst n. cbn [Z.to_nat repeat].
  destruct (argsort (map Qopp weights)) as [|i order] eqn:E.
  - apply Permutation_length in Hperm. rewrite length_seq in Hperm.
    destruct weights; [congruence|discriminate].
  - cbn [place_all place argmin res_bind]. eauto.
Qed.

Lemma weighted_partition_no_group_witness :
  (0 <= 0)%Z /\ [3; 5] <> []
  /\ exists msg,
      weighted_partition Float.add insertion_argsort [3; 5] 0
      = Raise (ValueError msg).
Proof.
  split; [lia|]. split; [discriminate|].
  apply (weighted_partition_no_group Float.add insertion_argsort [3; 5] 0).
  - lia.
  - discriminate.
  - apply (bool_decide_unpack _). vm_compute. exact I.
Defined.

(** X4.  When the order [np.argsort(-weights)] runs from the largest
    weight to the smallest, so does every group, as the docstring notes:
    a member that joined a group later weighs no more than one that joined
    earlier. *)
Theorem weighted_partition_descending :
  forall fadd argsort weights n,
    (0 < n)%Z ->
    Permutation (argsort (map Qopp weights)) (seq 0 (length weights)) ->
    StronglySorted (fun i j => nth j weights 0 <= nth i weights 0)
      (argsort (map Qopp weights)) ->
    exists groups groupweights,
      weighted_partition fadd argsort weights n = Ok (groups, groupweights)
      /\ Forall (StronglySorted
                   (fun i j => nth j weights 0 <= nth i weights 0)) groups.
Proof.
  intros fadd argsort weights n Hn Hperm Hsorted. unfold weighted_partition.
  destruct (Z.ltb_spec n 0) as [Hneg|_]; [lia|].
  set (order := argsort (map Qopp weights)) in *.
  set (R := fun i j : nat => nth j weights 0 <= nth i weights 0) in *.
  destruct (place_all_rule fadd weights order
              (fun done st =>
                 Forall (fun g => StronglySorted R g /\ Forall (fun i => i ∈ done) g)
                   (fst st)))
    with (order := order) (done := @nil nat)
         (groups := repeat (@nil nat) (Z.to_nat n))
         (sums := repeat 0 (Z.to_nat n))
    as (groups & sums & Hrun & _ & _ & Hinv).
  - intros done i rest groups sums j m wi Hfull Hinv Hlen Hj _ Hwi.
    cbn [fst snd] in *.
    assert (Hgrow : Forall (fun g => StronglySorted R g
                                     /\ Forall (fun k => k ∈ done ++ [i]) g)
                      groups).
    { eapply Forall_impl; [exact Hinv|]. intros g [Hs Hin]. split; [exact Hs|].
      eapply Forall_impl; [exact Hin|]. intros k Hk. cbn in Hk.
      apply elem_of_app. left. exact Hk. }
    apply Forall_alter; [exact Hgrow|].
    intros g Hg [Hs Hin]. rewrite Forall_lookup in Hinv.
    destruct (Hinv _ _ Hg) as [Hs0 Hin0]. split.
    + apply StronglySorted_app_2; [|exact Hs0|repeat constructor].
      intros x y Hx Hy. apply list_elem_of_singleton in Hy. subst y.
      rewrite Forall_forall in Hin0. specialize (Hin0 x Hx).
      rewrite Hfull in Hsorted.
      eapply (StronglySorted_app_1_elem_of R done (i :: rest));
        [exact Hsorted|exact Hin0|left].
    + apply Forall_app. split; [|repeat constructor; apply elem_of_app; right; left].
      eapply Forall_impl; [exact Hin0|]. intros k Hk. cbn in Hk.
      apply elem_of_app. left. exact Hk.
  - reflexivity.
  - rewrite !repeat_length. reflexivity.
  - intros _ E. apply (f_equal length) in E. rewrite repeat_length in E.
    cbn in E. lia.
  - apply argsort_indices. exact Hperm.
  - cbn [fst]. induction (Z.to_nat n) as [|k IH]; cbn [repeat]; constructor;
      [split; constructor|exact IH].
  - rewrite Hrun. cbn [res_bind fst snd] in *.
    exists groups, sums. split; [reflexivity|].
    eapply Forall_impl; [exact Hinv|]. intros g [Hs _]. exact Hs.
Qed.


Lemma weighted_partition_descending_witness :
  (0 < 2)%Z
  /\ exists groups groupweights,
      weighted_partition Float.add insertion_argsort [3; 5; 4] 2
      = Ok (groups, groupweights)
      /\ Forall (StronglySorted
                   (fun i j => nth j [3; 5; 4] 0 <= nth i [3; 5; 4] 0)) groups.
Proof.
  split; [lia|].
  apply (weighted_partition_descending Float.add insertion_argsort
           [3; 5; 4] 2).
  - lia.
  - apply (bool_decide_unpack _). vm_compute. exact I.
  - vm_compute. repeat constructor; discriminate.
Defined.

Lemma Qsum_runtimes_pos (ntargets : list nat) :
  ntargets <> [] -> 0 < Qsum (runtimes ntargets).
Proof.
  assert (Hcons : forall a l,
             Qsum (runtimes (a :: l))
             = 30 + (2 # 5) * inject_Z (Z.of_nat a) + Qsum (runtimes l))
    by reflexivity.
  assert (Hnat : forall a : nat, 0 <= inject_Z (Z.of_nat a)).
  { intros a. change 0 with (inject_Z 0). rewrite <- Zle_Qle. lia. }
  assert (Hnn : forall l, 0 <= Qsum (runtimes l)).
  { induction l as [|a l IH]; [apply Qle_refl|].
    rewrite Hcons. pose proof (Hnat a). lra. }
  destruct ntargets as [|a l]; [congruence|]. intros _.
  rewrite Hcons. pose proof (Hnn l). pose proof (Hnat a). lra.
Qed.

Lemma Qceiling_pos (x : Q) : 0 < x -> (1 <= Qceiling x)%Z.
Proof.
  intros Hx. pose proof (Qle_ceiling x) as Hc.
  assert (H : 0 < inject_Z (Qceiling x)) by lra.
  change 0 with (inject_Z 0) in H. rewrite <- Zlt_Qlt in H. lia.
Qed.

Lemma take_counts_ok (ntargets : list nat) (ii : list nat) :
  Forall (fun i => (i < length ntargets)%nat) ii ->
  take_counts ntargets ii = Ok (map (fun i => nth i ntargets 0%nat) ii).
Proof.
  unfold take_counts. induction 1 as [|i ii Hi _ IH]; [reflexivity|].
  cbn [mapM map]. unfold py_index at 1.
  destruct (nth_error ntargets i) as [c|] eqn:E.
  - cbn [res_bind]. rewrite IH. cbn [res_bind].
    rewrite (nth_error_nth _ _ _ E). reflexivity.
  - apply nth_error_None in E. lia.
Qed.

Lemma list_sum_Permutation (l k : list nat) :
  Permutation l k -> list_sum l = list_sum k.
Proof.
  induction 1; unfold list_sum in *; cbn [fold_right]; lia.
Qed.

Lemma map_nth_seq_id (l : list nat) :
  map (fun i => nth i l 0%nat) (seq 0 (length l)) = l.
Proof.
  induction l as [|a l IH]; [reflexivity|].
  cbn [length seq map nth]. f_equal.
  rewrite <- seq_shift, map_map. exact IH.
Qed.

Lemma list_sum_concat (f : nat -> nat) (groups : list (list nat)) :
  list_sum (map (fun g => list_sum (map f g)) groups)
  = list_sum (map f (concat groups)).
Proof.
  induction groups as [|g groups IH]; [reflexivity|].
  cbn [map concat]. rewrite map_app, list_sum_app, <- IH. reflexivity.
Qed.

(** X5.  Given at least one file and at least one node, the planner
    without a communicator raises nothing: the groups are between one and
    [maxnodes], and the targets counted for the groups are those of the
    files, none lost and none counted twice. *)
Theorem group_redrockfiles_conserves :
  forall fadd argsort ntargets maxnodes,
    ntargets <> [] ->
    (1 <= maxnodes)%Z ->
    Permutation (argsort (map Qopp (runtimes ntargets)))
      (seq 0 (length ntargets)) ->
    exists groups pergroup grouptimes,
      group_redrockfiles fadd argsort ntargets maxnodes
      = Ok (groups, pergroup, grouptimes)
      /\ (1 <= length groups)%nat
      /\ (Z.of_nat (length groups) <= maxnodes)%Z
      /\ length pergroup = length groups
      /\ list_sum pergroup = list_sum ntargets.
Proof.
  intros fadd argsort ntargets maxnodes Hne Hmax Hperm.
  unfold group_redrockfiles.
  set (n := Z.min maxnodes (Qceiling (Qsum (runtimes ntargets) / (25 * 60)))).
  assert (Hn : (1 <= n)%Z).
  { apply Z.min_glb; [exact Hmax|]. apply Qceiling_pos.
    pose proof (Qsum_runtimes_pos ntargets Hne) as Hpos.
    apply Qlt_shift_div_l; [reflexivity|]. lra. }
  assert (Hlen : length (runtimes ntargets) = length ntargets)
    by (unfold runtimes; apply length_map).
  destruct (weighted_partition_returns fadd argsort (runtimes ntargets) n)
    as (groups & gw & Hrun & Hl1 & _ & Hcov & _).
  - lia.
  - rewrite Hlen. exact Hperm.
  - rewrite Hrun. cbn [res_bind]. rewrite Hlen in Hcov.
    assert (Hidx : Forall (Forall (fun i => (i < length ntargets)%nat)) groups).
    { apply Forall_forall. intros g Hg. apply Forall_forall. intros i Hi.
      assert (Hin : i ∈ concat groups).
      { apply list_elem_of_In, in_concat. exists g.
        split; apply list_elem_of_In; assumption. }
      rewrite Hcov in Hin. apply elem_of_seq in Hin. lia. }
    assert (Hmap : mapM (fun ii => res_bind (take_counts ntargets ii)
                                     (fun c => Ok (list_sum c))) groups
                   = Ok (map (fun g => list_sum
                                         (map (fun i => nth i ntargets 0%nat) g))
                           groups)).
    { clear -Hidx. induction Hidx as [|g groups Hg _ IH]; [reflexivity|].
      cbn [mapM map]. rewrite (take_counts_ok _ _ Hg). cbn [res_bind].
      rewrite IH. reflexivity. }
    rewrite Hmap. cbn [res_bind].
    eexists. eexists. eexists. split; [reflexivity|].
    rewrite length_map, Hl1. repeat split; try lia.
    rewrite list_sum_concat, (list_sum_Permutation _ _
                                (Permutation_map _ Hcov)).
    rewrite map_nth_seq_id. reflexivity.
Qed.

Lemma group_redrockfiles_conserves_witness :
  [3000; 4000; 2000]%nat <> [] /\ (1 <= 20)%Z
  /\ exists groups pergroup grouptimes,
      group_redrockfiles Float.add insertion_argsort
        [3000; 4000; 2000]%nat 20
      = Ok (groups, pergroup, grouptimes)
      /\ (1 <= length groups)%nat
      /\ list_sum pergroup = list_sum [3000; 4000; 2000]%nat.
Proof.
  split; [discriminate|]. split; [lia|].
  destruct (group_redrockfiles_conserves Float.add insertion_argsort
              [3000; 4000; 2000]%nat 20)
    as (groups & pergroup & gt & Hrun & Hone & _ & _ & Hsum).
  - discriminate.
  - lia.
  - apply (bool_decide_unpack _). vm_compute. exact I.
  - exists groups, pergroup, gt. auto.
Defined.

End MpiFacts.

(** ** Stacked cameras *)

Module CamerasFacts.

Import Num NumFacts Py PyFacts ListFacts Cameras.

Lemma py_slice_nat {A} (v : list A) (a b : nat) :
  (a <= b)%nat -> (b <= length v)%nat ->
  py_slice v (Z.of_nat a) (Z.of_nat b) = firstn (b - a) (skipn a v).
Proof.
  intros Hab Hb. unfold py_slice, slice_bound.
  destruct (Z.ltb_spec (Z.of_nat a) 0); [lia|].
  destruct (Z.ltb_spec (Z.of_nat b) 0); [lia|].
  rewrite !Z.min_l by lia. rewrite Nat2Z.id.
  f_equal. lia.
Qed.

Lemma offset_shift (npixpercamera : list nat) (icam : nat) :
  list_sum (firstn (icam + 1) (npixpercam npixpercamera))
  = list_sum (firstn icam npixpercamera).
Proof.
  unfold npixpercam. rewrite Nat.add_1_r. reflexivity.
Qed.

Lemma list_sum_lengths {A} (arrays : list (list A)) :
  list_sum (map length arrays) = length (concat arrays).
Proof.
  induction arrays as [|a arrays IH]; [reflexivity|].
  cbn [map concat]. rewrite length_app, <- IH. reflexivity.
Qed.

(** The pieces of the cameras behind the first [length pre]. *)
Lemma unpack_from {A} (arrays : list (list A)) :
  forall pre : list (list A),
    map (fun icam =>
           py_slice (concat (pre ++ arrays))
             (Z.of_nat (list_sum (firstn (icam + 1)
                                    (npixpercam (map length (pre ++ arrays))))))
             (Z.of_nat (list_sum (firstn (icam + 2)
                                    (npixpercam (map length (pre ++ arrays)))))))
      (seq (length pre) (length arrays))
    = arrays.
Proof.
  induction arrays as [|a arrays IH]; intros pre; [reflexivity|].
  cbn [length seq map]. f_equal.
  - rewrite offset_shift.
    replace (length pre + 2)%nat with (S (length pre) + 1)%nat by lia.
    rewrite offset_shift.
    assert (E1 : firstn (length pre) (map length (pre ++ a :: arrays))
                 = map length pre).
    { rewrite map_app, firstn_app, length_map, Nat.sub_diag.
      cbn [firstn]. rewrite app_nil_r.
      rewrite <- (length_map length pre). apply firstn_all. }
    assert (E2 : firstn (S (length pre)) (map length (pre ++ a :: arrays))
                 = map length (pre ++ [a])).
    { rewrite !map_app, firstn_app, length_map.
      replace (S (length pre) - length pre)%nat with 1%nat by lia.
      cbn [map firstn]. f_equal.
      rewrite <- (length_map length pre) at 1.
      rewrite firstn_all2; [reflexivity|]. lia. }
    rewrite E1, E2, !list_sum_lengths.
    rewrite !concat_app. cbn [concat]. rewrite app_nil_r.
    rewrite py_slice_nat.
    + rewrite length_app.
      replace (length (concat pre) + length a - length (concat pre))%nat
        with (length a) by lia.
      rewrite skipn_app, Nat.sub_diag, skipn_all. cbn [app].
      change (skipn 0 (a ++ concat arrays)) with (a ++ concat arrays).
      rewrite firstn_app, Nat.sub_diag, firstn_all. cbn [firstn].
      apply app_nil_r.
    + rewrite length_app. lia.
    + rewrite !length_app. lia.
  - specialize (IH (pre ++ [a])). rewrite <- app_assoc in IH. cbn [app] in IH.
    rewrite length_app in IH. cbn [length] in IH.
    rewrite Nat.add_1_r in IH. exact IH.
Qed.

Lemma unpack_cameras_concat {A} (arrays : list (list A)) :
  unpack_cameras (map length arrays) (length arrays) (concat arrays) = arrays.
Proof.
  exact (unpack_from arrays []).
Qed.

Lemma split_by_lengths {A} (npix : list nat) :
  forall v : list A,
    length v = list_sum npix ->
    exists arrays, concat arrays = v /\ map length arrays = npix.
Proof.
  induction npix as [|n npix IH]; intros v Hv.
  - exists []. destruct v; [auto|discriminate].
  - cbn [list_sum fold_right] in Hv. fold (list_sum npix) in Hv.
    destruct (IH (skipn n v)) as (arrays & Hc & Hl).
    + rewrite length_skipn. lia.
    + exists (firstn n v :: arrays). cbn [concat map].
      rewrite Hc, Hl, firstn_skipn, length_firstn.
      split; [reflexivity|]. f_equal. lia.
Qed.

(** X6.  Unpacking inverts stacking: the arrays of the cameras, stacked
    by [np.hstack] and cut again at the running sums of the pixel counts,
    come back as they were; and a model on the stacked pixels is cut into
    one piece per camera, of that camera's length, that together make up
    the model. *)
Theorem unpack_cameras_stack :
  forall (A : Type),
    (forall arrays : list (list A),
        unpack_cameras (map length arrays) (length arrays) (concat arrays)
        = arrays)
    /\ (forall (npixpercamera : list nat) (v : list A),
          length v = list_sum npixpercamera ->
          concat (unpack_cameras npixpercamera (length npixpercamera) v) = v
          /\ map length (unpack_cameras npixpercamera (length npixpercamera) v)
             = npixpercamera).
Proof.
  intros A. split; [exact unpack_cameras_concat|].
  intros npix v Hv.
  destruct (split_by_lengths npix v Hv) as (arrays & <- & <-).
  rewrite length_map, unpack_cameras_concat. auto.
Qed.

Lemma unpack_cameras_stack_witness :
  length [1; 2; 3; 4; 5; 6] = list_sum [2; 3; 1]%nat
  /\ concat (unpack_cameras [2; 3; 1]%nat 3 [1; 2; 3; 4; 5; 6])
     = [1; 2; 3; 4; 5; 6]
  /\ map length (unpack_cameras [2; 3; 1]%nat 3 [1; 2; 3; 4; 5; 6])
     = [2; 3; 1]%nat.
Proof.
  split; [reflexivity|].
  destruct (unpack_cameras_stack Q) as [_ H].
  exact (H [2; 3; 1]%nat [1; 2; 3; 4; 5; 6] eq_refl).
Defined.

(** *** The pixels of the broad Balmer lines *)

Lemma camera_broadlinepix_none (pixoffset : nat) (names : list string) :
  Forall (fun name => is_broad_test_line name = false) names ->
  forall pix, camera_broadlinepix pixoffset names pix = [].
Proof.
  induction 1 as [|name names Hn _ IH]; intros pix; [reflexivity|].
  destruct pix as [|p pix]; [reflexivity|].
  cbn [camera_broadlinepix]. rewrite Hn. apply IH.
Qed.

Lemma collect_none (npixpercamera : list nat) (linename : list (list string))
    (linepix : list (list (list nat))) (ncam : nat) :
  (ncam <= length linename)%nat ->
  (ncam <= length linepix)%nat ->
  Forall (Forall (fun name => is_broad_test_line name = false)) linename ->
  collect_broadlinepix ncam npixpercamera linename linepix = Ok [].
Proof.
  intros Hn Hp Hall. unfold collect_broadlinepix.
  assert (H : forall start n,
             (start + n <= length linename)%nat ->
             (start + n <= length linepix)%nat ->
             exists percam,
               mapM (fun icam =>
                       res_bind (py_index linename icam) (fun names =>
                       res_bind (py_index linepix icam) (fun pix =>
                       Ok (camera_broadlinepix
                             (list_sum (firstn icam npixpercamera)) names pix))))
                 (seq start n) = Ok percam
               /\ concat percam = []).
  { intros start n. revert start.
    induction n as [|n IH]; intros start H1 H2; [exists []; auto|].
    cbn [seq mapM]. unfold py_index at 1 2.
    destruct (nth_error linename start) as [names|] eqn:E1;
      [|apply nth_error_None in E1; lia].
    destruct (nth_error linepix start) as [pix|] eqn:E2;
      [|apply nth_error_None in E2; lia].
    cbn [res_bind].
    destruct (IH (S start)) as (percam & Hrun & Hc); [lia|lia|].
    rewrite Hrun. cbn [res_bind]. eexists. split; [reflexivity|].
    cbn [concat]. rewrite Hc, app_nil_r.
    apply camera_broadlinepix_none.
    rewrite List.Forall_forall in Hall. apply Hall.
    eapply nth_error_In. exact E1. }
  destruct (H 0%nat ncam) as (percam & Hrun & Hc); [lia|lia|].
  rewrite Hrun. cbn [res_bind]. rewrite Hc. reflexivity.
Qed.

(** X7.  When no camera lists [halpha_broad], [hbeta_broad] or
    [hgamma_broad] among its lines, the broad-line stage with
    [broadlinefit=True], the default, raises [ValueError]: [np.hstack]
    is given an empty list.  With [broadlinefit=False] the stage is
    skipped. *)
Theorem broad_stage_without_broad_lines :
  forall ncam npixpercamera linename linepix,
    (ncam <= length linename)%nat ->
    (ncam <= length linepix)%nat ->
    Forall (Forall (fun name => is_broad_test_line name = false)) linename ->
    broad_stage true ncam npixpercamera linename linepix
    = Raise (ValueError "need at least one array to concatenate")
    /\ broad_stage false ncam npixpercamera linename linepix = Ok None.
Proof.
  intros ncam npix linename linepix Hn Hp Hall. unfold broad_stage.
  rewrite (collect_none npix linename linepix ncam Hn Hp Hall).
  split; reflexivity.
Qed.

Lemma broad_stage_without_broad_lines_witness :
  (2 <= length [["oii_3726"; "hbeta"]; ["halpha"]]%string)%nat
  /\ broad_stage true 2 [3; 3]%nat [["oii_3726"; "hbeta"]; ["halpha"]]%string
       [[[0; 1]; [2]]; [[1; 2]]]%nat
     = Raise (ValueError "need at least one array to concatenate").
Proof.
  split; [cbn; lia|].
  apply (broad_stage_without_broad_lines 2 [3; 3]%nat
           [["oii_3726"; "hbeta"]; ["halpha"]]%string
           [[[0; 1]; [2]]; [[1; 2]]]%nat).
  - cbn. lia.
  - cbn. lia.
  - repeat constructor.
Defined.


Lemma lookup_concat_offset {A} (arrays : list (list A)) :
  forall (icam : nat) (a : list A) (i : nat),
    arrays !! icam = Some a ->
    (i < length a)%nat ->
    concat arrays !! (i + list_sum (firstn icam (map length arrays)))%nat
    = a !! i.
Proof.
  induction arrays as [|b arrays IH]; intros icam a i Ha Hi; [discriminate|].
  destruct icam as [|icam]; cbn [concat map firstn].
  - cbn in Ha. inversion Ha; subst. cbn [list_sum fold_right].
    rewrite Nat.add_0_r. apply lookup_app_l. exact Hi.
  - cbn in Ha. change (list_sum (length b :: ?l)) with (length b + list_sum l)%nat.
    rewrite lookup_app_r by lia.
    replace (i + (length b + list_sum (firstn icam (map length arrays)))
             - length b)%nat
      with (i + list_sum (firstn icam (map length arrays)))%nat by lia.
    apply IH; assumption.
Qed.

Lemma camera_broadlinepix_in (pixoffset : nat) (names : list string) :
  forall (pix : list (list nat)) (line : list nat),
    In line (camera_broadlinepix pixoffset names pix) <->
    exists name lp,
      In (name, lp) (combine names pix)
      /\ is_broad_test_line name = true
      /\ line = map (fun p => (p + pixoffset)%nat) lp.
Proof.
  induction names as [|name names IH]; intros pix line.
  - cbn. split; [intros []|intros (? & ? & [] & _)].
  - destruct pix as [|lp pix].
    + cbn. split; [intros []|intros (? & ? & [] & _)].
    + cbn [camera_broadlinepix combine].
      destruct (is_broad_test_line name) eqn:E.
      * cbn [In]. rewrite IH. split.
        -- intros [<-|(n & l & Hin & Hb & ->)]; [exists name, lp|exists n, l];
             cbn [In]; auto.
        -- intros (n & l & [Heq|Hin] & Hb & ->).
           ++ inversion Heq; subst. left. reflexivity.
           ++ right. exists n, l. auto.
      * rewrite IH. split.
        -- intros (n & l & Hin & Hb & ->). exists n, l. cbn [In]. auto.
        -- intros (n & l & [Heq|Hin] & Hb & ->).
           ++ inversion Heq; subst. congruence.
           ++ exists n, l. auto.
Qed.

Lemma mapM_seq_in {B} (f : nat -> res (list B)) (n : nat) :
  forall (start : nat) (percam : list (list B)),
    mapM f (seq start n) = Ok percam ->
    forall x, In x (concat percam) <->
              exists icam l, (start <= icam < start + n)%nat
                             /\ f icam = Ok l /\ In x l.
Proof.
  induction n as [|n IH]; intros start percam H x.
  - cbn in H. inversion H; subst. cbn. split; [intros []|].
    intros (icam & l & Hr & _). lia.
  - cbn [seq mapM] in H. apply res_bind_inv in H. destruct H as (l0 & Hl0 & H).
    apply res_bind_inv in H. destruct H as (rest & Hrest & H).
    inversion H; subst. cbn [concat]. rewrite in_app_iff, (IH _ _ Hrest). split.
    + intros [Hx|(icam & l & Hr & Hf & Hx)].
      * exists start, l0. split; [lia|auto].
      * exists icam, l. split; [lia|auto].
    + intros (icam & l & Hr & Hf & Hx).
      destruct (Nat.eq_dec icam start) as [->|Hne].
      * left. congruence.
      * right. exists icam, l. split; [lia|auto].
Qed.

(** X8.  The pixel offsets of the broad-line stage address the stacked
    arrays: a line enters the stacked list exactly as a broad Balmer test
    line of some camera, with its pixels shifted by the number of pixels
    of the cameras before; and at a pixel shifted so, the stacked array
    holds what the camera's array holds at the pixel. *)
Theorem broadlinepix_offsets :
  forall (A : Type) (arrays : list (list A)) linename linepix stacked,
    collect_broadlinepix (length arrays) (map length arrays) linename linepix
    = Ok stacked ->
    (forall line,
        In line stacked <->
        exists icam names pix name lp,
          (icam < length arrays)%nat
          /\ linename !! icam = Some names
          /\ linepix !! icam = Some pix
          /\ In (name, lp) (combine names pix)
          /\ is_broad_test_line name = true
          /\ line = map (fun p => (p + list_sum (firstn icam (map length arrays)))%nat)
                      lp)
    /\ (forall icam a i,
          arrays !! icam = Some a ->
          (i < length a)%nat ->
          concat arrays !! (i + list_sum (firstn icam (map length arrays)))%nat
          = a !! i).
Proof.
  intros A arrays linename linepix stacked H. split.
  - unfold collect_broadlinepix in H.
    apply res_bind_inv in H. destruct H as (percam & Hrun & H).
    inversion H; subst. intros line.
    rewrite (mapM_seq_in _ _ _ _ Hrun). split.
    + intros (icam & l & Hr & Hf & Hin).
      apply res_bind_inv in Hf. destruct Hf as (names & Hn & Hf).
      apply res_bind_inv in Hf. destruct Hf as (pix & Hp & Hf).
      inversion Hf; subst.
      apply camera_broadlinepix_in in Hin.
      destruct Hin as (name & lp & Hc & Hb & ->).
      exists icam, names, pix, name, lp.
      unfold py_index in Hn, Hp.
      destruct (nth_error linename icam) eqn:E1; inversion Hn; subst.
      destruct (nth_error linepix icam) eqn:E2; inversion Hp; subst.
      rewrite <- !nth_error_lookup_eq.
      repeat split; try assumption; lia.
    + intros (icam & names & pix & name & lp & Hr & Hn & Hp & Hc & Hb & ->).
      exists icam. eexists. split; [lia|].
      unfold py_index. rewrite !nth_error_lookup_eq, Hn, Hp.
      cbn [res_bind]. split; [reflexivity|].
      apply camera_broadlinepix_in. exists name, lp. auto.
  - intros icam a i Ha Hi. apply lookup_concat_offset; assumption.
Qed.

Lemma broadlinepix_offsets_witness :
  collect_broadlinepix 2 (map length [[10; 11; 12]; [20; 21; 22]])
    [["hbeta_broad"]; ["halpha"; "halpha_broad"]]%string
    [[[1; 2]]; [[0]; [1; 2]]]%nat
  = Ok [[1; 2]; [4; 5]]%nat
  /\ concat [[10; 11; 12]; [20; 21; 22]] !! (2 + 3)%nat = Some 22.
Proof.
  assert (H : collect_broadlinepix (length [[10; 11; 12]; [20; 21; 22]])
                (map length [[10; 11; 12]; [20; 21; 22]])
                [["hbeta_broad"]; ["halpha"; "halpha_broad"]]%string
                [[[1; 2]]; [[0]; [1; 2]]]%nat
              = Ok [[1; 2]; [4; 5]]%nat) by (vm_compute; reflexivity).
  split; [exact H|].
  destruct (broadlinepix_offsets Q _ _ _ _ H) as [_ Hoff].
  exact (Hoff 1%nat [20; 21; 22] 2%nat eq_refl ltac:(cbn; lia)).
Defined.

End CamerasFacts.

(** ** emlines.py: the output table and the initial guesses *)

Module EMLinesTableFacts.

Import Num NumFacts Py PyFacts EMLines EMLinesFacts EMLinesTable.

Lemma upper_append (s t : string) :
  upper (String.append s t) = String.append (upper s) (upper t).
Proof.
  induction s as [|c s IH]; [reflexivity|]. simpl. rewrite IH. reflexivity.
Qed.

Lemma substring_all (t : string) :
  String.substring 0 (String.length t) t = t.
Proof.
  induction t as [|c t IH]; [reflexivity|].
  cbn [String.length String.substring]. f_equal. exact IH.
Qed.

Lemma substring_none (t : string) : String.substring 0 0 t = ""%string.
Proof. destruct t; reflexivity. Qed.

Lemma length_append (l t : string) :
  String.length (String.append l t)
  = (String.length l + String.length t)%nat.
Proof.
  induction l as [|c l IH]; [reflexivity|]. simpl. rewrite IH. reflexivity.
Qed.

(** What [l ++ t = r] says of [r]: it ends with [t], behind [l]. *)
Lemma append_eq_inv (l t r : string) :
  String.append l t = r ->
  l = String.substring 0 (String.length r - String.length t) r
  /\ t = String.substring (String.length r - String.length t)
           (String.length t) r.
Proof.
  revert r. induction l as [|c l IH]; intros r H.
  - simpl in H. subst r. rewrite Nat.sub_diag, substring_none, substring_all.
    auto.
  - simpl in H. destruct r as [|c' r]; [discriminate|].
    inversion H; subst c'. rewrite ?H2. destruct (IH r H2) as [Hl Ht].
    assert (Hlen : (String.length t <= String.length r)%nat).
    { rewrite <- H2, length_append. lia. }
    cbn [String.length].
    replace (S (String.length r) - String.length t)%nat
      with (S (String.length r - String.length t)) by lia.
    split; simpl; [f_equal; exact Hl|exact Ht].
Qed.

Lemma add_columns_inv (cols : list (string * Q)) :
  forall out out',
    add_columns out cols = Ok out' -> out' = out ++ cols.
Proof.
  induction cols as [|col cols IH]; intros out out' H; cbn [add_columns] in H.
  - inversion H. rewrite app_nil_r. reflexivity.
  - apply res_bind_inv in H. destruct H as (out1 & H1 & H).
    unfold add_column in H1. destruct (existsb _ _); [discriminate|].
    inversion H1; subst. rewrite (IH _ _ H), <- app_assoc. reflexivity.
Qed.

Lemma init_output_columns chi2_default synth_bands linenames out :
  init_output chi2_default synth_bands linenames = Ok out ->
  out = column_specs chi2_default synth_bands linenames.
Proof.
  unfold init_output. intros H. exact (add_columns_inv _ _ _ H).
Qed.

Lemma line_column_in chi2_default synth_bands linenames line col v :
  In line linenames ->
  In (col, v) (line_columns chi2_default) ->
  String.append (upper line) col
  ∈ dom (columns (column_specs chi2_default synth_bands linenames)).
Proof.
  intros Hl Hc. unfold columns. rewrite dom_list_to_map_L.
  apply elem_of_list_to_set, list_elem_of_In, in_map_iff.
  exists (String.append (upper line) col, v). split; [reflexivity|].
  unfold column_specs. rewrite !in_app_iff. right. right. right.
  apply in_flat_map. exists line. split; [exact Hl|].
  apply in_map_iff. exists (col, v). auto.
Qed.

Lemma fit_column_in chi2_default synth_bands linenames col :
  In (col, 0) fit_columns ->
  col ∈ dom (columns (column_specs chi2_default synth_bands linenames)).
Proof.
  intros Hc. unfold columns. rewrite dom_list_to_map_L.
  apply elem_of_list_to_set, list_elem_of_In, in_map_iff.
  exists (col, 0). split; [reflexivity|].
  unfold column_specs. rewrite !in_app_iff. right. right. left. exact Hc.
Qed.


Ltac suffix_clash H :=
  apply append_eq_inv in H; destruct H as [_ H]; vm_compute in H;
  discriminate H.

(** The parameters of a line list: a parameter of a line under its own
    name, or a doublet ratio in the place of the amplitude of a line of
    the list. *)
Lemma param_name_shape (linenames : list string) (pp : string) :
  In pp (build_param_names linenames) ->
  (exists linename param,
      In linename linenames /\ In param line_params
      /\ pp = String.append linename (String.append "_" param)
      /\ doublet_of pp = None)
  \/ (exists rc dc pa line,
        doublet_of pp = Some (rc, dc, pa)
        /\ In (rc, 0) fit_columns
        /\ In line linenames
        /\ dc = String.append (upper line) "_AMP").
Proof.
  intros H. apply in_build_param_names in H.
  destruct H as (linename & param & Hl & Hp & ->).
  destruct (doublet_param_name_cases
              (String.append linename (String.append "_" param)))
    as [(-> & _)|[(Hx & ->)|[(Hx & ->)|(Hx & ->)]]].
  - left. exists linename, param. repeat split; try assumption.
    destruct (doublet_of_cases
                (String.append linename (String.append "_" param)))
      as [(Hx & _)|[(Hx & _)|[(Hx & _)|(Hn & _)]]]; try exact Hn;
      exfalso; destruct Hp as [<-|[<-|[<-|[]]]]; simpl in Hx;
      suffix_clash Hx.
  - right. exists "MGII_DOUBLET_RATIO"%string, "MGII_2796_AMP"%string,
      "mgii_2803_amp"%string, "mgii_2796"%string.
    split; [reflexivity|]. split; [cbn; tauto|]. split; [|reflexivity].
    destruct Hp as [<-|[<-|[<-|[]]]]; simpl in Hx.
    + apply append_eq_inv in Hx. destruct Hx as [Hx _].
      vm_compute in Hx. subst linename. exact Hl.
    + suffix_clash Hx.
    + suffix_clash Hx.
  - right. exists "OII_DOUBLET_RATIO"%string, "OII_3726_AMP"%string,
      "oii_3729_amp"%string, "oii_3726"%string.
    split; [reflexivity|]. split; [cbn; tauto|]. split; [|reflexivity].
    destruct Hp as [<-|[<-|[<-|[]]]]; simpl in Hx.
    + apply append_eq_inv in Hx. destruct Hx as [Hx _].
      vm_compute in Hx. subst linename. exact Hl.
    + suffix_clash Hx.
    + suffix_clash Hx.
  - right. exists "SII_DOUBLET_RATIO"%string, "SII_6731_AMP"%string,
      "sii_6716_amp"%string, "sii_6731"%string.
    split; [reflexivity|]. split; [cbn; tauto|]. split; [|reflexivity].
    destruct Hp as [<-|[<-|[<-|[]]]]; simpl in Hx.
    + apply append_eq_inv in Hx. destruct Hx as [Hx _].
      vm_compute in Hx. subst linename. exact Hl.
    + suffix_clash Hx.
    + suffix_clash Hx.
Qed.

Lemma dom_insert_known (m : gmap string Q) (k : string) (v : Q) :
  k ∈ dom m -> dom (<[k := v]> m) = dom m.
Proof.
  intros Hk. rewrite dom_insert_L. apply set_eq. intros x.
  rewrite elem_of_union, elem_of_singleton. split; [intros [->|H]|]; auto.
Qed.

Lemma fill_param_keeps_columns fmul f4 chi2_default synth_bands linenames ff
    pp r r' :
  In pp (build_param_names linenames) ->
  dom r = dom (columns (column_specs chi2_default synth_bands linenames)) ->
  fill_param fmul f4 ff r pp = Ok r' ->
  dom r' = dom r.
Proof.
  intros Hin Hdom H. apply fill_param_inv in H. destruct H as (pinfo & _ & H).
  destruct (param_name_shape linenames pp Hin)
    as [(linename & param & Hl & Hp & -> & Hnone)
       |(rc & dc & pa & line & Hd & Hrc & Hline & ->)].
  - rewrite Hnone in H. subst r'. apply dom_insert_known. rewrite Hdom.
    rewrite upper_append.
    destruct Hp as [<-|[<-|[<-|[]]]];
      [apply (line_column_in _ _ _ _ "_AMP"%string 0)
      |apply (line_column_in _ _ _ _ "_VSHIFT"%string 0)
      |apply (line_column_in _ _ _ _ "_SIGMA"%string 0)];
      try exact Hl; cbn; tauto.
  - rewrite Hd in H. destruct H as (partner & _ & Hr'). subst r'.
    rewrite dom_insert_known.
    + apply dom_insert_known. rewrite Hdom. apply fit_column_in. exact Hrc.
    + rewrite dom_insert_known.
      * rewrite Hdom. apply (line_column_in _ _ _ _ "_AMP"%string 0);
          [exact Hline|cbn; tauto].
      * rewrite Hdom. apply fit_column_in. exact Hrc.
Qed.

(** X10.  Filling the output table creates no column: every name the
    loop over the parameters of the line model writes, the upper-cased
    parameter or the two columns of a doublet, is a column that
    [init_output] made for the same line list. *)
Theorem fill_table_keeps_columns :
  forall fmul f4 chi2_default synth_bands linenames out finalfit result,
    init_output chi2_default synth_bands linenames = Ok out ->
    fill_table fmul f4 finalfit (build_param_names linenames) (columns out)
    = Ok result ->
    dom result = dom (columns out).
Proof.
  intros fmul f4 chi2_default synth_bands linenames out ff result Hinit Hfill.
  apply init_output_columns in Hinit. subst out.
  set (cols := columns (column_specs chi2_default synth_bands linenames)) in *.
  assert (H : forall names r r',
             incl names (build_param_names linenames) ->
             dom r = dom cols ->
             fill_table fmul f4 ff names r = Ok r' -> dom r' = dom cols).
  { induction names as [|pp names IH]; intros r r' Hincl Hdom Hrun.
    - cbn in Hrun. inversion Hrun; subst. exact Hdom.
    - cbn [fill_table] in Hrun. apply res_bind_inv in Hrun.
      destruct Hrun as (r1 & H1 & Hrun).
      apply (IH r1 r'); [intros x Hx; apply Hincl; right; exact Hx| |exact Hrun].
      rewrite <- Hdom.
      apply (fill_param_keeps_columns fmul f4 chi2_default synth_bands
               linenames ff pp r r1); [apply Hincl; left; reflexivity|exact Hdom|exact H1]. }
  apply (H _ _ _ (incl_refl _) eq_refl Hfill).
Qed.


Lemma fill_table_keeps_columns_witness :
  init_output 0 ["g"; "r"; "z"]%string Examples.doublet_lines
  = Ok Cases.output_table
  /\ fill_table Float.mul Float.single Examples.doublet_fit
       (build_param_names Examples.doublet_lines)
       (columns Cases.output_table) = Ok Cases.filled_table
  /\ dom Cases.filled_table = dom (columns Cases.output_table).
Proof.
  assert (H1 : init_output 0 ["g"; "r"; "z"]%string Examples.doublet_lines
               = Ok Cases.output_table) by (vm_compute; reflexivity).
  assert (Hok : match fill_table Float.mul Float.single Examples.doublet_fit
                        (build_param_names Examples.doublet_lines)
                        (columns Cases.output_table) with
                | Ok _ => true
                | _ => false
                end = true) by (vm_compute; reflexivity).
  assert (H2 : fill_table Float.mul Float.single Examples.doublet_fit
                 (build_param_names Examples.doublet_lines)
                 (columns Cases.output_table) = Ok Cases.filled_table).
  { unfold Cases.filled_table.
    destruct (fill_table Float.mul Float.single Examples.doublet_fit
                (build_param_names Examples.doublet_lines)
                (columns Cases.output_table));
      [reflexivity|discriminate Hok|discriminate Hok]. }
  split; [exact H1|]. split; [exact H2|].
  exact (fill_table_keeps_columns Float.mul Float.single 0
           ["g"; "r"; "z"]%string
           Examples.doublet_lines Cases.output_table Examples.doublet_fit
           Cases.filled_table H1 H2).
Defined.

(** *** initial_guesses_and_bounds *)

Lemma self_undefined : name_defined frame_of_guesses "self" = false.
Proof. vm_compute. reflexivity. Qed.

(** X11.  The module-level function [initial_guesses_and_bounds] never
    returns: its body reads the name [self], which is neither an argument
    nor a name of the module.  When the interpolation of line 232 and the
    look-ups of line 234 succeed, the call raises [NameError] for [self],
    whatever the lines are. *)
Theorem initial_guesses_never_return :
  forall np_interp coadd_lines amplitude_guess sigma_guesses w,
    (forall out w',
        initial_guesses_and_bounds np_interp coadd_lines amplitude_guess
          sigma_guesses w <> (Ok out, w'))
    /\ (forall lines,
          np_interp = Ok tt ->
          coadd_lines = Ok lines ->
          initial_guesses_and_bounds np_interp coadd_lines amplitude_guess
            sigma_guesses w = (Raise (NameError "self"), w)).
Proof.
  intros np_interp coadd_lines amplitude_guess sigma_guesses w.
  assert (Hb : forall lines,
             np_interp = Ok tt ->
             coadd_lines = Ok lines ->
             initial_guesses_and_bounds np_interp coadd_lines amplitude_guess
               sigma_guesses w = (Raise (NameError "self"), w)).
  { intros lines -> ->. unfold initial_guesses_and_bounds, bind at 1, lift at 1.
    unfold bind at 1, lift at 1. unfold bind at 1.
    destruct lines as [|line lines]; cbn [for_each].
    - unfold ret at 1. unfold bind at 1.
      rewrite (load_name_undefined _ _ _ self_undefined). reflexivity.
    - unfold bind at 1. unfold bind at 1.
      rewrite (load_name_undefined _ _ _ self_undefined). reflexivity. }
  split; [|exact Hb].
  intros out w' H.
  destruct np_interp as [[]|e|] eqn:E1;
    [|unfold initial_guesses_and_bounds, bind, lift in H; discriminate H
     |unfold initial_guesses_and_bounds, bind, lift in H; discriminate H].
  destruct coadd_lines as [lines|e|] eqn:E2;
    [|unfold initial_guesses_and_bounds, bind, lift in H; discriminate H
     |unfold initial_guesses_and_bounds, bind, lift in H; discriminate H].
  rewrite (Hb lines eq_refl eq_refl) in H. discriminate H.
Qed.

Lemma initial_guesses_never_return_witness :
  initial_guesses_and_bounds (Ok tt) (Ok [("halpha"%string, [1; 2]%nat)])
    (fun _ _ _ => ret tt) (fun _ => ret tt) (mkWorld [] [])
  = (Raise (NameError "self"), mkWorld [] []).
Proof.
  destruct (initial_guesses_never_return (Ok tt)
              (Ok [("halpha"%string, [1; 2]%nat)])
              (fun _ _ _ => ret tt) (fun _ => ret tt) (mkWorld [] []))
    as [_ H].
  exact (H [("halpha"%string, [1; 2]%nat)] eq_refl eq_refl).
Defined.

End EMLinesTableFacts.

(** ** build_linemask *)

Module LineMaskFacts.

Import Num NumFacts Py PyFacts ListFacts ContinuumTools LineTable LineMask.

Lemma fold_left_rule {S A} (f : S -> A -> S) (P : list A -> S -> Prop) :
  (forall pre s a, P pre s -> P (pre ++ [a]) (f s a)) ->
  forall l pre s, P pre s -> P (pre ++ l) (fold_left f l s).
Proof.
  intros Hstep. induction l as [|a l IH]; intros pre s HP; cbn [fold_left].
  - rewrite app_nil_r. exact HP.
  - replace (pre ++ a :: l) with ((pre ++ [a]) ++ l)
      by (rewrite <- app_assoc; reflexivity).
    apply IH, Hstep, HP.
Qed.

Lemma count_true_none (I : list bool) (i : nat) :
  count_true I = 0%nat -> I !! i <> Some true.
Proof.
  unfold count_true. revert i.
  induction I as [|b I IH]; intros i H; [destruct i; discriminate|].
  destruct b; cbn [List.filter id] in H; [discriminate|].
  destruct i as [|i]; [discriminate|]. cbn. apply IH. exact H.
Qed.

Lemma count_true_some (I : list bool) :
  (0 < count_true I)%nat -> exists i, I !! i = Some true.
Proof.
  unfold count_true. induction I as [|b I IH]; intros H; [cbn in H; lia|].
  destruct b.
  - exists 0%nat. reflexivity.
  - cbn [List.filter id] in H. destruct (IH H) as (i & Hi).
    exists (S i). exact Hi.
Qed.

Lemma length_set_true (m I : list bool) :
  length m = length I -> length (set_true m I) = length I.
Proof.
  unfold set_true. revert I.
  induction m as [|a m IH]; intros [|b I] H; try discriminate; [reflexivity|].
  cbn [zip_with length]. f_equal. apply IH. cbn in H. lia.
Qed.

Lemma set_true_lookup (m I : list bool) (i : nat) :
  length m = length I ->
  (set_true m I !! i = Some true
   <-> m !! i = Some true \/ I !! i = Some true).
Proof.
  unfold set_true. revert I i.
  induction m as [|a m IH]; intros [|b I] i H; try discriminate.
  - cbn. split; [discriminate|intros [E|E]; destruct i; discriminate].
  - destruct i as [|i]; cbn [zip_with].
    + cbn. destruct a, b; cbn; split; auto; intros [E|E]; auto; discriminate.
    + cbn. apply IH. cbn in H. lia.
Qed.

Lemma length_within (wave : list Q) (lo hi : Q) :
  length (within wave lo hi) = length wave.
Proof. unfold within. apply length_map. Qed.

Lemma lookup_all_false {A} (l : list A) (i : nat) :
  map (fun _ => false) l !! i <> Some true.
Proof.
  revert i. induction l as [|a l IH]; intros [|i]; cbn; try discriminate.
  apply IH.
Qed.

Lemma Qleb_le (x y : Q) : Qleb x y = true <-> x <= y.
Proof. apply Qle_bool_iff. Qed.

Lemma Qgeb_ge (x y : Q) : Qgeb x y = true <-> y <= x.
Proof. apply Qle_bool_iff. Qed.

Lemma fold_min_spec (v : list Q) (q : Q) :
  let m := fold_left (fun m x => if Qltb x m then x else m) v q in
  (m = q \/ In m v) /\ m <= q /\ (forall w, In w v -> m <= w).
Proof.
  revert q. induction v as [|x v IH]; intros q; cbn [fold_left].
  - split; [left; reflexivity|]. split; [apply Qle_refl|intros w []].
  - destruct (Qltb x q) eqn:E.
    + apply Qltb_lt in E. destruct (IH x) as (Hin & Hle & Hall).
      split; [right; destruct Hin as [->|Hin]; [left; reflexivity|right; exact Hin]|].
      split; [lra|]. intros w [<-|Hw]; [exact Hle|exact (Hall w Hw)].
    + apply Qltb_ge in E. destruct (IH q) as (Hin & Hle & Hall).
      split; [destruct Hin as [->|Hin]; [left; reflexivity|right; right; exact Hin]|].
      split; [exact Hle|]. intros w [<-|Hw]; [lra|exact (Hall w Hw)].
Qed.

Lemma fold_max_spec (v : list Q) (q : Q) :
  let m := fold_left (fun m x => if Qltb m x then x else m) v q in
  (m = q \/ In m v) /\ q <= m /\ (forall w, In w v -> w <= m).
Proof.
  revert q. induction v as [|x v IH]; intros q; cbn [fold_left].
  - split; [left; reflexivity|]. split; [apply Qle_refl|intros w []].
  - destruct (Qltb q x) eqn:E.
    + apply Qltb_lt in E. destruct (IH x) as (Hin & Hle & Hall).
      split; [right; destruct Hin as [->|Hin]; [left; reflexivity|right; exact Hin]|].
      split; [lra|]. intros w [<-|Hw]; [exact Hle|exact (Hall w Hw)].
    + apply Qltb_ge in E. destruct (IH q) as (Hin & Hle & Hall).
      split; [destruct Hin as [->|Hin]; [left; reflexivity|right; right; exact Hin]|].
      split; [exact Hle|]. intros w [<-|Hw]; [lra|exact (Hall w Hw)].
Qed.

(** [np.min] and [np.max] give an entry of the array that bounds it. *)
Lemma np_min_spec (v : list Q) (m : Q) :
  np_min v = Ok m -> In m v /\ (forall w, In w v -> m <= w).
Proof.
  destruct v as [|q v]; [discriminate|]. cbn [np_min]. intros [= <-].
  destruct (fold_min_spec v q) as (Hin & Hle & Hall).
  split; [destruct Hin as [->|Hin]; [left; reflexivity|right; exact Hin]|].
  intros w [<-|Hw]; [exact Hle|exact (Hall w Hw)].
Qed.

Lemma np_max_spec (v : list Q) (m : Q) :
  np_max v = Ok m -> In m v /\ (forall w, In w v -> w <= m).
Proof.
  destruct v as [|q v]; [discriminate|]. cbn [np_max]. intros [= <-].
  destruct (fold_max_spec v q) as (Hin & Hle & Hall).
  split; [destruct Hin as [->|Hin]; [left; reflexivity|right; exact Hin]|].
  intros w [<-|Hw]; [exact Hle|exact (Hall w Hw)].
Qed.

Lemma lookup_map_true {A} (p : A -> bool) (l : list A) (i : nat) :
  map p l !! i = Some true <-> exists a, l !! i = Some a /\ p a = true.
Proof.
  revert i. induction l as [|a l IH]; intros [|i]; cbn.
  - split; [discriminate|intros (a & E & _); discriminate].
  - split; [discriminate|intros (a & E & _); discriminate].
  - split; [intros [= E]; eauto|intros (a' & [= <-] & E); congruence].
  - apply IH.
Qed.

Lemma within_lookup (wave : list Q) (lo hi : Q) (i : nat) :
  within wave lo hi !! i = Some true
  <-> exists w, wave !! i = Some w /\ lo <= w /\ w <= hi.
Proof.
  unfold within. rewrite lookup_map_true. split.
  - intros (w & Hw & E). apply andb_true_iff in E. destruct E as [E1 E2].
    apply Qgeb_ge in E1. apply Qleb_le in E2. eauto.
  - intros (w & Hw & H1 & H2). exists w. split; [exact Hw|].
    apply andb_true_iff. split; [apply Qgeb_ge|apply Qleb_le]; assumption.
Qed.

Lemma zip_andb_lookup (a b : list bool) (i : nat) :
  zip_with andb a b !! i = Some true -> a !! i = Some true.
Proof.
  revert b i. induction a as [|x a IH]; intros [|y b] [|i]; cbn; try discriminate.
  - destruct x; [reflexivity|discriminate].
  - apply IH.
Qed.

Lemma zip_orb_lookup (a b : list bool) (i : nat) :
  zip_with orb a b !! i = Some true ->
  a !! i = Some true \/ b !! i = Some true.
Proof.
  revert b i. induction a as [|x a IH]; intros [|y b] [|i]; cbn; try discriminate.
  - destruct x, y; cbn; auto.
  - apply IH.
Qed.

Lemma length_zip_same {A B C} (f : A -> B -> C) (a : list A) (b : list B) :
  length a = length b -> length (zip_with f a b) = length a.
Proof.
  revert b. induction a as [|x a IH]; intros [|y b] H; try discriminate;
    [reflexivity|]. cbn. f_equal. apply IH. cbn in H. lia.
Qed.

Lemma sublist_map_filter {A B} (g : A -> B) (p : A -> bool) (l : list A) :
  sublist (map g (List.filter p l)) (map g l).
Proof.
  induction l as [|a l IH]; cbn; [constructor|].
  destruct (p a); cbn; [apply sublist_skip|apply sublist_cons]; exact IH.
Qed.

Lemma filter_twice_In {A} (p q : A -> bool) (l : list A) (a : A) :
  In a (List.filter p (List.filter q l)) -> In a l /\ q a = true /\ p a = true.
Proof.
  intros H. apply filter_In in H. destruct H as [H Hp].
  apply filter_In in H. tauto.
Qed.

Section BuildLinemask.

Variable C_LIGHT : Q.
Variable linetable : list line.
Variables fadd fsub fmul fdiv : Q -> Q -> Q.
Variable smooth_continuum :
  list Q -> list Q -> list Q -> Q -> Q -> Q -> Q -> res (list Q * list Q).
Variable build_stack :
  list Q -> list Q -> list Q -> list Q -> Q -> option ContinuumTools.stack.
Variable curve_fit : ContinuumTools.stack -> Q -> res (Q * Q * Q).
Variable percentile : list Q -> Q -> Q.

Local Abbreviation masklines' := (masklines linetable fadd fmul).
Local Abbreviation line_window' := (line_window C_LIGHT fadd fsub fmul fdiv).
Local Abbreviation line_pixels' := (line_pixels C_LIGHT fadd fsub fmul fdiv).
Local Abbreviation continuum_window' :=
  (continuum_window C_LIGHT fadd fsub fmul fdiv).
Local Abbreviation continuum_pixels' :=
  (continuum_pixels C_LIGHT fadd fsub fmul fdiv).
Local Abbreviation mark_line' :=
  (mark_line C_LIGHT fadd fsub fmul fdiv percentile).
Local Abbreviation list_line' := (list_line C_LIGHT fadd fsub fmul fdiv).
Local Abbreviation build_linemask' :=
  (build_linemask C_LIGHT linetable fadd fsub fmul fdiv smooth_continuum
     build_stack curve_fit percentile).

Lemma length_line_window wave nsig sig l :
  length (line_window' wave nsig sig l) = length wave.
Proof. unfold line_window, window. apply length_within. Qed.

Lemma length_line_pixels wave nsig sig l :
  length (line_pixels' wave nsig sig l) = length wave.
Proof. unfold line_pixels, window. apply length_within. Qed.

(** The first loop: the masks keep the length of the spectrum, a pixel
    is in [linemask] exactly when it is in the window of a line seen so
    far, and [linemask_strong] stays within [linemask]. *)
Lemma mark_lines_inv wave flux ivar smooth smoothsigma nsig sig lines :
  let masks := fold_left
                 (mark_line' wave flux ivar smooth smoothsigma nsig sig)
                 lines
                 (map (fun _ => false) wave,
                  map (fun _ => false) (map (fun _ => false) wave)) in
  length (fst masks) = length wave
  /\ length (snd masks) = length wave
  /\ (forall i, snd masks !! i = Some true -> fst masks !! i = Some true)
  /\ (forall i, fst masks !! i = Some true
                <-> exists l, In l lines
                              /\ line_window' wave nsig sig l !! i
                                 = Some true).
Proof.
  pose (P := fun (seen : list maskline) (masks : list bool * list bool) =>
               length (fst masks) = length wave
               /\ length (snd masks) = length wave
               /\ (forall i, snd masks !! i = Some true
                             -> fst masks !! i = Some true)
               /\ (forall i, fst masks !! i = Some true
                             <-> exists l, In l seen
                                           /\ line_window' wave nsig sig l !! i
                                              = Some true)).
  apply (fold_left_rule _ P) with (pre := []).
  - intros pre [all strong] l (Hl1 & Hl2 & Hsub & Hiff). unfold P, mark_line.
    pose proof (length_line_window wave nsig sig l) as HlI.
    set (I := line_window' wave nsig sig l) in *.
    cbn [fst snd] in *.
    destruct (Nat.ltb_spec 0 (count_true I)) as [Hpos|Hzero]; cbn [fst snd].
    + split; [rewrite length_set_true; congruence|].
      split; [destruct (is_strong _ _ _ _ _ _ _ _ _ _ _ _ _);
              [rewrite length_set_true; congruence|exact Hl2]|].
      split.
      * intros i Hi. apply set_true_lookup; [congruence|].
        destruct (is_strong _ _ _ _ _ _ _ _ _ _ _ _ _).
        -- apply set_true_lookup in Hi; [|congruence].
           destruct Hi as [Hi|Hi]; auto.
        -- auto.
      * intros i. rewrite set_true_lookup by congruence. rewrite Hiff. split.
        -- intros [(l' & Hin & Hw)|Hw].
           ++ exists l'. split; [apply in_or_app; left; exact Hin|exact Hw].
           ++ exists l. split; [apply in_or_app; right; left; reflexivity|exact Hw].
        -- intros (l' & Hin & Hw). apply in_app_or in Hin.
           destruct Hin as [Hin|[<-|[]]]; [left; eauto|right; exact Hw].
    + split; [exact Hl1|]. split; [exact Hl2|]. split; [exact Hsub|].
      intros i. rewrite Hiff. split.
      * intros (l' & Hin & Hw). exists l'.
        split; [apply in_or_app; left; exact Hin|exact Hw].
      * intros (l' & Hin & Hw). apply in_app_or in Hin.
        destruct Hin as [Hin|[<-|[]]]; [eauto|].
        exfalso. apply (count_true_none I i); [lia|exact Hw].
  - unfold P. cbn [fst snd]. rewrite !length_map.
    split; [reflexivity|]. split; [reflexivity|]. split.
    + intros i Hi. exfalso. exact (lookup_all_false _ _ Hi).
    + intros i. split.
      * intros Hi. exfalso. exact (lookup_all_false _ _ Hi).
      * intros (l & [] & _).
Qed.

(** The second loop keeps the lines that have pixels and continuum
    pixels, in the order of the loop. *)
Lemma list_lines_filter wave nsig sig strong lines names lp cp :
  fold_left (list_line' wave nsig sig strong) lines (names, lp, cp)
  = (names ++ map ml_name
       (List.filter (fun l =>
          (0 <? count_true (line_pixels' wave nsig sig l))%nat
          && (0 <? count_true (continuum_pixels' wave nsig sig strong l))%nat)
          lines),
     lp ++ map (line_pixels' wave nsig sig)
       (List.filter (fun l =>
          (0 <? count_true (line_pixels' wave nsig sig l))%nat
          && (0 <? count_true (continuum_pixels' wave nsig sig strong l))%nat)
          lines),
     cp ++ map (continuum_pixels' wave nsig sig strong)
       (List.filter (fun l =>
          (0 <? count_true (line_pixels' wave nsig sig l))%nat
          && (0 <? count_true (continuum_pixels' wave nsig sig strong l))%nat)
          lines)).
Proof.
  revert names lp cp.
  induction lines as [|l lines IH]; intros names lp cp; cbn [fold_left List.filter map].
  - rewrite !app_nil_r. reflexivity.
  - unfold list_line at 2.
    destruct ((0 <? count_true (line_pixels' wave nsig sig l))%nat
              && (0 <? count_true (continuum_pixels' wave nsig sig strong l))%nat).
    + rewrite IH. cbn [map]. rewrite <- !app_assoc. reflexivity.
    + apply IH.
Qed.

Lemma build_linemask_inv wave flux ivar redshift nsig d :
  build_linemask' wave flux ivar redshift nsig = Ok d ->
  exists smooth smoothsigma sn sb su rn rb ru minwave maxwave,
    smooth_continuum wave flux ivar redshift 5000 5000 500
    = Ok (smooth, smoothsigma)
    /\ np_min wave = Ok minwave /\ np_max wave = Ok maxwave
    /\ let inrange :=
         List.filter (fun l => Qgtb (ml_zwave l) minwave
                               && Qltb (ml_zwave l) maxwave)
           (masklines' redshift) in
       let masks :=
         fold_left (mark_line' wave flux ivar smooth smoothsigma nsig
                      (sn, sb, su)) inrange
           (map (fun _ => false) wave,
            map (fun _ => false) (map (fun _ => false) wave)) in
       let kept :=
         List.filter (fun l =>
           (0 <? count_true (line_pixels' wave nsig (sn, sb, su) l))%nat
           && (0 <? count_true (continuum_pixels' wave nsig (sn, sb, su)
                                  (snd masks) l))%nat) inrange in
       (inrange = [] /\ d = mkLinemaskDict [] [] [] [] [] None)
       \/ (inrange <> []
           /\ d = mkLinemaskDict (fst masks) (snd masks) (map ml_name kept)
                    (map (line_pixels' wave nsig (sn, sb, su)) kept)
                    (map (continuum_pixels' wave nsig (sn, sb, su)
                            (snd masks)) kept)
                    (Some (sn, sb, su, rn, rb, ru))).
Proof.
  unfold build_linemask. intros H.
  apply res_bind_inv in H. destruct H as ([smooth smoothsigma] & Hsm & H).
  apply res_bind_inv in H.
  destruct H as ([[[[[sn sb] su] rn] rb] ru] & Hls & H).
  apply res_bind_inv in H. destruct H as (minwave & Hmin & H).
  apply res_bind_inv in H. destruct H as (maxwave & Hmax & H).
  exists smooth, smoothsigma, sn, sb, su, rn, rb, ru, minwave, maxwave.
  split; [exact Hsm|]. split; [exact Hmin|]. split; [exact Hmax|].
  cbv zeta.
  destruct (List.filter _ (masklines' redshift)) as [|l0 inrange] eqn:Ein.
  - cbn in H. left. split; [reflexivity|]. congruence.
  - right. split; [discriminate|].
    cbn [length Nat.ltb Nat.leb] in H.
    destruct (fold_left (mark_line' _ _ _ _ _ _ _) _ _)
      as [all strong] eqn:Em.
    rewrite list_lines_filter in H. cbn [app fst snd] in H |- *.
    congruence.
Qed.

(** A continuum pixel of a line lies beyond the edge of the line's
    pixels, on one side or the other. *)
Lemma continuum_window_lookup wave nsig k sig avoid l i :
  continuum_window' wave nsig k sig avoid l !! i = Some true ->
  exists w, wave !! i = Some w
            /\ (w < fsub (ml_zwave l)
                      (fmul nsig (sigma_list C_LIGHT fmul fdiv
                                    (linesigma_of sig l) (ml_zwave l)))
                \/ fadd (ml_zwave l)
                     (fmul nsig (sigma_list C_LIGHT fmul fdiv
                                   (linesigma_of sig l) (ml_zwave l))) < w).
Proof.
  unfold continuum_window. cbv zeta. intros H.
  apply zip_orb_lookup in H. destruct H as [H|H]; apply zip_andb_lookup in H.
  - unfold strictly_within in H. apply lookup_map_true in H.
    destruct H as (w & Hw & E). apply andb_true_iff in E. destruct E as [_ E].
    apply Qltb_lt in E. exists w. split; [exact Hw|left; exact E].
  - apply lookup_map_true in H.
    destruct H as (w & Hw & E). apply andb_true_iff in E. destruct E as [_ E].
    apply Qgtb_gt in E. exists w. split; [exact Hw|right; exact E].
Qed.

Lemma continuum_pixels_lookup wave nsig sig strong l i :
  continuum_pixels' wave nsig sig strong l !! i = Some true ->
  exists w, wave !! i = Some w
            /\ (w < fsub (ml_zwave l)
                      (fmul nsig (sigma_list C_LIGHT fmul fdiv
                                    (linesigma_of sig l) (ml_zwave l)))
                \/ fadd (ml_zwave l)
                     (fmul nsig (sigma_list C_LIGHT fmul fdiv
                                   (linesigma_of sig l) (ml_zwave l))) < w).
Proof.
  unfold continuum_pixels. cbv zeta.
  repeat match goal with |- context [if ?b then _ else _] => destruct b end;
    apply continuum_window_lookup.
Qed.

Lemma length_continuum_window wave nsig k sig avoid l :
  length avoid = length wave ->
  length (continuum_window' wave nsig k sig avoid l) = length wave.
Proof.
  intros H. unfold continuum_window, strictly_within. cbv zeta.
  rewrite length_zip_same; rewrite !length_zip_same;
    rewrite ?length_map; congruence.
Qed.

Lemma length_continuum_pixels wave nsig sig strong l :
  length strong = length wave ->
  length (continuum_pixels' wave nsig sig strong l) = length wave.
Proof.
  intros H. unfold continuum_pixels. cbv zeta.
  repeat match goal with |- context [if ?b then _ else _] => destruct b end;
    apply length_continuum_window; rewrite ?length_map; congruence.
Qed.

Lemma line_window_lookup wave nsig sig l i :
  line_window' wave nsig sig l !! i = Some true
  <-> exists w, wave !! i = Some w
                /\ fsub (ml_zwave l)
                     (fmul nsig (fdiv (fmul (linesigma_of sig l) (ml_zwave l))
                                   C_LIGHT)) <= w
                /\ w <= fadd (ml_zwave l)
                          (fmul nsig (fdiv (fmul (linesigma_of sig l)
                                              (ml_zwave l)) C_LIGHT)).
Proof. unfold line_window, window, sigma_mask. apply within_lookup. Qed.

Lemma line_pixels_lookup wave nsig sig l i :
  line_pixels' wave nsig sig l !! i = Some true
  <-> exists w, wave !! i = Some w
                /\ fsub (ml_zwave l)
                     (fmul nsig (sigma_list C_LIGHT fmul fdiv
                                   (linesigma_of sig l) (ml_zwave l))) <= w
                /\ w <= fadd (ml_zwave l)
                          (fmul nsig (sigma_list C_LIGHT fmul fdiv
                                        (linesigma_of sig l) (ml_zwave l))).
Proof. unfold line_pixels, window. apply within_lookup. Qed.

Lemma masklines_names redshift :
  map ml_name (masklines' redshift)
  = "Lya"%string :: map name linetable.
Proof.
  unfold masklines. cbn [map ml_name]. f_equal. rewrite map_map. reflexivity.
Qed.

Lemma inrange_In wave minwave maxwave redshift l :
  np_min wave = Ok minwave -> np_max wave = Ok maxwave ->
  (In l (List.filter (fun l => Qgtb (ml_zwave l) minwave
                               && Qltb (ml_zwave l) maxwave)
           (masklines' redshift))
   <-> In l (masklines' redshift)
       /\ exists lo hi, In lo wave /\ In hi wave
                        /\ lo < ml_zwave l /\ ml_zwave l < hi).
Proof.
  intros Hmin Hmax.
  apply np_min_spec in Hmin. destruct Hmin as [Hmin Hlo].
  apply np_max_spec in Hmax. destruct Hmax as [Hmax Hhi].
  rewrite filter_In, andb_true_iff, Qgtb_gt, Qltb_lt. split.
  - intros (Hin & H1 & H2). split; [exact Hin|].
    exists minwave, maxwave. auto.
  - intros (Hin & lo & hi & Hinlo & Hinhi & H1 & H2). split; [exact Hin|].
    specialize (Hlo lo Hinlo). specialize (Hhi hi Hinhi). split; lra.
Qed.

(** X12.  When [build_linemask] returns the widths of the lines, its two
    masks have one entry per pixel, every pixel of the mask of the strong
    lines ([linemask]) is in the mask of all lines ([linemask_all]), and a
    pixel is in [linemask_all] exactly when its wavelength is within [nsig]
    widths of a line of the table (or Lyman-alpha) whose redshifted
    wavelength is strictly between two wavelengths of the spectrum.  The
    width is that of line 980, [linesigma * zlinewave / C_LIGHT], and the
    statement holds however the arithmetic rounds. *)
Theorem build_linemask_masks wave flux ivar redshift nsig d sn sb su rn rb ru :
  build_linemask C_LIGHT linetable fadd fsub fmul fdiv smooth_continuum
    build_stack curve_fit percentile wave flux ivar redshift nsig = Ok d ->
  linesigmas d = Some (sn, sb, su, rn, rb, ru) ->
  length (linemask_all d) = length wave
  /\ length (linemask d) = length wave
  /\ (forall i, linemask d !! i = Some true -> linemask_all d !! i = Some true)
  /\ (forall i,
        linemask_all d !! i = Some true
        <-> exists l w lo hi,
              In l (masklines linetable fadd fmul redshift)
              /\ In lo wave /\ In hi wave
              /\ lo < ml_zwave l /\ ml_zwave l < hi
              /\ wave !! i = Some w
              /\ fsub (ml_zwave l)
                   (fmul nsig (fdiv (fmul (linesigma_of (sn, sb, su) l)
                                       (ml_zwave l)) C_LIGHT))
                 <= w
              /\ w <= fadd (ml_zwave l)
                        (fmul nsig (fdiv (fmul (linesigma_of (sn, sb, su) l)
                                            (ml_zwave l)) C_LIGHT))).
Proof.
  intros H Hsig. apply build_linemask_inv in H.
  destruct H as (smooth & smoothsigma & sn' & sb' & su' & rn' & rb' & ru'
                 & minwave & maxwave & _ & Hmin & Hmax & H).
  cbv zeta in H. destruct H as [[_ ->]|[_ ->]]; [discriminate|].
  cbn [linesigmas] in Hsig. injection Hsig as -> -> -> -> -> ->.
  cbn [linemask_all linemask].
  match goal with
  | |- context [fold_left ?f ?lines ?init] =>
      pose proof (mark_lines_inv wave flux ivar smooth smoothsigma nsig
                    (sn, sb, su) lines) as Hinv
  end.
  cbv zeta in Hinv. destruct Hinv as (Hl1 & Hl2 & Hsub & Hiff).
  split; [exact Hl1|]. split; [exact Hl2|]. split; [exact Hsub|].
  intros i. rewrite Hiff. split.
  - intros (l & Hin & Hw). apply (inrange_In wave minwave maxwave) in Hin; auto.
    destruct Hin as (Hin & lo & hi & Hlo & Hhi & H1 & H2).
    apply line_window_lookup in Hw. destruct Hw as (w & Hw & H3 & H4).
    exists l, w, lo, hi. auto 10.
  - intros (l & w & lo & hi & Hin & Hlo & Hhi & H1 & H2 & Hw & H3 & H4).
    exists l. split.
    + apply (inrange_In wave minwave maxwave); auto.
      split; [exact Hin|]. exists lo, hi. auto.
    + apply line_window_lookup. exists w. auto.
Qed.

(** X13.  The three lists of lines that [build_linemask] returns are
    aligned and name lines of the table (or Lyman-alpha) in the order of
    the table; for every listed line the pixels of the line and those of
    its continuum have one entry per pixel of the spectrum, each holds a
    pixel, and no pixel is both in the line and in its continuum: the
    pixels of the line are within [nsig] widths of its centre, the width
    being that of line 1037, [linesigma * (zlinewave / C_LIGHT)], and the
    pixels of the continuum are beyond.  The statement holds however the
    arithmetic rounds. *)
Theorem build_linemask_lines wave flux ivar redshift nsig d :
  build_linemask C_LIGHT linetable fadd fsub fmul fdiv smooth_continuum
    build_stack curve_fit percentile wave flux ivar redshift nsig = Ok d ->
  sublist (linename d) ("Lya"%string :: map name linetable)
  /\ length (linepix d) = length (linename d)
  /\ length (contpix d) = length (linename d)
  /\ forall j I J,
       linepix d !! j = Some I -> contpix d !! j = Some J ->
       length I = length wave /\ length J = length wave
       /\ (0 < count_true I)%nat /\ (0 < count_true J)%nat
       /\ (forall i, I !! i = Some true -> J !! i <> Some true).
Proof.
  intros H. apply build_linemask_inv in H.
  destruct H as (smooth & smoothsigma & sn & sb & su & rn & rb & ru
                 & minwave & maxwave & _ & Hmin & Hmax & H).
  cbv zeta in H. destruct H as [[_ ->]|[_ ->]].
  - cbn. split; [apply sublist_nil_l|]. split; [reflexivity|].
    split; [reflexivity|]. intros j I J Hj. destruct j; discriminate.
  - cbn [linename linepix contpix linemask_all].
    match goal with
    | |- context [fold_left ?f ?lines ?init] =>
        pose proof (mark_lines_inv wave flux ivar smooth smoothsigma nsig
                      (sn, sb, su) lines) as Hinv
    end.
    cbv zeta in Hinv. destruct Hinv as (_ & Hl2 & _ & _).
    split.
    { rewrite <- (masklines_names redshift).
      etransitivity; [apply sublist_map_filter|].
      generalize (masklines' redshift). intros lines.
      induction lines as [|a l IH]; cbn [List.filter map]; [constructor|].
      destruct (_ && _); cbn [map];
        [apply sublist_skip|apply sublist_cons]; exact IH. }
    rewrite !length_map. split; [reflexivity|]. split; [reflexivity|].
    intros j I J HI HJ.
    rewrite <- nth_error_lookup_eq in HI, HJ.
    rewrite nth_error_map in HI, HJ.
    match type of HI with
    | option_map _ ?t = _ => destruct t as [l|] eqn:El
    end; [|discriminate].
    cbn [option_map] in HI, HJ. injection HI as <-. injection HJ as <-.
    apply nth_error_In in El. apply filter_In in El. destruct El as [Hin Hk].
    apply andb_true_iff in Hk. destruct Hk as [HkI HkJ].
    apply Nat.ltb_lt in HkI, HkJ.
    split; [apply length_line_pixels|].
    split; [apply length_continuum_pixels; exact Hl2|].
    split; [exact HkI|]. split; [exact HkJ|].
    intros i Hi HJ. apply line_pixels_lookup in Hi.
    destruct Hi as (w & Hw & H1 & H2).
    apply continuum_pixels_lookup in HJ. destruct HJ as (w' & Hw' & H3).
    rewrite Hw in Hw'. injection Hw' as <-. destruct H3; lra.
Qed.

(** X14.  When no line of the table, nor Lyman-alpha, falls strictly
    between two wavelengths of the spectrum, the dictionary that
    [build_linemask] returns has empty masks and lists, whatever the number
    of pixels, and none of the six keys of the line widths: reading one
    raises [KeyError]. *)
Theorem build_linemask_no_line wave flux ivar redshift nsig d :
  build_linemask C_LIGHT linetable fadd fsub fmul fdiv smooth_continuum
    build_stack curve_fit percentile wave flux ivar redshift nsig = Ok d ->
  (forall l lo hi, In l (masklines linetable fadd fmul redshift) ->
                   In lo wave -> In hi wave ->
                   ~ (lo < ml_zwave l /\ ml_zwave l < hi)) ->
  wave <> []
  /\ linemask_all d = [] /\ linemask d = []
  /\ linename d = [] /\ linepix d = [] /\ contpix d = []
  /\ forall key, get_linesigmas d key = Raise (KeyError key).
Proof.
  intros H Hnone.
  apply build_linemask_inv in H.
  destruct H as (smooth & smoothsigma & sn & sb & su & rn & rb & ru
                 & minwave & maxwave & _ & Hmin & Hmax & H).
  assert (Hne : wave <> []) by (intros ->; discriminate Hmin).
  cbv zeta in H. destruct H as [[_ ->]|[Hin _]].
  - cbn. auto 10.
  - exfalso. apply Hin.
    destruct (List.filter _ _) as [|l rest] eqn:E; [reflexivity|].
    assert (Hl : In l (l :: rest)) by (left; reflexivity).
    rewrite <- E in Hl.
    apply (inrange_In wave minwave maxwave) in Hl; auto.
    destruct Hl as (Hl & lo & hi & Hlo & Hhi & H1 & H2).
    exfalso. exact (Hnone l lo hi Hl Hlo Hhi (conj H1 H2)).
Qed.

End BuildLinemask.

Lemma build_linemask_masks_witness :
  build_linemask MaskCases.C_LIGHT MaskCases.linetable Float.add Float.sub
    Float.mul Float.div MaskCases.flat_continuum
    MaskCases.no_stack MaskCases.no_fit MaskCases.largest MaskCases.wave
    MaskCases.flux MaskCases.ivar 0 5 = Ok MaskCases.oiii_dict
  /\ linesigmas MaskCases.oiii_dict = Some (200, 1000, 2000, 0, 0, 0)
  /\ length (linemask_all MaskCases.oiii_dict) = length MaskCases.wave
  /\ length (linemask MaskCases.oiii_dict) = length MaskCases.wave
  /\ (forall i, linemask MaskCases.oiii_dict !! i = Some true ->
                linemask_all MaskCases.oiii_dict !! i = Some true).
Proof.
  assert (H1 : build_linemask MaskCases.C_LIGHT MaskCases.linetable
                 Float.add Float.sub Float.mul Float.div
                 MaskCases.flat_continuum MaskCases.no_stack MaskCases.no_fit
                 MaskCases.largest MaskCases.wave MaskCases.flux
                 MaskCases.ivar 0 5 = Ok MaskCases.oiii_dict)
    by (vm_compute; reflexivity).
  assert (H2 : linesigmas MaskCases.oiii_dict
               = Some (200, 1000, 2000, 0, 0, 0)) by (vm_compute; reflexivity).
  split; [exact H1|]. split; [exact H2|].
  destruct (build_linemask_masks MaskCases.C_LIGHT MaskCases.linetable
              Float.add Float.sub Float.mul Float.div
              MaskCases.flat_continuum MaskCases.no_stack MaskCases.no_fit
              MaskCases.largest MaskCases.wave MaskCases.flux MaskCases.ivar
              0 5 MaskCases.oiii_dict 200 1000 2000 0 0 0 H1 H2)
    as (Ha & Hb & Hc & _).
  split; [exact Ha|]. split; [exact Hb|exact Hc].
Defined.

Lemma build_linemask_lines_witness :
  build_linemask MaskCases.C_LIGHT MaskCases.linetable Float.add Float.sub
    Float.mul Float.div MaskCases.flat_continuum
    MaskCases.no_stack MaskCases.no_fit MaskCases.largest MaskCases.wave
    MaskCases.flux MaskCases.ivar 0 5 = Ok MaskCases.oiii_dict
  /\ linename MaskCases.oiii_dict = ["oiii_5007"%string]
  /\ sublist (linename MaskCases.oiii_dict)
       ("Lya"%string :: map name MaskCases.linetable)
  /\ length (linepix MaskCases.oiii_dict)
     = length (linename MaskCases.oiii_dict)
  /\ length (contpix MaskCases.oiii_dict)
     = length (linename MaskCases.oiii_dict).
Proof.
  assert (H1 : build_linemask MaskCases.C_LIGHT MaskCases.linetable
                 Float.add Float.sub Float.mul Float.div
                 MaskCases.flat_continuum MaskCases.no_stack MaskCases.no_fit
                 MaskCases.largest MaskCases.wave MaskCases.flux
                 MaskCases.ivar 0 5 = Ok MaskCases.oiii_dict)
    by (vm_compute; reflexivity).
  split; [exact H1|]. split; [vm_compute; reflexivity|].
  destruct (build_linemask_lines MaskCases.C_LIGHT MaskCases.linetable
              Float.add Float.sub Float.mul Float.div
              MaskCases.flat_continuum MaskCases.no_stack MaskCases.no_fit
              MaskCases.largest MaskCases.wave MaskCases.flux MaskCases.ivar
              0 5 MaskCases.oiii_dict H1)
    as (Ha & Hb & Hc & _).
  split; [exact Ha|]. split; [exact Hb|exact Hc].
Defined.

Lemma build_linemask_no_line_witness :
  build_linemask MaskCases.C_LIGHT MaskCases.linetable Float.add Float.sub
    Float.mul Float.div MaskCases.flat_continuum
    MaskCases.no_stack MaskCases.no_fit MaskCases.largest MaskCases.blue_wave
    [1; 1] [1; 1] 0 5 = Ok MaskCases.blue_dict
  /\ linemask_all MaskCases.blue_dict = []
  /\ get_linesigmas MaskCases.blue_dict "linesigma_narrow"
     = Raise (KeyError "linesigma_narrow").
Proof.
  assert (H1 : build_linemask MaskCases.C_LIGHT MaskCases.linetable
                 Float.add Float.sub Float.mul Float.div
                 MaskCases.flat_continuum MaskCases.no_stack MaskCases.no_fit
                 MaskCases.largest MaskCases.blue_wave [1; 1] [1; 1] 0 5
               = Ok MaskCases.blue_dict)
    by (vm_compute; reflexivity).
  split; [exact H1|].
  assert (Hnone : forall l lo hi,
             In l (masklines MaskCases.linetable Float.add Float.mul 0) ->
             In lo MaskCases.blue_wave -> In hi MaskCases.blue_wave ->
             ~ (lo < ml_zwave l /\ ml_zwave l < hi)).
  { intros l lo hi Hl Hlo Hhi [Ha Hb].
    destruct Hl as [<-|[<-|[]]]; destruct Hlo as [<-|[<-|[]]];
      destruct Hhi as [<-|[<-|[]]]; vm_compute in Ha, Hb;
      first [discriminate Ha | discriminate Hb]. }
  destruct (build_linemask_no_line MaskCases.C_LIGHT MaskCases.linetable
              Float.add Float.sub Float.mul Float.div
              MaskCases.flat_continuum MaskCases.no_stack MaskCases.no_fit
              MaskCases.largest MaskCases.blue_wave [1; 1] [1; 1] 0 5
              MaskCases.blue_dict H1 Hnone)
    as (_ & Ha & _ & _ & _ & _ & Hkey).
  split; [exact Ha|apply Hkey].
Defined.

End LineMaskFacts.

(** ** estimate_linesigmas: fits that fail *)

Module LinesigmaFailureFacts.

Import Num NumFacts Py ContinuumTools.

Section Failure.

Variable wave : list Q.
Variable build_stack : list Q -> Q -> option stack.
Variable curve_fit : stack -> Q -> res (Q * Q * Q).

Hypothesis no_fit :
  forall zlinewaves init_linesigma st,
    build_stack zlinewaves init_linesigma = Some st ->
    (10 < stack_npix st)%nat ->
    curve_fit st init_linesigma = Raise RuntimeError.

Lemma get_linesigma_failed zlinewaves init_linesigma :
  wave <> [] ->
  get_linesigma wave build_stack curve_fit zlinewaves init_linesigma
  = Ok (0, 0).
Proof.
  intros Hne. unfold get_linesigma.
  destruct wave as [|w0 wave']; [congruence|]. cbn [np_min np_max res_bind].
  destruct (0 <? length _)%nat; [|reflexivity].
  destruct (build_stack _ init_linesigma) as [st|] eqn:Est; [|reflexivity].
  destruct (Nat.ltb_spec 10 (stack_npix st)) as [Hn|_]; [|reflexivity].
  rewrite (no_fit _ _ _ Est Hn). reflexivity.
Qed.

Lemma class_linesigma_failed refit zlinewaves init_linesigma floor :
  wave <> [] ->
  0 < floor ->
  class_linesigma wave build_stack curve_fit refit zlinewaves init_linesigma
    floor = Ok (init_linesigma, 0).
Proof.
  intros Hne Hfloor. unfold class_linesigma.
  rewrite get_linesigma_failed by exact Hne. cbn [res_bind].
  unfold refit_linesigma.
  replace (Qgtb 0 0) with false by reflexivity.
  rewrite andb_false_r. cbn [res_bind]. unfold settle_linesigma.
  apply Qltb_lt in Hfloor. rewrite Hfloor. reflexivity.
Qed.

End Failure.

Lemma class_linesigma_empty build_stack curve_fit refit zlinewaves
    init_linesigma floor :
  exists msg,
    class_linesigma [] build_stack curve_fit refit zlinewaves init_linesigma
      floor = Raise (ValueError msg).
Proof. unfold class_linesigma, get_linesigma. cbn. eauto. Qed.

(** X15.  On a spectrum that is not empty a fit that fails is not an
    error: when, for every class with more than ten stacked pixels,
    scipy's [curve_fit] raises [RuntimeError] (and the other classes have
    no line in range, no stack or too few pixels), [estimate_linesigmas]
    raises nothing and returns the initial widths of 200, 1000 and 2000
    km/s with S/N 0.  On an empty spectrum it raises the [ValueError] of
    [np.min]. *)
Theorem estimate_linesigmas_fit_failure :
  forall wave build_stack curve_fit redshift refit,
    (forall zlinewaves init_linesigma st,
        build_stack zlinewaves init_linesigma = Some st ->
        (10 < stack_npix st)%nat ->
        curve_fit st init_linesigma = Raise RuntimeError) ->
    (wave <> [] ->
     estimate_linesigmas wave build_stack curve_fit redshift refit
     = Ok (200, 1000, 2000, 0, 0, 0))
    /\ (wave = [] ->
        exists msg,
          estimate_linesigmas wave build_stack curve_fit redshift refit
          = Raise (ValueError msg)).
Proof.
  intros wave build_stack curve_fit redshift refit Hfail. split.
  - intros Hne. unfold estimate_linesigmas.
    rewrite !(class_linesigma_failed wave build_stack curve_fit Hfail)
      by (try exact Hne; reflexivity).
    reflexivity.
  - intros ->. unfold estimate_linesigmas.
    destruct (class_linesigma_empty build_stack curve_fit refit
                (redshifted restwaves_narrow redshift)
                init_linesigma_narrow 50) as (msg & ->).
    exists msg. reflexivity.
Qed.

Lemma estimate_linesigmas_fit_failure_witness :
  Examples.optical_wave <> []
  /\ estimate_linesigmas Examples.optical_wave Examples.wide_stack
       (fun _ _ => Raise RuntimeError) 0 true
     = Ok (200, 1000, 2000, 0, 0, 0).
Proof.
  split; [discriminate|].
  destruct (estimate_linesigmas_fit_failure Examples.optical_wave
              Examples.wide_stack (fun _ _ => Raise RuntimeError) 0 true)
    as [H _].
  - intros zlinewaves init_linesigma st _ _. reflexivity.
  - apply H. discriminate.
Defined.

End LinesigmaFailureFacts.

(** ** continuum_fastphot: the reduced chi-square *)

Module FastphotFacts.

Import Num NumFacts Py PyFacts LinAlg ContinuumFit ContinuumFitFacts.

Lemma all_zero_none_positive (v : list Q) :
  forallb (fun q => Qeqb q 0) v = true -> count_positive v = 0%Z.
Proof.
  unfold count_positive. induction v as [|q v IH]; [reflexivity|].
  cbn [forallb List.filter]. intros H. apply andb_true_iff in H.
  destruct H as [Hq Hv]. apply Qeq_bool_iff in Hq.
  destruct (Qgtb q 0) eqn:E; [|exact (IH Hv)].
  apply Qgtb_gt in E. rewrite Hq in E. exfalso. exact (Qlt_irrefl 0 E).
Qed.

Section Fastphot.

Variable np_sqrt : Q -> Q.
Variable fnnls : list (list Q) -> list Q -> res (list Q).
Variable find_minima : list Q -> res (list Z).
Variable minfit : list Q -> list Q -> res (Q * Q * Q * Z).
Variable interp_coeff : Q -> list Q -> list (list Q) -> list Q.
Variable AV : list Q.
Variable AV_nominal : Q.
Variable nssp_coeff : nat.
Variable bands_to_fit : list Q.
Variable SSP2data_dust_phot : spectrum -> res (list (list (list Q))).
Variable SSP2data_phot : spectrum -> Q -> res (list (list Q) * list (list Q)).
Variable derived_phot : spectrum -> list Q -> list Q -> res Q.

(** X16.  With a band of positive inverse variance, the reduced
    chi-square that [continuum_fastphot] reports is the weighted residual
    sum of squares of the final coefficient solve divided by the number of
    such bands minus one, and 0 when no coefficient is positive.  With
    exactly one such band and a positive coefficient the divisor is zero
    and the reported value is not a finite number. *)
Theorem continuum_fastphot_rchi2 :
  forall data w out w',
    continuum_fastphot np_sqrt fnnls find_minima minfit interp_coeff AV
      AV_nominal nssp_coeff bands_to_fit SSP2data_dust_phot SSP2data_phot
      derived_phot data w = (Ok out, w') ->
    let objflam := map (fun f => f * fluxnorm) (phot_flam data) in
    let objflamivar :=
      zip_with Qmult
        (map (fun iv => iv / (fluxnorm * fluxnorm)) (phot_flam_ivar data))
        bands_to_fit in
    (0 < count_positive objflamivar)%Z ->
    exists bestsspflux bestphot coeff,
      SSP2data_phot data (PHOT_CONTINUUM_AV out) = Ok (bestsspflux, bestphot)
      /\ fst (_fnnls_parallel_coeff np_sqrt fnnls
                (map (map (fun f => f * massnorm * fluxnorm)) bestphot)
                objflam objflamivar w')
         = Ok (coeff,
               weighted_rss objflamivar objflam
                 (matvec (map (map (fun f => f * massnorm * fluxnorm)) bestphot)
                    coeff))
      /\ PHOT_CONTINUUM_COEFF out = store_coeff nssp_coeff coeff
      /\ PHOT_CONTINUUM_RCHI2 out
         = (if (count_positive coeff =? 0)%Z then Some 0
            else np_divide
                   (weighted_rss objflamivar objflam
                      (matvec (map (map (fun f => f * massnorm * fluxnorm))
                                 bestphot) coeff))
                   (count_positive objflamivar - 1))
      /\ (count_positive objflamivar = 1%Z ->
          (0 < count_positive coeff)%Z ->
          PHOT_CONTINUUM_RCHI2 out = None).
Proof.
  intros data w out w' H objflam objflamivar Hpos.
  unfold continuum_fastphot in H.
  apply bind_inv in H. destruct H as (grid & w1 & _ & H).
  apply bind_inv in H. destruct H as ([] & w2 & _ & H).
  fold objflam objflamivar in H.
  destruct (negb (forallb (fun q => Qgeb q 0) objflamivar));
    [apply raise_inv in H; contradiction|].
  apply bind_inv in H. destruct H as (fitted & w3 & Hfit & H).
  destruct (forallb (fun q => Qeqb q 0) objflamivar) eqn:Ezero.
  { apply all_zero_none_positive in Ezero. lia. }
  apply bind_inv in Hfit. destruct Hfit as ([] & w4 & _ & Hfit).
  apply bind_inv in Hfit.
  destruct Hfit as ([[[AVchi2min AVbest0] AVivar] bc] & w5 & _ & Hfit).
  apply bind_inv in Hfit. destruct Hfit as ([] & w6 & _ & Hfit).
  apply bind_inv in Hfit. destruct Hfit as (AVbest & w7 & _ & Hfit).
  apply bind_inv in Hfit.
  destruct Hfit as ([bestsspflux bestphot] & w8 & Hbest & Hfit).
  apply lift_inv in Hbest. destruct Hbest as [Hbest ->].
  apply bind_inv in Hfit. destruct Hfit as ([coeff chi2] & w9 & Hsolve & Hfit).
  apply ret_inv in Hfit. destruct Hfit as [Hf ->]. subst fitted.
  pose proof Hsolve as Hsolve'.
  apply fnnls_parallel_coeff_inv in Hsolve'.
  destruct Hsolve' as (-> & Hc & ->).
  assert (Hout : PHOT_CONTINUUM_AV out = AVbest
                 /\ PHOT_CONTINUUM_COEFF out = store_coeff nssp_coeff coeff
                 /\ PHOT_CONTINUUM_RCHI2 out
                    = (if (count_positive coeff =? 0)%Z then Some 0
                       else np_divide
                              (weighted_rss objflamivar objflam
                                 (matvec (map (map (fun f => f * massnorm * fluxnorm))
                                            bestphot) coeff))
                              (count_positive objflamivar - 1))).
  { destruct (count_positive coeff =? 0)%Z.
    - apply bind_inv in H. destruct H as ([c d] & w10 & Ht & H).
      apply bind_inv in Ht. destruct Ht as ([] & w11 & _ & Ht).
      apply ret_inv in Ht. destruct Ht as [Ht ->].
      injection Ht as Hc' Hd'. subst c d.
      apply ret_inv in H. destruct H as [H _]. subst out. cbn. auto.
    - apply bind_inv in H. destruct H as ([c d] & w10 & Ht & H).
      apply bind_inv in Ht. destruct Ht as (dn & w11 & _ & Ht).
      apply ret_inv in Ht. destruct Ht as [Ht ->].
      injection Ht as Hc' Hd'. subst c d.
      apply ret_inv in H. destruct H as [H _]. subst out. cbn. auto. }
  destruct Hout as (Hav & Hco & Hr). rewrite Hav.
  exists bestsspflux, bestphot, coeff.
  split; [exact Hbest|]. split.
  { unfold _fnnls_parallel_coeff, bind, lift.
    unfold fnnls_continuum. rewrite Hc. reflexivity. }
  split; [exact Hco|]. split; [exact Hr|].
  intros Hone Hcpos. rewrite Hr.
  destruct (Z.eqb_spec (count_positive coeff) 0); [lia|].
  rewrite Hone. reflexivity.
Qed.

End Fastphot.

Lemma continuum_fastphot_rchi2_witness :
  PhotCases.one_band_run
  = (Ok PhotCases.one_band_output, PhotCases.one_band_world)
  /\ count_positive
       (zip_with Qmult
          (map (fun iv => iv / (fluxnorm * fluxnorm))
             (phot_flam_ivar PhotCases.one_band)) [1; 1; 1]) = 1%Z
  /\ PHOT_CONTINUUM_COEFF PhotCases.one_band_output = [3; 0]
  /\ PHOT_CONTINUUM_RCHI2 PhotCases.one_band_output = None.
Proof.
  assert (Hrun : PhotCases.one_band_run
                 = (Ok PhotCases.one_band_output, PhotCases.one_band_world))
    by (vm_compute; reflexivity).
  assert (Hone : count_positive
                   (zip_with Qmult
                      (map (fun iv => iv / (fluxnorm * fluxnorm))
                         (phot_flam_ivar PhotCases.one_band)) [1; 1; 1])
                 = 1%Z) by (vm_compute; reflexivity).
  assert (Hco : PHOT_CONTINUUM_COEFF PhotCases.one_band_output = [3; 0])
    by (vm_compute; reflexivity).
  split; [exact Hrun|]. split; [exact Hone|]. split; [exact Hco|].
  unfold PhotCases.one_band_run in Hrun.
  pose proof (continuum_fastphot_rchi2 Util.sqrt_floor Examples.solver
                Util.find_minima (Util.minfit Util.sqrt_floor)
                (fun _ _ coeffs => hd [] coeffs) Examples.av_grid 0 2
                [1; 1; 1]
                (fun _ => Ok (map PhotCases.dimmed_bands Examples.av_grid))
                (fun _ a => Ok (Examples.dimmed a, PhotCases.dimmed_bands a))
                (fun _ _ _ => Ok 1) PhotCases.one_band (mkWorld [] [])
                PhotCases.one_band_output PhotCases.one_band_world Hrun)
    as Hthm.
  cbv zeta in Hthm.
  destruct Hthm as (bestsspflux & bestphot & coeff & _ & _ & Hst & _ & Hnone).
  { rewrite Hone. reflexivity. }
  apply Hnone; [exact Hone|].
  rewrite Hco in Hst. unfold store_coeff in Hst.
  destruct coeff as [|c0 [|c1 [|c2 coeff]]];
    cbn [app length repeat Nat.sub] in Hst; try discriminate Hst.
  - injection Hst as <-. reflexivity.
  - injection Hst as <- <-. reflexivity.
Defined.

End FastphotFacts.
